(** * Hodor traceability audit: linking and validation engine

    A shallow embedding of [scripts/build_traceability_audit.py]: the item
    loader, the directive-block scanner, the link resolver and the coverage
    aggregator, followed by the properties of the specification that were
    checked against them.

    Conventions.
    - A Python [str] is a Rocq [string]; every character stands for the code
      point with the same number (0..255).  Code points above 255 are outside
      the model.
    - A function that can raise returns [result A]: [Ok] for a normal return,
      [Raise] for the exception that leaves the function.
    - Python dictionaries used as records ([{"id": .., "text": ..}]) are Rocq
      records; the key [refs], which only some of them have at first, is an
      [option] field, and the keys that [build_payload] adds at the end
      ([tests], [reqs], [status]) are the fields of the records of the
      payload.
    - The file system, the YAML parser and the clock are inputs: a directory
      is given by the files that the script finds in it, a file by what the
      script reads from it. *)

From Stdlib Require Import ZArith Ascii String Floats Uint63.
From stdpp Require Import base strings list gmap sorting pretty.

Local Open Scope string_scope.
Local Open Scope list_scope.

(** ** Python built-ins used by the script *)

Module Py.

Definition chr (n : nat) : ascii := ascii_of_nat n.
Definition ord (c : ascii) : nat := nat_of_ascii c.

Definition LF : ascii := chr 10.
Definition CR : ascii := chr 13.

(** [str.isspace] on one character; [\s] of the [re] module agrees with it. *)
Definition isspace (c : ascii) : bool :=
  let n := ord c in
  (((9 <=? n) && (n <=? 13)) || ((28 <=? n) && (n <=? 32))
   || (n =? 133) || (n =? 160))%nat.

Fixpoint lstrip (s : string) : string :=
  match s with
  | String c s' => if isspace c then lstrip s' else s
  | EmptyString => EmptyString
  end.

Fixpoint rstrip (s : string) : string :=
  match s with
  | String c s' =>
      match rstrip s' with
      | EmptyString => if isspace c then EmptyString else String c EmptyString
      | r => String c r
      end
  | EmptyString => EmptyString
  end.

Definition strip (s : string) : string := lstrip (rstrip s).

(** Truth value of a string and of a list. *)
Definition truthy (s : string) : bool :=
  match s with EmptyString => false | _ => true end.

Definition nonempty {A} (l : list A) : bool :=
  match l with [] => false | _ => true end.

(** [s.replace(a, b)] for one-character [a] and [b]. *)
Fixpoint replace (a b : ascii) (s : string) : string :=
  match s with
  | String c s' => String (if Ascii.eqb c a then b else c) (replace a b s')
  | EmptyString => EmptyString
  end.

(** [s.split(sep)] for a one-character separator. *)
Fixpoint split (sep : ascii) (s : string) : list string :=
  match s with
  | String c s' =>
      if Ascii.eqb c sep then EmptyString :: split sep s'
      else match split sep s' with
           | p :: ps => String c p :: ps
           | [] => [String c EmptyString]
           end
  | EmptyString => [EmptyString]
  end.

(** [sep.join(parts)]. *)
Fixpoint join (sep : string) (parts : list string) : string :=
  match parts with
  | [] => EmptyString
  | [p] => p
  | p :: ps => p +:+ sep +:+ join sep ps
  end.

Fixpoint startswith (p s : string) : bool :=
  match p, s with
  | EmptyString, _ => true
  | String a p', String b s' => Ascii.eqb a b && startswith p' s'
  | String _ _, EmptyString => false
  end.

(** [sub in s] *)
Fixpoint contains (sub s : string) : bool :=
  startswith sub s ||
  match s with
  | String _ s' => contains sub s'
  | EmptyString => false
  end.

(** [s[n:]]. *)
Fixpoint drop (n : nat) (s : string) : string :=
  match n, s with
  | S n', String _ s' => drop n' s'
  | _, _ => s
  end.

(** Line boundaries of [str.splitlines] among the code points 0..255. *)
Definition is_linebreak (c : ascii) : bool :=
  let n := ord c in
  (((10 <=? n) && (n <=? 13)) || ((28 <=? n) && (n <=? 30))
   || (n =? 133))%nat.

(** [splitlines_go acc s]: [acc] holds the characters of the line being
    read, last one first. *)
Fixpoint splitlines_go (acc : string) (s : string) : list string :=
  match s with
  | EmptyString =>
      match acc with EmptyString => [] | _ => [String.rev acc] end
  | String c s' =>
      if Ascii.eqb c CR then
        match s' with
        | String c' s'' =>
            if Ascii.eqb c' LF
            then String.rev acc :: splitlines_go EmptyString s''
            else String.rev acc :: splitlines_go EmptyString s'
        | EmptyString => String.rev acc :: splitlines_go EmptyString s'
        end
      else if is_linebreak c
      then String.rev acc :: splitlines_go EmptyString s'
      else splitlines_go (String c acc) s'
  end.

Definition splitlines (s : string) : list string :=
  splitlines_go EmptyString s.

(** [x in s] for a list or a set of strings given as a list. *)
Definition mem (x : string) (l : list string) : bool :=
  bool_decide (x ∈ l).

(** [str(n)] for a non-negative integer. *)
Definition str_of_nat (n : nat) : string := pretty n.

End Py.

(** ** Exceptions and fallible computations *)

Inductive exn : Type :=
| FileNotFoundError (msg : string)
| ValueError (msg : string)
| AttributeError (msg : string)
| KeyError (key : string)
| ReadError (msg : string).   (* raised inside [read_text] or [yaml.safe_load] *)

Inductive result (A : Type) : Type :=
| Ok (a : A)
| Raise (e : exn).
Arguments Ok {A} a.
Arguments Raise {A} e.

(** [result] is a monad; stdpp's [x ← m; k] sequences two computations and
    passes on the first exception. *)
#[global] Instance result_ret : MRet result := λ A a, Ok a.
#[global] Instance result_bind : MBind result := λ A B k m,
  match m with
  | Ok a => k a
  | Raise e => Raise e
  end.

(** [for x in l: st = body(st, x)], leaving the loop at the first exception. *)
Fixpoint for_each {A St} (l : list A) (body : St → A → result St) (st : St)
  : result St :=
  match l with
  | [] => Ok st
  | x :: l' => st' ← body st x ; for_each l' body st'
  end.

(** The same loop over [enumerate(l, start=n)]. *)
Fixpoint for_enumerate {A St} (n : nat) (l : list A)
    (body : St → nat → A → result St) (st : St) : result St :=
  match l with
  | [] => Ok st
  | x :: l' => st' ← body st n x ; for_enumerate (S n) l' body st'
  end.

(** ** The directive pattern

    [DIRECTIVE_RE] is, with blanks put between its pieces,
      ^  \s*  (?: # | // | -- | ; | /\*+ | \*+ )?  \s*  ( HODOR-[A-Z-]+ )
         \s*  :  \s*  ( .* )  $
    Each piece of the pattern can only be matched in one way that lets the
    rest succeed: what follows a greedy repetition never starts with a
    character the repetition accepts.  The matcher below therefore reads the
    line from left to right, taking each repetition to its full length. *)

Module Re.

Fixpoint span (p : ascii → bool) (s : string) : string * string :=
  match s with
  | String c s' =>
      if p c then let '(a, b) := span p s' in (String c a, b)
      else (EmptyString, s)
  | EmptyString => (EmptyString, EmptyString)
  end.

(** [\*+] after its first star, and [\*+] itself when it is known to start
    with a star. *)
Fixpoint stars (s : string) : string :=
  match s with
  | String "*" s' => stars s'
  | _ => s
  end.

(** [(?:#|//|--|;|/\*+|\*+)?] *)
Definition comment_marker (s : string) : string :=
  match s with
  | String "#" r => r
  | String "/" (String "/" r) => r
  | String "-" (String "-" r) => r
  | String ";" r => r
  | String "/" (String "*" r) => stars r
  | String "*" r => stars r
  | _ => s
  end.

Fixpoint literal (p s : string) : option string :=
  match p, s with
  | EmptyString, _ => Some s
  | String a p', String b s' =>
      if Ascii.eqb a b then literal p' s' else None
  | String _ _, EmptyString => None
  end.

(** [[A-Z-]] *)
Definition upper_or_dash (c : ascii) : bool :=
  let n := Py.ord c in (((65 <=? n) && (n <=? 90)) || (n =? 45))%nat.

(** The last group and the end anchor: [.] is any character but a line
    feed, and [$] is the end of the string or the position before a line feed
    that ends the string. *)
Definition rest_of_line (s : string) : option string :=
  let '(v, tail) := span (λ c, negb (Ascii.eqb c Py.LF)) s in
  match tail with
  | EmptyString => Some v
  | String _ EmptyString => Some v
  | _ => None
  end.

End Re.

(** [DIRECTIVE_RE.match(line)]: groups 1 and 2 of the match, if any. *)
Definition DIRECTIVE_RE (line : string) : option (string * string) :=
  let s := Re.comment_marker (Py.lstrip line) in
  match Re.literal "HODOR-" (Py.lstrip s) with
  | None => None
  | Some s =>
      let '(word, s) := Re.span Re.upper_or_dash s in
      match word, Py.lstrip s with
      | String _ _, String ":" s =>
          match Re.rest_of_line (Py.lstrip s) with
          | Some value => Some ("HODOR-" +:+ word, value)
          | None => None
          end
      | _, _ => None
      end
  end.

(** ** Directive blocks *)

Record block : Type := Block {
  blk_id : option string;
  blk_reqs : list string;
  blk_refs : list string;
  blk_text : list string;
  blk_start_line : nat
}.

Definition split_list (value : string) : list string :=
  List.filter Py.truthy
    (Py.strip <$> Py.split "," (Py.replace ";" "," value)).

Definition new_block (line_no : nat) : block :=
  {| blk_id := None; blk_reqs := []; blk_refs := []; blk_text := [];
     blk_start_line := line_no |}.

(** The [if]/[elif] chain on the directive name; [None] is its [else]
    branch, which raises. *)
Definition apply_directive (directive value : string) (current : block)
  : option block :=
  if bool_decide (directive = "HODOR-ID") then
    Some {| blk_id := Some value; blk_reqs := blk_reqs current;
            blk_refs := blk_refs current; blk_text := blk_text current;
            blk_start_line := blk_start_line current |}
  else if bool_decide (directive = "HODOR-REQS") then
    Some {| blk_id := blk_id current;
            blk_reqs := blk_reqs current ++ split_list value;
            blk_refs := blk_refs current; blk_text := blk_text current;
            blk_start_line := blk_start_line current |}
  else if Py.mem directive ["HODOR-REF"; "HODOR-REFS"] then
    Some {| blk_id := blk_id current; blk_reqs := blk_reqs current;
            blk_refs := blk_refs current ++ split_list value;
            blk_text := blk_text current;
            blk_start_line := blk_start_line current |}
  else if bool_decide (directive = "HODOR-TEXT") then
    Some {| blk_id := blk_id current; blk_reqs := blk_reqs current;
            blk_refs := blk_refs current;
            blk_text := if Py.truthy value then blk_text current ++ [value]
                        else blk_text current;
            blk_start_line := blk_start_line current |}
  else None.

(** The state of the loop of [parse_hodor_blocks]: the closed blocks and the
    open one ([current], [None] when no block is open). *)
Definition scan_state : Type := list block * option block.

(** One iteration of the loop of [parse_hodor_blocks]. *)
Definition parse_line (path_label : string) (st : scan_state)
    (line_no : nat) (line : string) : result scan_state :=
  let '(blocks, current) := st in
  match DIRECTIVE_RE line with
  | Some (g1, g2) =>
      let directive := Py.strip g1 in
      let value := Py.strip g2 in
      let current := default (new_block line_no) current in
      match apply_directive directive value current with
      | Some current => Ok (blocks, Some current)
      | None =>
          Raise (ValueError ("Unknown HODOR directive '" +:+ directive
                   +:+ "' in " +:+ path_label +:+ ":"
                   +:+ Py.str_of_nat line_no))
      end
  | None =>
      match current with
      | Some c => Ok (blocks ++ [c], None)
      | None => Ok (blocks, None)
      end
  end.

Definition parse_hodor_blocks (lines : list string) (path_label : string)
  : result (list block) :=
  '(blocks, current) ← for_enumerate 1 lines (parse_line path_label) ([], None);
  match current with
  | Some c => Ok (blocks ++ [c])
  | None => Ok blocks
  end.

(** ** Item records and the file system

    An item is the dictionary built by [load_items] or
    [load_test_annotations].  The key [refs] is present in the dictionaries
    of the scanner only; [build_payload] adds it to the others. *)

Record item : Type := Item {
  it_id : string;
  it_text : string;
  it_links : list string;
  it_path : string;
  it_refs : option (list string)
}.

(** A document as [yaml.safe_load] returns it.  Mappings are kept as the
    list of their items, keys being distinct; only string keys are kept, since
    the script looks up string keys only.  Floats and dates are left out. *)
Local Unset Elimination Schemes.
Inductive yaml : Type :=
| YNone
| YBool (b : bool)
| YInt (n : Z)
| YStr (s : string)
| YList (l : list yaml)
| YDict (d : list (string * yaml)).
Local Set Elimination Schemes.

(** One path yielded by [dir_path.rglob(ext)], with what the script reads
    from it. *)
Record item_file : Type := ItemFile {
  if_name : string;          (* item_file.name *)
  if_stem : string;          (* item_file.stem *)
  if_str : string;           (* str(item_file) *)
  if_rel : string;           (* str(rel_path) *)
  if_load : result yaml      (* yaml.safe_load(item_file.read_text(..)) *)
}.

(** One path returned by [iter_scan_files(dir_path)]. *)
Record scan_file : Type := ScanFile {
  sf_str : string;           (* str(file_path) *)
  sf_rel : string;           (* str(rel_path) *)
  sf_read : option string    (* file text; None on UnicodeDecodeError *)
}.

(** A directory [(root / rel_dir).resolve()] that exists. *)
Record directory : Type := Directory {
  dir_str : string;                      (* str(dir_path) *)
  dir_rglob : string → list item_file;   (* sorted(dir_path.rglob(ext)) *)
  dir_scan : list scan_file              (* iter_scan_files(dir_path) *)
}.

(** The file system below [root]: what each [rel_dir] resolves to, with
    [inl p] for a path [p] that does not exist. *)
Definition filesystem : Type := string → string + directory.

Definition SKIP_NAMES : list string :=
  [".doorstop.yml"; "doorstop.yml"; ".doorstop.skip"; ".doorstop.skip-all"].

(** Truth value of a YAML value, as [or] and [if] see it. *)
Definition yaml_truthy (v : yaml) : bool :=
  match v with
  | YNone => false
  | YBool b => b
  | YInt n => negb (n =? 0)%Z
  | YStr s => Py.truthy s
  | YList l => Py.nonempty l
  | YDict d => Py.nonempty d
  end.

Fixpoint assoc (key : string) (d : list (string * yaml)) : option yaml :=
  match d with
  | [] => None
  | (k, v) :: d' => if bool_decide (k = key) then Some v else assoc key d'
  end.

(** [data.get(key)]; only a mapping has the method. *)
Definition dict_get (data : yaml) (key : string) : result yaml :=
  match data with
  | YDict d => Ok (default YNone (assoc key d))
  | _ => Raise (AttributeError "get")
  end.

(** ** The references of a declarative test *)

(** The loop of [extract_refs]; returning [refs] is its [break]. *)
Fixpoint extract_refs_loop (lines : list string) (in_refs : bool)
    (refs : list string) : list string :=
  match lines with
  | [] => refs
  | line :: lines =>
      if bool_decide (Py.strip line = "References:") then
        extract_refs_loop lines true refs
      else if in_refs then
        if negb (Py.truthy (Py.strip line)) then refs
        else if Py.startswith "- " (Py.strip line) then
          extract_refs_loop lines in_refs (refs ++ [Py.drop 2 (Py.strip line)])
        else refs
      else extract_refs_loop lines in_refs refs
  end.

Definition extract_refs (text : string) : list string :=
  extract_refs_loop (Py.rstrip <$> Py.splitlines text) false [].

(** ** The payload *)

Record req_record : Type := ReqRecord {
  rq_item : item;
  rq_tests : list string;    (* req["tests"] *)
  rq_status : string         (* req["status"] *)
}.

Record test_record : Type := TestRecord {
  ts_item : item;
  ts_reqs : list string;     (* test["reqs"] *)
  ts_status : string         (* test["status"] *)
}.

Record summary : Type := Summary {
  requirements_total : nat;
  tests_total : nat;
  links_total : nat;
  requirements_linked : nat;
  requirements_unlinked : nat;
  tests_linked : nat;
  tests_unlinked : nat;
  coverage_pct : float
}.

Record payload : Type := Payload {
  generated_at : string;
  source_root : string;
  pl_summary : summary;
  pl_requirements : list req_record;
  pl_tests : list test_record;
  pl_links : list (string * string)
}.

(** ** Floating-point arithmetic

    A Python [float] is an IEEE 754 binary64 number, as is Rocq's primitive
    [float]; [*] and [/] are the primitive operations. *)

(** Conversion of an [int] operand to [float], rounding to nearest, ties to
    even; the counts of the summary are natural numbers. *)
Definition float_of_int (z : Z) : float :=
  SF2Prim (binary_normalize prec emax z 0 false).

Definition float_of_nat (n : nat) : float := float_of_int (Z.of_nat n).

(** [num / den] rounded to the nearest integer, ties to the even one
    ([0 < den]). *)
Definition round_half_even (num den : Z) : Z :=
  let q := (num / den)%Z in
  match (2 * (num mod den) ?= den)%Z with
  | Lt => q
  | Gt => (q + 1)%Z
  | Eq => if Z.even q then q else (q + 1)%Z
  end.

(** The number of tenths nearest to the binary fraction [m * 2^e]. *)
Definition nearest_tenths (m : positive) (e : Z) : Z :=
  if (0 <=? e)%Z then (Z.pos m * 10 * 2 ^ e)%Z
  else round_half_even (Z.pos m * 10) (2 ^ (- e)).

(** [round(x, 1)].  CPython prints the exact value of [x] with one digit
    after the point, correctly rounded with ties to even, and reads the
    decimal back as the nearest float.  From [2 ^ 53] tenths on, floats are
    at least an eighth apart and [x] itself is the nearest float. *)
Definition py_round1 (x : float) : float :=
  match Prim2SF x with
  | S754_finite s m e =>
      let n := nearest_tenths m e in
      if (n <? 2 ^ 53)%Z then
        let r := (float_of_int n / float_of_int 10)%float in
        if s then (- r)%float else r
      else x
  | _ => x
  end.

(** The literals [100.0] and [0.0]. *)
Definition hundred : float := Eval vm_compute in float_of_nat 100.
Definition zero_float : float := PrimFloat.zero.

(** ** The loaders and [build_payload]

    Two things come from outside the script: [str()] of a YAML value that is
    not a string, and the clock read for [generated_at]. *)

Section Script.

Variable str_other : yaml → string.
Variable utc_now : string.

(** [str(v)] *)
Definition str (v : yaml) : string :=
  match v with
  | YStr s => s
  | _ => str_other v
  end.

(** The state of the loops of [load_items] and [load_test_annotations]:
    [items] and [seen]. *)
Definition load_state : Type := list item * gset string.

(** The body of the innermost loop of [load_items]. *)
Definition load_item (st : load_state) (item_file : item_file)
  : result load_state :=
  let '(items, seen) := st in
  if Py.mem (if_name item_file) SKIP_NAMES then Ok st else
  loaded ← if_load item_file;
  let data := if yaml_truthy loaded then loaded else YDict [] in
  uid_field ← dict_get data "uid";
  let uid :=
    if yaml_truthy uid_field then str uid_field else if_stem item_file in
  if bool_decide (uid ∈ seen) then
    Raise (ValueError ("Duplicate item id '" +:+ uid +:+ "' in "
                       +:+ if_str item_file))
  else
    let seen := seen ∪ {[uid]} in
    text_field ← dict_get data "text";
    title_field ← dict_get data "title";
    let text :=
      if yaml_truthy text_field then str text_field
      else if yaml_truthy title_field then str title_field
      else EmptyString in
    links_field ← dict_get data "links";
    let links :=
      if yaml_truthy links_field then
        match links_field with
        | YStr s => [YStr s]
        | YList l => l
        | _ => []
        end
      else [] in
    Ok (items ++ [ {| it_id := uid;
                      it_text := Py.rstrip text;
                      it_links := str <$> links;
                      it_path := if_rel item_file;
                      it_refs := None |} ],
        seen).

Definition load_items (fs : filesystem) (rel_dirs : list string)
    (label : string) : result (list item) :=
  '(items, _) ←
    for_each rel_dirs (λ st rel_dir,
      match fs rel_dir with
      | inl dir_path =>
          Raise (FileNotFoundError
                   (label +:+ " directory not found: " +:+ dir_path))
      | inr dir_path =>
          for_each ["*.yml"; "*.yaml"] (λ st ext,
            for_each (dir_rglob dir_path ext) load_item st) st
      end) ([], ∅);
  Ok items.

(** [block["id"] or f"{rel_label}#L{block['start_line']}"] *)
Definition effective_id (rel_label : string) (b : block) : string :=
  match blk_id b with
  | Some i => if Py.truthy i then i
              else rel_label +:+ "#L" +:+ Py.str_of_nat (blk_start_line b)
  | None => rel_label +:+ "#L" +:+ Py.str_of_nat (blk_start_line b)
  end.

(** The body of the loop over the blocks of one file. *)
Definition load_block (rel_label : string) (st : load_state) (b : block)
  : result load_state :=
  let '(items, seen) := st in
  let reqs := blk_reqs b in
  if negb (Py.nonempty reqs) then
    Raise (ValueError ("Missing HODOR-REQS in " +:+ rel_label +:+ ":"
                       +:+ Py.str_of_nat (blk_start_line b)))
  else
    let test_id := effective_id rel_label b in
    if bool_decide (test_id ∈ seen) then
      Raise (ValueError ("Duplicate test id '" +:+ test_id +:+ "' in "
                         +:+ rel_label))
    else
      let seen := seen ∪ {[test_id]} in
      let text := Py.strip (Py.join (String Py.LF EmptyString) (blk_text b)) in
      let text :=
        if negb (Py.truthy text) then "Traceability marker in " +:+ rel_label
        else text in
      Ok (items ++ [ {| it_id := test_id;
                        it_text := text;
                        it_links := reqs;
                        it_path := rel_label;
                        it_refs := Some (blk_refs b) |} ],
          seen).

(** The body of the loop over the files of one scan directory. *)
Definition load_scan_file (st : load_state) (file_path : scan_file)
  : result load_state :=
  match sf_read file_path with
  | None => Ok st
  | Some content =>
      blocks ← parse_hodor_blocks (Py.splitlines content) (sf_str file_path);
      if negb (Py.nonempty blocks) then Ok st
      else for_each blocks (load_block (sf_rel file_path)) st
  end.

Definition load_test_annotations (fs : filesystem) (rel_dirs : list string)
  : result (list item) :=
  '(items, _) ←
    for_each rel_dirs (λ st rel_dir,
      match fs rel_dir with
      | inl dir_path =>
          Raise (FileNotFoundError
                   ("Test scan directory not found: " +:+ dir_path))
      | inr dir_path => for_each (dir_scan dir_path) load_scan_file st
      end) ([], ∅);
  Ok items.

(** [{x["id"]: x for x in items}] *)
Definition id_map (items : list item) : gmap string item :=
  fold_left (λ m x, <[it_id x := x]> m) items ∅.

(** [key in m] *)
Definition has_key {V} (m : gmap string V) (key : string) : bool :=
  bool_decide (is_Some (m !! key)).

(** [if "refs" not in test: test["refs"] = extract_refs(test["text"])] *)
Definition with_refs (test : item) : item :=
  match it_refs test with
  | Some _ => test
  | None =>
      {| it_id := it_id test; it_text := it_text test;
         it_links := it_links test; it_path := it_path test;
         it_refs := Some (extract_refs (it_text test)) |}
  end.

(** The body of the loop that checks the test ids and fills in [refs]; the
    state is [seen_test_ids] and the tests already visited. *)
Definition check_test (st : gset string * list item) (test : item)
  : result (gset string * list item) :=
  let '(seen_test_ids, visited) := st in
  let test_id := it_id test in
  if bool_decide (test_id ∈ seen_test_ids) then
    Raise (ValueError ("Duplicate test id '" +:+ test_id +:+ "'"))
  else
    let seen_test_ids := seen_test_ids ∪ {[test_id]} in
    Ok (seen_test_ids, visited ++ [with_refs test]).

(** The two loops that fill [link_set]. *)
Definition collect_links (reqs tests : list item)
    (req_map test_map : gmap string item) : gset (string * string) :=
  let link_set :=
    fold_left (λ link_set test,
      fold_left (λ link_set req_id,
        if has_key req_map req_id
        then link_set ∪ {[ (req_id, it_id test) ]}
        else link_set) (it_links test) link_set) tests ∅ in
  fold_left (λ link_set req,
    fold_left (λ link_set test_id,
      if has_key test_map test_id
      then link_set ∪ {[ (it_id req, test_id) ]}
      else link_set) (it_links req) link_set) reqs link_set.

(** Order of tuples of two strings and of strings, as [sorted] uses them. *)
Definition link_leb (p q : string * string) : bool :=
  if String.eqb p.1 q.1 then String.leb p.2 q.2 else String.ltb p.1 q.1.

Definition sorted_links (link_set : gset (string * string))
  : list (string * string) :=
  merge_sort (λ p q, Is_true (link_leb p q)) (elements link_set).

Definition sorted_strings (l : list string) : list string :=
  merge_sort String.le l.

(** [m[key].append(x)] *)
Definition append_at (m : gmap string (list string)) (key x : string)
  : result (gmap string (list string)) :=
  match m !! key with
  | Some l => Ok (<[key := l ++ [x]]> m)
  | None => Raise (KeyError key)
  end.

(** The loop over [sorted(link_set)] that fills [req_to_tests] and
    [test_to_reqs]. *)
Definition index_links (req_map test_map : gmap string item)
    (links : list (string * string))
  : result (gmap string (list string) * gmap string (list string)) :=
  for_each links (λ '(req_to_tests, test_to_reqs) '(req_id, test_id),
    req_to_tests ← append_at req_to_tests req_id test_id;
    test_to_reqs ← append_at test_to_reqs test_id req_id;
    Ok (req_to_tests, test_to_reqs))
    ((λ _, []) <$> req_map, (λ _, []) <$> test_map).

Definition status_of (l : list string) : string :=
  if Py.nonempty l then "linked" else "unlinked".

Definition resolve_req (req_to_tests : gmap string (list string))
    (req : item) : req_record :=
  let tests := sorted_strings (default [] (req_to_tests !! it_id req)) in
  {| rq_item := req; rq_tests := tests; rq_status := status_of tests |}.

Definition resolve_test (test_to_reqs : gmap string (list string))
    (test : item) : test_record :=
  let reqs := sorted_strings (default [] (test_to_reqs !! it_id test)) in
  {| ts_item := test; ts_reqs := reqs; ts_status := status_of reqs |}.

(** [sum(1 for x in l if p(x))] *)
Definition sum_1_for {A} (p : A → bool) (l : list A) : nat :=
  fold_left (λ acc x, if p x then acc + 1 else acc) l 0.

Definition summarise (reqs : list req_record) (tests : list test_record)
    (link_set : gset (string * string)) : summary :=
  let total := length reqs in
  let linked := sum_1_for (λ r, Py.nonempty (rq_tests r)) reqs in
  {| requirements_total := total;
     tests_total := length tests;
     links_total := size link_set;
     requirements_linked := linked;
     requirements_unlinked :=
       sum_1_for (λ r, negb (Py.nonempty (rq_tests r))) reqs;
     tests_linked := sum_1_for (λ t, Py.nonempty (ts_reqs t)) tests;
     tests_unlinked :=
       sum_1_for (λ t, negb (Py.nonempty (ts_reqs t))) tests;
     coverage_pct :=
       if (0 <? total)%nat
       then py_round1 (hundred * float_of_nat linked / float_of_nat total)
       else zero_float |}.

(** The part of [build_payload] that follows the loading: from
    [req_map = ...] to the returned dictionary. *)
Definition resolve (reqs tests : list item) (display_root : string)
  : result payload :=
  let req_map := id_map reqs in
  let test_map := id_map tests in
  '(_, tests) ← for_each tests check_test (∅, []);
  let link_set := collect_links reqs tests req_map test_map in
  '(req_to_tests, test_to_reqs) ←
    index_links req_map test_map (sorted_links link_set);
  let reqs := resolve_req req_to_tests <$> reqs in
  let tests := resolve_test test_to_reqs <$> tests in
  Ok {| generated_at := utc_now;
        source_root := display_root;
        pl_summary := summarise reqs tests link_set;
        pl_requirements := reqs;
        pl_tests := tests;
        pl_links := sorted_links link_set |}.

Definition build_payload (fs : filesystem)
    (req_dirs test_item_dirs test_scan_dirs : list string)
    (display_root : string) : result payload :=
  reqs ← load_items fs req_dirs "Requirement";
  item_tests ←
    (if Py.nonempty test_item_dirs
     then load_items fs test_item_dirs "Test" else Ok []);
  scan_tests ←
    (if Py.nonempty test_scan_dirs
     then load_test_annotations fs test_scan_dirs else Ok []);
  resolve reqs (item_tests ++ scan_tests) display_root.

End Script.

(** ** Definitions taken from the specification *)

(** *** Block segmentation as a two-state machine

    State [Idle]: no block is open.  State [Collecting b]: block [b] is open.
    [seg_step s n line s' out] reads line number [n] in state [s], moves to
    [s'] and emits the blocks [out]. *)

Inductive seg_state : Type :=
| Idle
| Collecting (b : block).

Inductive seg_step : seg_state → nat → string → seg_state → list block → Prop :=
| seg_open n line d v b :
    DIRECTIVE_RE line = Some (d, v) →
    apply_directive (Py.strip d) (Py.strip v) (new_block n) = Some b →
    seg_step Idle n line (Collecting b) []
| seg_update c n line d v b :
    DIRECTIVE_RE line = Some (d, v) →
    apply_directive (Py.strip d) (Py.strip v) c = Some b →
    seg_step (Collecting c) n line (Collecting b) []
| seg_close c n line :
    DIRECTIVE_RE line = None →
    seg_step (Collecting c) n line Idle [c]
| seg_skip n line :
    DIRECTIVE_RE line = None →
    seg_step Idle n line Idle [].

(** [seg_run s n lines out]: started in state [s] on the lines numbered from
    [n], the machine emits [out], the block still open at the end included. *)
Inductive seg_run : seg_state → nat → list string → list block → Prop :=
| seg_eof_idle n : seg_run Idle n [] []
| seg_eof_open c n : seg_run (Collecting c) n [] [c]
| seg_next s n line s' out lines outs :
    seg_step s n line s' out →
    seg_run s' (S n) lines outs →
    seg_run s n (line :: lines) (out ++ outs).

(** A line is a known directive line when the pattern matches it and the
    directive is one of the recognised ones. *)
Definition known_directive_or_text (line : string) : bool :=
  match DIRECTIVE_RE line with
  | Some (d, v) =>
      bool_decide (is_Some
        (apply_directive (Py.strip d) (Py.strip v) (new_block 0)))
  | None => true
  end.

(** *** Synthesized test ids *)

Definition has_explicit_id (b : block) : bool :=
  match blk_id b with
  | Some i => Py.truthy i
  | None => false
  end.

Definition synthesized_id (rel_label : string) (start_line : nat) : string :=
  rel_label +:+ "#L" +:+ Py.str_of_nat start_line.

(** *** The references list *)

Definition is_refs_header (line : string) : bool :=
  bool_decide (Py.strip line = "References:").

Definition is_refs_entry (line : string) : bool :=
  Py.startswith "- " (Py.strip line).

Fixpoint take_while {A} (p : A → bool) (l : list A) : list A :=
  match l with
  | x :: l' => if p x then x :: take_while p l' else []
  | [] => []
  end.

Fixpoint drop_while {A} (p : A → bool) (l : list A) : list A :=
  match l with
  | x :: l' => if p x then drop_while p l' else l
  | [] => []
  end.

(** The lines after the first header line. *)
Definition after_header (lines : list string) : list string :=
  List.tl (drop_while (λ line, negb (is_refs_header line)) lines).

(** The list as the specification words it: the entries that follow the
    header, up to the first line that is not an entry. *)
Definition refs_as_specified (lines : list string) : list string :=
  (λ line, Py.drop 2 (Py.strip line))
    <$> take_while is_refs_entry (after_header lines).

(** The list with further header lines passed over. *)
Definition refs_skipping_headers (lines : list string) : list string :=
  (λ line, Py.drop 2 (Py.strip line))
    <$> take_while is_refs_entry
          (List.filter (λ line, negb (is_refs_header line))
             (after_header lines)).

(** *** Rounding to one decimal place *)

(** [n] is the integer nearest to [num / den], the even one at a tie
    ([0 < den]). *)
Definition nearest_even (num den n : Z) : Prop :=
  (Z.abs (2 * num - 2 * n * den) ≤ den)%Z
  ∧ (Z.abs (2 * num - 2 * n * den) = den → Z.even n = true).

(** [n] tenths are the decimal with one digit after the point that is
    nearest to the binary fraction [m * 2^e], ties to the even digit. *)
Definition tenths_of (m : positive) (e : Z) (n : Z) : Prop :=
  nearest_even (Z.pos m * 10 * 2 ^ Z.max e 0) (2 ^ Z.max (- e) 0) n.

(** The conversion of a count to a float by the primitive operation. *)
Definition count_to_float (n : Z) : float :=
  PrimFloat.of_uint63 (Uint63.of_Z n).

(** *** Identifiers of records *)

Definition ids (items : list item) : list string := it_id <$> items.

Definition req_ids (p : payload) : list string :=
  (λ r, it_id (rq_item r)) <$> pl_requirements p.

Definition test_ids (p : payload) : list string :=
  (λ t, it_id (ts_item t)) <$> pl_tests p.

(** What [load_item] takes as the id of a file. *)
Definition file_uid (str_other : yaml → string) (f : item_file)
  : result string :=
  loaded ← if_load f;
  uid_field ← dict_get (if yaml_truthy loaded then loaded else YDict []) "uid";
  Ok (if yaml_truthy uid_field then str str_other uid_field else if_stem f).

(** The link set that [resolve] builds from the loaded records. *)
Definition link_set_of (reqs tests : list item) : gset (string * string) :=
  collect_links reqs (with_refs <$> tests) (id_map reqs) (id_map tests).

(** *** Correspondence between the loop state and the machine state *)

Definition state_of (current : option block) : seg_state :=
  match current with
  | Some c => Collecting c
  | None => Idle
  end.

Definition current_of (s : seg_state) : option block :=
  match s with
  | Collecting c => Some c
  | Idle => None
  end.

(** What the end of the input appends to the closed blocks. *)
Definition closing (current : option block) : list block :=
  match current with
  | Some c => [c]
  | None => []
  end.

(** *** Predicates on strings and loader states *)

Fixpoint all_chars (p : ascii → bool) (s : string) : bool :=
  match s with
  | String c s' => p c && all_chars p s'
  | EmptyString => true
  end.

Definition is_digit (c : ascii) : bool :=
  let n := Py.ord c in ((48 <=? n) && (n <=? 57))%nat.

(** What the loops of the two loaders keep true of [items] and [seen]. *)
Definition loaded_ok (Q : item → Prop) (st : load_state) : Prop :=
  NoDup (ids st.1) ∧ (∀ x, x ∈ ids st.1 → x ∈ st.2) ∧ Forall Q st.1.

(** A record as the scanner builds it. *)
Definition scanned (t : item) : Prop :=
  it_links t ≠ [] ∧ is_Some (it_refs t).

(** The item files that [load_items] visits, in order, when every directory
    exists, and those among them that it does not skip. *)
Definition visited_files (fs : filesystem) (rel_dirs : list string)
  : list item_file :=
  rel_dirs ≫= λ rel_dir,
    match fs rel_dir with
    | inl _ => []
    | inr d => dir_rglob d "*.yml" ++ dir_rglob d "*.yaml"
    end.

Definition kept (f : item_file) : bool :=
  negb (Py.mem (if_name f) SKIP_NAMES).

Definition exists_dir (fs : filesystem) (rel_dir : string) : bool :=
  match fs rel_dir with inl _ => false | inr _ => true end.

(** ** Example inputs

    The end-to-end example of the specification, and small inputs on which
    the statements below are exercised. *)

Module Examples.

Definition nl : string := String Py.LF EmptyString.

(** [str()] of the scalars; other values do not occur in the examples. *)
Definition str_scalar (v : yaml) : string :=
  match v with
  | YNone => "None"
  | YBool true => "True"
  | YBool false => "False"
  | YInt n => pretty n
  | _ => EmptyString
  end.

Definition yml (dir name stem : string) (doc : yaml) : item_file :=
  {| if_name := name; if_stem := stem;
     if_str := "/repo/" +:+ dir +:+ "/" +:+ name;
     if_rel := dir +:+ "/" +:+ name;
     if_load := Ok doc |}.

Definition only_yml (files : list item_file) (ext : string)
  : list item_file :=
  if bool_decide (ext = "*.yml") then files else [].

Definition a_go : scan_file :=
  {| sf_str := "/repo/src/a.go"; sf_rel := "src/a.go";
     sf_read := Some ("package a" +:+ nl +:+
                      "// HODOR-ID: T9" +:+ nl +:+
                      "// HODOR-REQS: R2" +:+ nl +:+
                      "func TestA() {}" +:+ nl) |}.

(** Requirements [R1] (no links) and [R2] (links to [T9] and to a test
    that does not exist yet), the declarative test [T1] for [R1], and an
    annotated source file whose block is test [T9] for [R2]. *)
Definition fs : filesystem := λ rel_dir,
  if bool_decide (rel_dir = "reqs/mon") then
    inr {| dir_str := "/repo/reqs/mon";
           dir_rglob := only_yml
             [ yml "reqs/mon" "R1.yml" "R1" (YDict [("text", YStr "First")]);
               yml "reqs/mon" "R2.yml" "R2"
                 (YDict [("links", YList [YStr "T9"; YStr "T-later"])]) ];
           dir_scan := [] |}
  else if bool_decide (rel_dir = "reqs/tst") then
    inr {| dir_str := "/repo/reqs/tst";
           dir_rglob := only_yml
             [ yml "reqs/tst" "T1.yml" "T1" (YDict [("links", YStr "R1")]) ];
           dir_scan := [] |}
  else if bool_decide (rel_dir = "src") then
    inr {| dir_str := "/repo/src"; dir_rglob := λ _, [];
           dir_scan := [a_go] |}
  else inl ("/repo/" +:+ rel_dir).

Definition R1 : item :=
  {| it_id := "R1"; it_text := "First"; it_links := [];
     it_path := "reqs/mon/R1.yml"; it_refs := None |}.

Definition R2 : item :=
  {| it_id := "R2"; it_text := EmptyString; it_links := ["T9"; "T-later"];
     it_path := "reqs/mon/R2.yml"; it_refs := None |}.

Definition T1 : item :=
  {| it_id := "T1"; it_text := EmptyString; it_links := ["R1"];
     it_path := "reqs/tst/T1.yml"; it_refs := None |}.

Definition T9 : item :=
  {| it_id := "T9"; it_text := "Traceability marker in src/a.go";
     it_links := ["R2"]; it_path := "src/a.go"; it_refs := Some [] |}.

Definition reqs : list item := [R1; R2].
Definition item_tests : list item := [T1].
Definition scan_tests : list item := [T9].
Definition tests : list item := item_tests ++ scan_tests.

Definition empty_payload : payload :=
  {| generated_at := EmptyString; source_root := EmptyString;
     pl_summary := summarise [] [] ∅;
     pl_requirements := []; pl_tests := []; pl_links := [] |}.

Definition the_payload : payload :=
  Eval vm_compute in
    match resolve "2026-01-01 00:00:00Z" reqs tests "." with
    | Ok p => p
    | Raise _ => empty_payload
    end.

(** A declarative test without links. *)
Definition fs_unlinked : filesystem := λ rel_dir,
  if bool_decide (rel_dir = "reqs/mon") then
    inr {| dir_str := "/repo/reqs/mon";
           dir_rglob := only_yml
             [ yml "reqs/mon" "R1.yml" "R1" (YDict [("text", YStr "First")]) ];
           dir_scan := [] |}
  else if bool_decide (rel_dir = "reqs/tst") then
    inr {| dir_str := "/repo/reqs/tst";
           dir_rglob := only_yml
             [ yml "reqs/tst" "T1.yml" "T1" (YDict [("text", YStr "Alone")]) ];
           dir_scan := [] |}
  else inl ("/repo/" +:+ rel_dir).

(** Two requirement files that declare the same uid. *)
Definition first_file : item_file :=
  yml "reqs/mon/a" "one.yml" "one" (YDict [("uid", YStr "R1")]).
Definition second_file : item_file :=
  yml "reqs/mon/b" "two.yml" "two" (YDict [("uid", YStr "R1")]).

Definition mon_dir : directory :=
  {| dir_str := "/repo/reqs/mon";
     dir_rglob := only_yml [first_file; second_file];
     dir_scan := [] |}.

Definition fs_duplicate : filesystem := λ rel_dir,
  if bool_decide (rel_dir = "reqs/mon") then inr mon_dir
  else inl ("/repo/" +:+ rel_dir).

(** A text whose references list holds a second header line. *)
Definition text_two_headers : string :=
  "References:" +:+ nl +:+ "- a" +:+ nl +:+
  "References:" +:+ nl +:+ "- b".

Definition lines_one_block : list string :=
  ["package a"; "// HODOR-ID: T9"; "// HODOR-REQS: R2"; "func TestA() {}"].

Definition block_T9 : block :=
  {| blk_id := Some "T9"; blk_reqs := ["R2"]; blk_refs := [];
     blk_text := []; blk_start_line := 2 |}.

Definition block_unnamed (line : nat) : block :=
  {| blk_id := None; blk_reqs := ["R1"]; blk_refs := [];
     blk_text := []; blk_start_line := line |}.

(** One requirement in three is covered. *)
Definition R3 : item :=
  {| it_id := "R3"; it_text := "Third"; it_links := [];
     it_path := "reqs/mon/R3.yml"; it_refs := None |}.

Definition third_payload : payload :=
  Eval vm_compute in
    match resolve "2026-01-01 00:00:00Z" [R1; R2; R3] [T1] "." with
    | Ok p => p
    | Raise _ => empty_payload
    end.

End Examples.

(** ** Further definitions *)

(** A character that separates the entries of a value list. *)
Definition is_list_separator (c : ascii) : bool :=
  Ascii.eqb c "," || Ascii.eqb c ";".

(** An entry of a value list: not empty, without white space around it and
    without a separator in it. *)
Definition list_entry (x : string) : Prop :=
  x ≠ EmptyString ∧ Py.strip x = x
  ∧ all_chars (λ c, negb (is_list_separator c)) x = true.

(** [n + 1] stars. *)
Fixpoint star_run (n : nat) : string :=
  match n with
  | 0 => "*"
  | S n => String "*" (star_run n)
  end.

(** The comment markers that the directive pattern accepts before a
    directive. *)
Inductive comment_marker : string → Prop :=
| marker_hash : comment_marker "#"
| marker_slashes : comment_marker "//"
| marker_dashes : comment_marker "--"
| marker_semicolon : comment_marker ";"
| marker_block n : comment_marker (String "/" (star_run n))
| marker_stars n : comment_marker (star_run n).

Definition is_directive_line (line : string) : bool :=
  match DIRECTIVE_RE line with Some _ => true | None => false end.

(** The stripped values of the lines whose directive is one of [names]. *)
Definition directive_values (names : list string) (lines : list string)
  : list string :=
  omap (λ line,
    match DIRECTIVE_RE line with
    | Some (d, v) =>
        if Py.mem (Py.strip d) names then Some (Py.strip v) else None
    | None => None
    end) lines.

(** The block [c] after the directive lines [lines]. *)
Definition extend_block (c : block) (lines : list string) : block :=
  {| blk_id := match last (directive_values ["HODOR-ID"] lines) with
               | Some i => Some i
               | None => blk_id c
               end;
     blk_reqs := blk_reqs c
       ++ concat (split_list <$> directive_values ["HODOR-REQS"] lines);
     blk_refs := blk_refs c
       ++ concat (split_list
                    <$> directive_values ["HODOR-REF"; "HODOR-REFS"] lines);
     blk_text := blk_text c
       ++ List.filter Py.truthy (directive_values ["HODOR-TEXT"] lines);
     blk_start_line := blk_start_line c |}.

(** What holds of the start line of a block of [lines]: it is the number of
    a directive line that is the first line or follows a line that is not a
    directive. *)
Definition starts_run (lines : list string) (b : block) : Prop :=
  ∃ i line,
    blk_start_line b = S i
    ∧ lines !! i = Some line ∧ is_directive_line line = true
    ∧ (i = 0 ∨ ∃ prev, lines !! (i - 1) = Some prev
                      ∧ is_directive_line prev = false).

Module ScanExamples.

(** A source file without a directive. *)
Definition b_go : scan_file :=
  {| sf_str := "/repo/src/b.go"; sf_rel := "src/b.go";
     sf_read := Some ("package b" +:+ Examples.nl +:+
                      "func B() {}" +:+ Examples.nl) |}.

(** Two blocks without an id, apart by one blank line. *)
Definition lines_two_blocks : list string :=
  ["# HODOR-REQS: R1"; EmptyString; "# HODOR-REQS: R1"].

End ScanExamples.

(** What the machine state knows of the lines read so far. *)
Definition state_inv (all pre : list string) (s : seg_state) : Prop :=
  match s with
  | Idle => pre = [] ∨ ∃ prev, last pre = Some prev
                               ∧ is_directive_line prev = false
  | Collecting c => starts_run all c ∧ (blk_start_line c ≤ length pre)%nat
  end.

Definition lower_start (s : seg_state) (n : nat) : nat :=
  match s with
  | Idle => n
  | Collecting c => blk_start_line c
  end.

(** Evaluates the membership tests on closed lists of names. *)
Ltac eval_mem :=
  repeat match goal with
  | |- context [bool_decide (?x ∈ ?l)] =>
      let b := eval vm_compute in (bool_decide (x ∈ l)) in
      change (bool_decide (x ∈ l)) with b
  end.

(** A stored directive value: what [strip] returns. *)
Definition stripped (x : string) : Prop := Py.strip x = x.

(** What holds of every block that the parser builds. *)
Definition well_formed_block (b : block) : Prop :=
  Forall list_entry (blk_reqs b)
  ∧ Forall list_entry (blk_refs b)
  ∧ Forall (λ t, t ≠ EmptyString ∧ stripped t) (blk_text b)
  ∧ (∀ i, blk_id b = Some i → stripped i).

(** What holds of every record that the scanner builds. *)
Definition well_formed_scan (t : item) : Prop :=
  it_id t ≠ EmptyString
  ∧ it_text t ≠ EmptyString
  ∧ it_links t ≠ []
  ∧ Forall list_entry (it_links t)
  ∧ ∃ refs, it_refs t = Some refs ∧ Forall list_entry refs.

(** What ties a loaded record to the item file it comes from. *)
Definition loaded_from (str_other : yaml → string) (f : item_file) (t : item)
  : Prop :=
  file_uid str_other f = Ok (it_id t)
  ∧ it_path t = if_rel f
  ∧ Py.rstrip (it_text t) = it_text t
  ∧ it_refs t = None.

(** The order of [sorted] on the links. *)
Definition link_le (p q : string * string) : Prop := Is_true (link_leb p q).

(** ** The directory walk of the scanner

    What [os.walk] sees below a directory: the names of the entries that are
    not directories and the sub-directories, each in the order of the
    directory listing.  A sub-directory that is a symbolic link or that
    cannot be listed is walked as a directory without entries: [os.walk]
    follows no links and, without [onerror], ignores the error of a
    listing. *)
Local Unset Elimination Schemes.
Inductive tree : Type :=
| Dir (names : list string) (dirs : list (string * tree)).
Local Set Elimination Schemes.

(** The induction principle of [tree], with the hypothesis for every
    sub-directory. *)
Section TreeInd.
Context (P : tree → Prop).
Context (HDir : ∀ names dirs, Forall (λ d, P d.2) dirs → P (Dir names dirs)).

Definition tree_ind' : ∀ t, P t :=
  fix go t :=
    match t with
    | Dir names dirs =>
        HDir names dirs
          ((fix all (l : list (string * tree)) : Forall (λ d, P d.2) l :=
              match l with
              | [] => List.Forall_nil _
              | d :: l' => List.Forall_cons _ d l' (go d.2) (all l')
              end) dirs)
    end.
End TreeInd.

Definition SCAN_SKIP_DIRS : list string :=
  [ ".git"; ".venv"; "__pycache__"; ".mypy_cache"; ".pytest_cache";
    ".ruff_cache"; "node_modules"; "dist"; "build" ].

(** A [Path], as its parts. *)
Definition path : Type := list string.

(** [d for d in dirs if d not in SCAN_SKIP_DIRS] *)
Definition kept_dir {A} (d : string * A) : bool :=
  negb (Py.mem d.1 SCAN_SKIP_DIRS).

(** [sorted(...)] of the directory names, each with what it stands for. *)
Definition sorted_dirs {A} (dirs : list (string * A)) : list (string * A) :=
  merge_sort (λ p q, String.le p.1 q.1) dirs.

(** [iter_scan_files]: the files of [root] in the order of their names, then
    the walk of each sub-directory that is kept, in the order of their names.
    The walk of a sub-directory is written before the names are filtered and
    sorted, which leaves the result as it is and makes the recursion
    structural. *)
Fixpoint iter_scan_files (root : path) (t : tree) : list path :=
  match t with
  | Dir names dirs =>
      let walked :=
        map (λ d : string * tree,
               (d.1, iter_scan_files (root ++ [d.1]) d.2)) dirs in
      ((λ name, root ++ [name]) <$> sorted_strings names)
      ++ concat (snd <$> sorted_dirs (List.filter kept_dir walked))
  end.

(** [name] is a file of the directory reached from [t] through [ds]. *)
Inductive file_at : tree → list string → string → Prop :=
| file_here names dirs name :
    name ∈ names → file_at (Dir names dirs) [] name
| file_below names dirs d sub ds name :
    (d, sub) ∈ dirs → file_at sub ds name →
    file_at (Dir names dirs) (d :: ds) name.

(** ** The data of the page

    [main]: [json.dumps(payload, ensure_ascii=True).replace("</", "<\\/")].
    [replace_str] is [str.replace] for any [old]; [skip] counts the characters
    of a replaced occurrence that are still to be passed. *)
Module PyStr.

Fixpoint replace_go (old new : string) (s : string) (skip : nat) : string :=
  match s with
  | EmptyString => EmptyString
  | String c r =>
      match skip with
      | S k => replace_go old new r k
      | O =>
          if Py.startswith old s
          then new +:+ replace_go old new r (String.length old - 1)
          else String c (replace_go old new r 0)
      end
  end.

(** With an empty [old], [new] goes before every character and at the end. *)
Fixpoint interleave (new : string) (s : string) : string :=
  match s with
  | EmptyString => new
  | String c r => new +:+ String c (interleave new r)
  end.

Definition replace_str (old new : string) (s : string) : string :=
  match old with
  | EmptyString => interleave new s
  | _ => replace_go old new s 0
  end.

End PyStr.

Definition escape_data_json (dumped : string) : string :=
  PyStr.replace_str "</" "<\/" dumped.

Module MoreExamples.

Definition scan_tree : tree :=
  Dir ["b.py"; "a.py"]
    [ ("node_modules", Dir ["x.js"] []);
      ("pkg", Dir ["t.py"] [ ("build", Dir ["gen.py"] []) ]) ].

End MoreExamples.

(** *** The blocks of a scan

    The blocks that the scanner meets, each with the relative path of its
    file, in the order of the scan: those of every file of every directory.
    The list is there when every directory exists and every file that can be
    read parses. *)
Definition file_blocks (f : scan_file) : result (list (string * block)) :=
  match sf_read f with
  | None => Ok []
  | Some content =>
      parse_hodor_blocks (Py.splitlines content) (sf_str f)
      ≫= λ blocks : list block, Ok ((λ b, (sf_rel f, b)) <$> blocks)
  end.

Definition collect_file (acc : list (string * block)) (f : scan_file)
  : result (list (string * block)) :=
  bs ← file_blocks f; Ok (acc ++ bs).

Definition scanned_blocks (fs : filesystem) (rel_dirs : list string)
  : result (list (string * block)) :=
  for_each rel_dirs (λ acc rel_dir,
    match fs rel_dir with
    | inl dir_path =>
        Raise (FileNotFoundError
                 ("Test scan directory not found: " +:+ dir_path))
    | inr dir_path => for_each (dir_scan dir_path) collect_file acc
    end) [].

(** The loop body of the scanner on a block with its path, and the id and
    the links that the block claims. *)
Definition load_scanned (st : load_state) (rb : string * block)
  : result load_state :=
  load_block rb.1 st rb.2.

Definition scanned_id (rb : string * block) : string :=
  effective_id rb.1 rb.2.

Definition scanned_reqs (rb : string * block) : list string := blk_reqs rb.2.

(** [seen] holds the ids of [items]. *)
Definition seen_ids (st : load_state) : Prop :=
  ∀ x, x ∈ st.2 ↔ x ∈ ids st.1.
Module RunExamples.

(** The example file system with other files in the scan directory. *)
Definition fs_with_src (files : list scan_file) : filesystem := λ rel_dir,
  if bool_decide (rel_dir = "src") then
    inr {| dir_str := "/repo/src"; dir_rglob := λ _, [];
           dir_scan := files |}
  else Examples.fs rel_dir.

(** A file whose block has no requirement references. *)
Definition c_go : scan_file :=
  {| sf_str := "/repo/src/c.go"; sf_rel := "src/c.go";
     sf_read := Some ("// HODOR-ID: T5" +:+ Examples.nl +:+
                      "func TestC() {}" +:+ Examples.nl) |}.

Definition block_T5 : block :=
  {| blk_id := Some "T5"; blk_reqs := []; blk_refs := [];
     blk_text := []; blk_start_line := 1 |}.

(** A file whose block claims the id of the block of [Examples.a_go]. *)
Definition d_go : scan_file :=
  {| sf_str := "/repo/src/d.go"; sf_rel := "src/d.go";
     sf_read := Some ("package d" +:+ Examples.nl +:+
                      "// HODOR-ID: T9" +:+ Examples.nl +:+
                      "// HODOR-REQS: R1" +:+ Examples.nl) |}.

Definition block_T9_again : block :=
  {| blk_id := Some "T9"; blk_reqs := ["R1"]; blk_refs := [];
     blk_text := []; blk_start_line := 2 |}.

(** A file whose block has an id directive without a value. *)
Definition e_go : scan_file :=
  {| sf_str := "/repo/src/e.go"; sf_rel := "src/e.go";
     sf_read := Some ("package e" +:+ Examples.nl +:+
                      "// HODOR-ID:" +:+ Examples.nl +:+
                      "// HODOR-REQS: R1" +:+ Examples.nl +:+
                      "func TestE() {}" +:+ Examples.nl) |}.

End RunExamples.

(** * Properties *)

#[local] Set Warnings "-clear-no-such-hyp".

(** ** Sequencing and loops *)

Lemma bind_Ok {A B} (m : result A) (k : A → result B) b :
  (m ≫= k) = Ok b → ∃ a, m = Ok a ∧ k a = Ok b.
Proof. destruct m as [a|e]; cbn; [eauto | discriminate]. Qed.

Lemma for_each_app {A St} (l1 l2 : list A) (body : St → A → result St) st :
  for_each (l1 ++ l2) body st = (for_each l1 body st ≫= for_each l2 body).
Proof.
  revert st. induction l1 as [|x l1 IH]; intros st; simpl; [done|].
  destruct (body st x) as [st'|e]; simpl; [apply IH | done].
Qed.

(** ** The link resolver *)

Section Resolve.
Context (utc_now : string).

Lemma ids_with_refs tests : ids (with_refs <$> tests) = ids tests.
Proof.
  unfold ids. rewrite <- list_fmap_compose. apply list_fmap_ext.
  intros i t _. unfold with_refs; simpl. by destruct (it_refs t).
Qed.

Lemma links_with_refs t : it_links (with_refs t) = it_links t.
Proof. unfold with_refs. by destruct (it_refs t). Qed.

Lemma id_with_refs t : it_id (with_refs t) = it_id t.
Proof. unfold with_refs. by destruct (it_refs t). Qed.

Lemma check_tests_Ok tests : ∀ seen visited seen' visited',
  for_each tests check_test (seen, visited) = Ok (seen', visited') →
  visited' = visited ++ (with_refs <$> tests)
  ∧ NoDup (ids tests) ∧ (∀ x, x ∈ ids tests → x ∉ seen).
Proof.
  induction tests as [|t tests IH]; intros seen visited seen' visited' H;
    simpl in H.
  - inversion H; subst. rewrite app_nil_r. split_and!; [done|constructor|].
    intros x Hx. inversion Hx.
  - case_bool_decide as Hin; [discriminate|]. simpl in H.
    apply IH in H as (-> & Hnd & Hseen).
    split_and!.
    + by rewrite <- app_assoc.
    + simpl. constructor; [|done]. intros Hx. apply (Hseen _ Hx). set_solver.
    + intros x Hx. simpl in Hx. apply elem_of_cons in Hx as [->|Hx]; [done|].
      intros Hs. apply (Hseen _ Hx). set_solver.
Qed.

Lemma check_tests_total tests : ∀ seen visited,
  NoDup (ids tests) → (∀ x, x ∈ ids tests → x ∉ seen) →
  ∃ seen', for_each tests check_test (seen, visited)
           = Ok (seen', visited ++ (with_refs <$> tests)).
Proof.
  induction tests as [|t tests IH]; intros seen visited Hnd Hseen; simpl.
  - exists seen. by rewrite app_nil_r.
  - simpl in Hnd. apply NoDup_cons in Hnd as [Hnot Hnd].
    rewrite bool_decide_eq_false_2; [|apply Hseen; simpl; left]. simpl.
    destruct (IH (seen ∪ {[it_id t]}) (visited ++ [with_refs t]) Hnd)
      as [seen' ->].
    + intros x Hx [Hs| ->%elem_of_singleton]%elem_of_union; [|done].
      apply (Hseen x); [simpl; by right | done].
    + exists seen'. by rewrite <- app_assoc.
Qed.

Lemma check_tests_Raise tests : ∀ seen visited e,
  for_each tests check_test (seen, visited) = Raise e →
  ∃ test_id, e = ValueError ("Duplicate test id '" +:+ test_id +:+ "'")
             ∧ test_id ∈ ids tests.
Proof.
  induction tests as [|t tests IH]; intros seen visited e H; simpl in H.
  - discriminate.
  - case_bool_decide as Hin; simpl in H.
    + inversion H; subst. exists (it_id t). split; [done|by left].
    + apply IH in H as (x & -> & Hx). exists x. split; [done|by right].
Qed.

Lemma has_key_id_map items k :
  has_key (id_map items) k = true ↔ k ∈ ids items.
Proof.
  unfold has_key, id_map. rewrite bool_decide_eq_true.
  assert (∀ m : gmap string item,
    is_Some (fold_left (λ m x, <[it_id x := x]> m) items m !! k)
    ↔ is_Some (m !! k) ∨ k ∈ ids items) as Hgen.
  { induction items as [|x items IH]; intros m; simpl.
    - set_solver.
    - rewrite IH, lookup_insert_is_Some, !elem_of_cons.
      destruct (decide (it_id x = k)); set_solver. }
  rewrite Hgen, lookup_empty. split; [intros [[? ?]|?]; done | by right].
Qed.

(** Membership in the link set. *)
Lemma elem_of_collect_links reqs tests (rm tm : gmap string item) a b :
  (a, b) ∈ collect_links reqs tests rm tm ↔
    (∃ t, t ∈ tests ∧ b = it_id t ∧ a ∈ it_links t ∧ has_key rm a = true)
    ∨ (∃ r, r ∈ reqs ∧ a = it_id r ∧ b ∈ it_links r ∧ has_key tm b = true).
Proof.
  unfold collect_links.
  assert (∀ (f : string → string * string) (m : gmap string item) l
            (s : gset (string * string)) x,
    x ∈ fold_left (λ s k, if has_key m k then s ∪ {[ f k ]} else s) l s
    ↔ x ∈ s ∨ ∃ k, k ∈ l ∧ has_key m k = true ∧ x = f k) as Hin.
  { intros f m l. induction l as [|k l IH]; intros s x; simpl.
    - set_solver.
    - rewrite IH. setoid_rewrite elem_of_cons.
      destruct (has_key m k) eqn:Hk;
        rewrite ?elem_of_union, ?elem_of_singleton; split.
      + intros [[?| ->]|(k' & ? & ? & ->)]; [by left|right..].
        * exists k; auto.
        * exists k'; auto.
      + intros [?|(k' & [->|?] & ? & ->)]; [auto..|].
        right. exists k'; auto.
      + intros [?|(k' & ? & ? & ->)]; [by left|right]. exists k'; auto.
      + intros [?|(k' & [->|?] & ? & ->)]; [auto|congruence|].
        right. exists k'; auto. }
  assert (∀ (g : item → string → string * string) (m : gmap string item)
            (l : list item) (s : gset (string * string)) x,
    x ∈ fold_left (λ s it,
          fold_left (λ s k, if has_key m k then s ∪ {[ g it k ]} else s)
            (it_links it) s) l s
    ↔ x ∈ s ∨ ∃ it k, it ∈ l ∧ k ∈ it_links it ∧ has_key m k = true
                      ∧ x = g it k) as Hout.
  { intros g m l. induction l as [|it l IH]; intros s x; simpl.
    - set_solver.
    - rewrite IH, (Hin (g it)). setoid_rewrite elem_of_cons. split.
      + intros [[?|(k & ? & ? & ->)]|(it' & k & ? & ? & ? & ->)];
          [by left|right..].
        * exists it, k; auto.
        * exists it', k; auto.
      + intros [?|(it' & k & [->|?] & ? & ? & ->)]; [auto| |].
        * left; right. exists k; auto.
        * right. exists it', k; auto. }
  rewrite (Hout (λ req test_id, (it_id req, test_id))).
  rewrite (Hout (λ test req_id, (req_id, it_id test))).
  rewrite elem_of_empty. split.
  - intros [[[]|(t & k & ? & ? & ? & [= -> ->])]
           |(r & k & ? & ? & ? & [= -> ->])]; [left|right]; eauto.
  - intros [(t & ? & -> & ? & ?)|(r & ? & -> & ? & ?)].
    + left; right. exists t, a; auto.
    + right. exists r, b; auto.
Qed.

Lemma elem_of_sorted_links (s : gset (string * string)) x :
  x ∈ sorted_links s ↔ x ∈ s.
Proof.
  unfold sorted_links. by rewrite merge_sort_Permutation, elem_of_elements.
Qed.

Lemma NoDup_sorted_links (s : gset (string * string)) :
  NoDup (sorted_links s).
Proof.
  unfold sorted_links. rewrite merge_sort_Permutation. apply NoDup_elements.
Qed.

Lemma append_at_Some (m : gmap string (list string)) key x :
  is_Some (m !! key) →
  ∃ m', append_at m key x = Ok m' ∧ ∀ k, is_Some (m' !! k) ↔ is_Some (m !! k).
Proof.
  intros [l Hl]. unfold append_at. rewrite Hl. eexists; split; [done|].
  intros k. rewrite lookup_insert_is_Some.
  destruct (decide (key = k)) as [<-|]; [rewrite Hl|]; naive_solver.
Qed.

(** No [KeyError]: every link names keys of both dictionaries. *)
Lemma index_links_total (rm tm : gmap string item) links :
  (∀ a b, (a, b) ∈ links → has_key rm a = true ∧ has_key tm b = true) →
  ∃ r2t t2r, index_links rm tm links = Ok (r2t, t2r).
Proof.
  unfold index_links.
  assert (∀ (m1 m2 : gmap string (list string)),
    (∀ a b, (a, b) ∈ links → is_Some (m1 !! a) ∧ is_Some (m2 !! b)) →
    ∃ r2t t2r,
      for_each links (λ '(req_to_tests, test_to_reqs) '(req_id, test_id),
        req_to_tests ← append_at req_to_tests req_id test_id;
        test_to_reqs ← append_at test_to_reqs test_id req_id;
        Ok (req_to_tests, test_to_reqs)) (m1, m2) = Ok (r2t, t2r)) as Hgen.
  { induction links as [|[a b] links IH]; intros m1 m2 Hkeys; simpl.
    - eauto.
    - destruct (Hkeys a b) as [Ha Hb]; [by left|].
      destruct (append_at_Some m1 a b Ha) as (m1' & -> & H1).
      destruct (append_at_Some m2 b a Hb) as (m2' & -> & H2). cbn.
      apply IH. intros a' b' Hin. rewrite H1, H2. apply Hkeys. by right. }
  intros Hkeys. apply Hgen. intros a b Hin.
  destruct (Hkeys a b Hin) as [Ha Hb]. unfold has_key in Ha, Hb.
  apply bool_decide_eq_true in Ha, Hb.
  rewrite !lookup_fmap, !fmap_is_Some. done.
Qed.

Lemma elem_of_link_set_of reqs tests a b :
  (a, b) ∈ link_set_of reqs tests ↔
    a ∈ ids reqs ∧ b ∈ ids tests ∧
    ((∃ t, t ∈ tests ∧ it_id t = b ∧ a ∈ it_links t)
     ∨ (∃ r, r ∈ reqs ∧ it_id r = a ∧ b ∈ it_links r)).
Proof.
  unfold link_set_of. rewrite elem_of_collect_links.
  setoid_rewrite has_key_id_map. split.
  - intros [(t' & Ht' & -> & Ha & Hra)|(r & Hr & -> & Hb & Htb)].
    + apply list_elem_of_fmap in Ht' as (t & -> & Ht).
      rewrite id_with_refs, links_with_refs in *.
      split_and!; [done|unfold ids; apply list_elem_of_fmap; eauto|].
      left. eauto.
    + split_and!; [unfold ids; apply list_elem_of_fmap; eauto|done|].
      right. eauto.
  - intros (Ha & Hb & [(t & Ht & <- & Hl)|(r & Hr & <- & Hl)]).
    + left. exists (with_refs t).
      rewrite id_with_refs, links_with_refs.
      split_and!; [apply list_elem_of_fmap; eauto|done..].
    + right. eauto 10.
Qed.

Lemma resolve_Ok reqs tests root p :
  resolve utc_now reqs tests root = Ok p →
  NoDup (ids tests) ∧
  ∃ r2t t2r,
    p = {| generated_at := utc_now;
           source_root := root;
           pl_summary :=
             summarise (resolve_req r2t <$> reqs)
               (resolve_test t2r <$> (with_refs <$> tests))
               (link_set_of reqs tests);
           pl_requirements := resolve_req r2t <$> reqs;
           pl_tests := resolve_test t2r <$> (with_refs <$> tests);
           pl_links := sorted_links (link_set_of reqs tests) |}.
Proof.
  unfold resolve. intros H.
  apply bind_Ok in H as ([seen visited] & Hchk & H).
  apply check_tests_Ok in Hchk as (-> & Hnd & _). simpl in H.
  apply bind_Ok in H as ([r2t t2r] & Hidx & H).
  inversion H; subst. split; [done|]. by exists r2t, t2r.
Qed.

Lemma resolve_total reqs tests root :
  NoDup (ids tests) → ∃ p, resolve utc_now reqs tests root = Ok p.
Proof.
  intros Hnd. unfold resolve.
  destruct (check_tests_total tests ∅ [] Hnd) as [seen' ->].
  { intros x _. apply not_elem_of_empty. }
  cbn.
  destruct (index_links_total (id_map reqs) (id_map tests)
    (sorted_links (link_set_of reqs tests))) as (r2t & t2r & Hidx).
  { intros a b Hin. apply elem_of_sorted_links, elem_of_link_set_of in Hin.
    rewrite !has_key_id_map. tauto. }
  unfold link_set_of in Hidx. rewrite Hidx. cbn. eauto.
Qed.

Lemma filter_eq_not_elem_of {A} `{EqDecision A} (l : list A) x :
  x ∉ l → filter (λ y, y = x) l = [].
Proof.
  induction l as [|y l IH]; intros Hnot; [done|].
  apply not_elem_of_cons in Hnot as [Hne Hnot].
  rewrite filter_cons, decide_False by done. by apply IH.
Qed.

Lemma length_filter_eq_NoDup {A} `{EqDecision A} (l : list A) x :
  NoDup l → x ∈ l → length (filter (λ y, y = x) l) = 1.
Proof.
  induction 1 as [|y l Hnot Hnd IH]; intros Hin; [inversion Hin|].
  rewrite filter_cons. destruct (decide (y = x)) as [->|Hne].
  - simpl. by rewrite filter_eq_not_elem_of.
  - apply IH. apply elem_of_cons in Hin as [->|Hin]; done.
Qed.

Lemma sum_1_for_length {A} (p : A → bool) (l : list A) :
  sum_1_for p l = length (List.filter p l).
Proof.
  unfold sum_1_for.
  assert (∀ n, fold_left (λ acc x, if p x then acc + 1 else acc) l n
               = n + length (List.filter p l)) as Hgen.
  { induction l as [|x l IH]; intros n; simpl; [lia|].
    rewrite IH. destruct (p x); simpl; lia. }
  apply Hgen.
Qed.

Lemma sum_1_for_partition {A} (p : A → bool) (l : list A) :
  sum_1_for p l + sum_1_for (λ x, negb (p x)) l = length l.
Proof.
  rewrite !sum_1_for_length.
  induction l as [|x l IH]; simpl; [done|]. destruct (p x); simpl; lia.
Qed.

Lemma sum_1_for_filter {A} (p : A → bool) (P : A → Prop)
    `{∀ x, Decision (P x)} (l : list A) :
  (∀ x, p x = true ↔ P x) → sum_1_for p l = length (filter P l).
Proof.
  intros Hp. rewrite sum_1_for_length.
  induction l as [|x l IH]; simpl; [done|]. rewrite filter_cons.
  destruct (p x) eqn:Hx.
  - rewrite decide_True by by apply Hp. simpl. by rewrite IH.
  - rewrite decide_False; [done|]. rewrite <- Hp. congruence.
Qed.

(** [round_half_even] picks a nearest integer, the even one at a tie. *)
Lemma round_half_even_nearest num den :
  (0 < den)%Z →
  let n := round_half_even num den in
  (Z.abs (2 * num - 2 * n * den) ≤ den)%Z
  ∧ (Z.abs (2 * num - 2 * n * den) = den → Z.even n = true).
Proof.
  intros Hden. unfold round_half_even.
  pose proof (Z.div_mod num den ltac:(lia)) as Hdm.
  pose proof (Z.mod_pos_bound num den Hden) as Hmod.
  destruct (Z.compare_spec (2 * (num `mod` den)) den) as [Heq|Hlt|Hgt].
  - destruct (Z.even (num `div` den)) eqn:Hev; simpl.
    + split; [nia|done].
    + split; [nia|]. intros _. rewrite Z.even_add, Hev. done.
  - simpl. split; [nia|]. intros Habs. nia.
  - simpl. split; [nia|]. intros Habs. nia.
Qed.

(** The tenths chosen for [m * 2^e] are nearest to ten times that value. *)
Lemma nearest_tenths_nearest m e :
  let n := nearest_tenths m e in
  if (0 <=? e)%Z then n = (Z.pos m * 10 * 2 ^ e)%Z
  else (Z.abs (2 * (Z.pos m * 10) - 2 * n * 2 ^ (- e)) ≤ 2 ^ (- e))%Z.
Proof.
  unfold nearest_tenths. destruct (0 <=? e)%Z eqn:He; [done|].
  apply round_half_even_nearest. apply Z.pow_pos_nonneg; lia.
Qed.

Lemma nonempty_true {A} (l : list A) : Py.nonempty l = true ↔ l ≠ [].
Proof. by destruct l. Qed.

(** C1.  For all requirement and test records, every pair of the resolved
    link set has its requirement id among the requirement records and its
    test id among the test records, so a declared link id that names no
    existing counterpart is dropped; and resolution returns normally
    whatever the declared links are: it raises for a repeated test id
    only. *)
Theorem resolved_links_have_endpoints reqs tests root :
  NoDup (ids tests) →
  ∃ p, resolve utc_now reqs tests root = Ok p ∧
       ∀ r t, (r, t) ∈ pl_links p → r ∈ ids reqs ∧ t ∈ ids tests.
Proof.
  intros Hnd. destruct (resolve_total reqs tests root Hnd) as [p Hp].
  exists p. split; [done|]. intros r t Hin.
  apply resolve_Ok in Hp as (_ & r2t & t2r & ->). simpl in Hin.
  apply elem_of_sorted_links, elem_of_link_set_of in Hin. tauto.
Qed.

(** C3.  The resolved link set has no repeated entry and holds exactly the
    pairs of an existing requirement and an existing test that the test or
    the requirement declares; a link declared by the test only, by the
    requirement only, or by both occurs exactly once. *)
Theorem link_set_is_deduplicated_union reqs tests root p :
  resolve utc_now reqs tests root = Ok p →
  NoDup (pl_links p)
  ∧ (∀ a b, (a, b) ∈ pl_links p ↔
       a ∈ ids reqs ∧ b ∈ ids tests ∧
       ((∃ t, t ∈ tests ∧ it_id t = b ∧ a ∈ it_links t)
        ∨ (∃ r, r ∈ reqs ∧ it_id r = a ∧ b ∈ it_links r)))
  ∧ (∀ R T, R ∈ reqs → T ∈ tests →
       it_id R ∈ it_links T ∨ it_id T ∈ it_links R →
       length (filter (λ l, l = (it_id R, it_id T)) (pl_links p)) = 1).
Proof.
  intros (_ & r2t & t2r & ->)%resolve_Ok. simpl.
  assert (∀ a b, (a, b) ∈ sorted_links (link_set_of reqs tests) ↔
       a ∈ ids reqs ∧ b ∈ ids tests ∧
       ((∃ t, t ∈ tests ∧ it_id t = b ∧ a ∈ it_links t)
        ∨ (∃ r, r ∈ reqs ∧ it_id r = a ∧ b ∈ it_links r))) as Hiff.
  { intros a b. by rewrite elem_of_sorted_links, elem_of_link_set_of. }
  split_and!; [apply NoDup_sorted_links|done|].
  intros R T HR HT Hdecl.
  apply length_filter_eq_NoDup; [apply NoDup_sorted_links|].
  apply Hiff. split_and!.
  - unfold ids. apply list_elem_of_fmap. eauto.
  - unfold ids. apply list_elem_of_fmap. eauto.
  - destruct Hdecl; [left|right]; eauto.
Qed.

(** C8.  The counts of the summary partition the records: linked plus
    unlinked is the total, for requirements and for tests, and a record is
    counted as linked exactly when its resolved list is not empty. *)
Theorem summary_counts_partition reqs tests root p :
  resolve utc_now reqs tests root = Ok p →
  let s := pl_summary p in
  requirements_linked s + requirements_unlinked s = requirements_total s
  ∧ tests_linked s + tests_unlinked s = tests_total s
  ∧ requirements_total s = length (pl_requirements p)
  ∧ tests_total s = length (pl_tests p)
  ∧ requirements_linked s
    = length (filter (λ r, rq_tests r ≠ []) (pl_requirements p))
  ∧ tests_linked s = length (filter (λ t, ts_reqs t ≠ []) (pl_tests p)).
Proof.
  intros (_ & r2t & t2r & ->)%resolve_Ok. simpl.
  split_and!; try done.
  - apply sum_1_for_partition.
  - apply sum_1_for_partition.
  - apply sum_1_for_filter. intros r. apply nonempty_true.
  - apply sum_1_for_filter. intros t. apply nonempty_true.
Qed.

Lemma nearest_even_unique num den n1 n2 :
  (0 < den)%Z → nearest_even num den n1 → nearest_even num den n2 → n1 = n2.
Proof.
  intros Hden [H1 E1] [H2 E2].
  assert (n2 = n1 ∨ n2 = n1 + 1 ∨ n2 = n1 - 1)%Z as [->|[->| ->]] by nia;
    [done|exfalso..].
  - assert (Z.abs (2 * num - 2 * n1 * den) = den)%Z as T1 by nia.
    assert (Z.abs (2 * num - 2 * (n1 + 1) * den) = den)%Z as T2 by nia.
    specialize (E1 T1). specialize (E2 T2).
    rewrite Z.add_1_r, Z.even_succ, <- Z.negb_even, E1 in E2. done.
  - assert (Z.abs (2 * num - 2 * n1 * den) = den)%Z as T1 by nia.
    assert (Z.abs (2 * num - 2 * (n1 - 1) * den) = den)%Z as T2 by nia.
    specialize (E1 T1). specialize (E2 T2).
    rewrite Z.sub_1_r, Z.even_pred, <- Z.negb_even, E1 in E2. done.
Qed.

Lemma nearest_even_nonneg num den n :
  (0 ≤ num)%Z → (0 < den)%Z → nearest_even num den n → (0 ≤ n)%Z.
Proof. intros Hnum Hden [H _]. nia. Qed.

Lemma nearest_tenths_spec m e : tenths_of m e (nearest_tenths m e).
Proof.
  unfold tenths_of, nearest_tenths. destruct (0 <=? e)%Z eqn:He.
  - apply Z.leb_le in He. rewrite Z.max_l, Z.max_r by lia.
    change (2 ^ 0)%Z with 1%Z. split; [lia|]. intros H. lia.
  - apply Z.leb_gt in He. rewrite Z.max_r, Z.max_l by lia.
    change (2 ^ 0)%Z with 1%Z. rewrite Z.mul_1_r.
    apply round_half_even_nearest. apply Z.pow_pos_nonneg; lia.
Qed.

Lemma tenths_of_unique m e n :
  tenths_of m e n → n = nearest_tenths m e ∧ (0 ≤ n)%Z.
Proof.
  intros H. pose proof (nearest_tenths_spec m e) as H'.
  assert (0 < 2 ^ Z.max (- e) 0)%Z as Hden by (apply Z.pow_pos_nonneg; lia).
  split.
  - by eapply nearest_even_unique.
  - eapply nearest_even_nonneg; [|done..].
    assert (0 ≤ 2 ^ Z.max e 0)%Z by (apply Z.pow_nonneg; lia). nia.
Qed.

(** [float_of_int] is the primitive conversion on the range of [int]. *)
Lemma float_of_int_count z :
  (0 ≤ z < 2 ^ 63)%Z → float_of_int z = count_to_float z.
Proof.
  intros Hz. unfold float_of_int, count_to_float.
  rewrite <- (SF2Prim_Prim2SF (of_uint63 (Uint63.of_Z z))).
  rewrite of_uint63_spec, Uint63.of_Z_spec.
  rewrite Z.mod_small; [done|]. exact Hz.
Qed.

(** C4.  [coverage_pct] is [0.0] when there are no requirements, and
    otherwise [100.0 * requirements_linked / requirements_total], computed
    with the primitive float operations on the counts, rounded to one
    decimal place: when the quotient is the binary fraction [m * 2^e] and
    [n] is the integer nearest to ten times the quotient, the even one at a
    tie, the result is the float quotient of [n] and [10], which is the
    float nearest to [n / 10]; a zero quotient is returned as it is. *)
Theorem coverage_pct_formula reqs tests root p :
  resolve utc_now reqs tests root = Ok p →
  let s := pl_summary p in
  let total := Z.of_nat (requirements_total s) in
  let linked := Z.of_nat (requirements_linked s) in
  let quotient :=
    (count_to_float 100 * count_to_float linked
     / count_to_float total)%float in
  (requirements_total s = 0 → coverage_pct s = PrimFloat.zero)
  ∧ (∀ sign m e n,
       requirements_total s ≠ 0 → (total < 2 ^ 63)%Z →
       Prim2SF quotient = S754_finite sign m e →
       tenths_of m e n → (n < 2 ^ 53)%Z →
       let r := (count_to_float n / count_to_float 10)%float in
       coverage_pct s = if sign then (- r)%float else r)
  ∧ (∀ sign,
       requirements_total s ≠ 0 → (total < 2 ^ 63)%Z →
       Prim2SF quotient = S754_zero sign → coverage_pct s = quotient).
Proof.
  intros (_ & r2t & t2r & ->)%resolve_Ok. cbn zeta.
  cbn [pl_summary summarise requirements_total requirements_linked
       coverage_pct].
  set (rs := resolve_req r2t <$> reqs).
  set (linked := sum_1_for (λ r, Py.nonempty (rq_tests r)) rs).
  assert (linked ≤ length rs)%nat as Hle.
  { pose proof (sum_1_for_partition (λ r, Py.nonempty (rq_tests r)) rs).
    unfold linked. rewrite <- H. apply Nat.le_add_r. }
  assert (hundred = count_to_float 100) as Hhundred
    by (vm_compute; reflexivity).
  destruct (length rs) as [|k] eqn:Hlen; [split_and!; done|].
  change (0 <? S k)%nat with true. cbn [negb].
  assert ((Z.of_nat (S k) < 2 ^ 63)%Z →
            (hundred * float_of_nat linked / float_of_nat (S k))%float
            = (count_to_float 100 * count_to_float (Z.of_nat linked)
               / count_to_float (Z.of_nat (S k)))%float) as Hq.
  { intros Hk. unfold float_of_nat.
    rewrite !float_of_int_count, Hhundred by lia. done. }
  split_and!; [done| |].
  - intros sign m e n _ Hk Hsf Hn Hbound.
    rewrite <- (Hq Hk) in Hsf. unfold py_round1. rewrite Hsf.
    apply tenths_of_unique in Hn as [-> Hpos].
    apply Z.ltb_lt in Hbound as Hb. rewrite Hb.
    rewrite !float_of_int_count by lia. done.
  - intros sign _ Hk Hsf. rewrite <- (Hq Hk) in Hsf |- *.
    unfold py_round1. by rewrite Hsf.
Qed.
End Resolve.

(** The statements above on the example of the specification. *)

Lemma resolved_links_have_endpoints_witness :
  ∃ p, resolve "2026-01-01 00:00:00Z" Examples.reqs Examples.tests "." = Ok p ∧
       ∀ r t, (r, t) ∈ pl_links p →
              r ∈ ids Examples.reqs ∧ t ∈ ids Examples.tests.
Proof.
  apply (resolved_links_have_endpoints
           "2026-01-01 00:00:00Z" Examples.reqs Examples.tests ".").
  apply (bool_decide_unpack _). vm_compute. exact I.
Defined.

Lemma link_set_is_deduplicated_union_witness :
  resolve "2026-01-01 00:00:00Z" Examples.reqs Examples.tests "."
  = Ok Examples.the_payload
  ∧ NoDup (pl_links Examples.the_payload)
  ∧ length (filter (λ l, l = (it_id Examples.R2, it_id Examples.T9))
              (pl_links Examples.the_payload)) = 1.
Proof.
  assert (resolve "2026-01-01 00:00:00Z" Examples.reqs Examples.tests "."
          = Ok Examples.the_payload) as H by (vm_compute; reflexivity).
  split; [exact H|].
  destruct (link_set_is_deduplicated_union _ _ _ _ _ H) as (Hnd & _ & Hone).
  split; [exact Hnd|].
  apply (Hone Examples.R2 Examples.T9).
  - unfold Examples.reqs. repeat constructor.
  - unfold Examples.tests, Examples.item_tests, Examples.scan_tests.
    repeat constructor.
  - left. apply (bool_decide_unpack _). vm_compute. exact I.
Defined.

Lemma summary_counts_partition_witness :
  resolve "2026-01-01 00:00:00Z" Examples.reqs Examples.tests "."
  = Ok Examples.the_payload
  ∧ requirements_linked (pl_summary Examples.the_payload)
    + requirements_unlinked (pl_summary Examples.the_payload)
    = requirements_total (pl_summary Examples.the_payload)
  ∧ tests_linked (pl_summary Examples.the_payload)
    + tests_unlinked (pl_summary Examples.the_payload)
    = tests_total (pl_summary Examples.the_payload).
Proof.
  assert (resolve "2026-01-01 00:00:00Z" Examples.reqs Examples.tests "."
          = Ok Examples.the_payload) as H by (vm_compute; reflexivity).
  split; [exact H|].
  destruct (summary_counts_partition _ _ _ _ _ H) as (H1 & H2 & _).
  split; [exact H1|exact H2].
Defined.

Lemma coverage_pct_formula_witness :
  coverage_pct (pl_summary Examples.the_payload)
  = (count_to_float 1000 / count_to_float 10)%float
  ∧ coverage_pct (pl_summary Examples.third_payload)
    = (count_to_float 333 / count_to_float 10)%float.
Proof.
  assert (resolve "2026-01-01 00:00:00Z" Examples.reqs Examples.tests "."
          = Ok Examples.the_payload) as H by (vm_compute; reflexivity).
  assert (resolve "2026-01-01 00:00:00Z"
            [Examples.R1; Examples.R2; Examples.R3] [Examples.T1] "."
          = Ok Examples.third_payload) as H3 by (vm_compute; reflexivity).
  split.
  - destruct (coverage_pct_formula _ _ _ _ _ H) as (_ & Hpct & _).
    apply (Hpct false 7036874417766400%positive (-46)%Z 1000%Z).
    + discriminate.
    + vm_compute. reflexivity.
    + vm_compute. reflexivity.
    + split; vm_compute; discriminate.
    + lia.
  - destruct (coverage_pct_formula _ _ _ _ _ H3) as (_ & Hpct & _).
    apply (Hpct false 4691249611844267%positive (-47)%Z 333%Z).
    + discriminate.
    + vm_compute. reflexivity.
    + vm_compute. reflexivity.
    + split; vm_compute; discriminate.
    + lia.
Defined.

(** One third of the requirements covered is reported as 33.3, and three in
    two thousand, whose quotient 0.15 lies just below the tie as a binary
    fraction, as 0.1. *)
Example coverage_one_third :
  py_round1 (hundred * float_of_nat 1 / float_of_nat 3)
  = (float_of_nat 333 / float_of_nat 10)%float.
Proof. vm_compute. reflexivity. Qed.

Example coverage_three_in_two_thousand :
  py_round1 (hundred * float_of_nat 3 / float_of_nat 2000)
  = (float_of_nat 1 / float_of_nat 10)%float.
Proof. vm_compute. reflexivity. Qed.

(** ** Synthesized test ids *)

Lemma pretty_N_char_digit x : is_digit (pretty_N_char x) = true.
Proof. unfold pretty_N_char. by repeat case_match. Qed.

Lemma pretty_N_go_digits x : ∀ s,
  all_chars is_digit s = true → all_chars is_digit (pretty_N_go x s) = true.
Proof.
  induction (N.lt_wf_0 x) as [x _ IH]; intros s Hs.
  destruct (decide (x = 0)%N) as [->|Hx]; [by rewrite pretty_N_go_0|].
  rewrite pretty_N_go_step by lia. apply IH.
  - apply N.div_lt; lia.
  - simpl. by rewrite pretty_N_char_digit.
Qed.

Lemma str_of_nat_digits n : all_chars is_digit (Py.str_of_nat n) = true.
Proof.
  unfold Py.str_of_nat, pretty, pretty_nat, pretty, pretty_N.
  case_decide; [done|]. by apply pretty_N_go_digits.
Qed.

(** A string is cut in one way only at its last ["#"]. *)
Lemma split_at_last_hash s1 s2 t1 t2 :
  all_chars is_digit t1 = true → all_chars is_digit t2 = true →
  s1 +:+ "#L" +:+ t1 = s2 +:+ "#L" +:+ t2 → s1 = s2 ∧ t1 = t2.
Proof.
  assert (∀ s t u, all_chars is_digit t = true →
            "L" +:+ t ≠ s +:+ "#L" +:+ u) as Hno.
  { intros s t u Ht Heq. destruct s as [|c s]; [discriminate|].
    injection Heq as _ Heq. clear c. revert s Heq.
    induction t as [|d t IH]; intros s Heq.
    - destruct s; discriminate.
    - simpl in Ht. apply andb_true_iff in Ht as [Hd Ht].
      destruct s as [|c s]; simpl in Heq.
      + injection Heq as -> _. discriminate.
      + injection Heq as _ Heq. by apply (IH Ht s). }
  intros H1 H2. revert s2. induction s1 as [|c s1 IH]; intros [|c' s2] Heq.
  - simpl in Heq. injection Heq as Heq. done.
  - simpl in Heq. injection Heq as <- Heq. by apply Hno in Heq.
  - simpl in Heq. injection Heq as -> Heq. symmetry in Heq. by apply Hno in Heq.
  - simpl in Heq. injection Heq as -> Heq. apply IH in Heq as [-> ->]. done.
Qed.

Lemma synthesized_id_inj rel1 n1 rel2 n2 :
  synthesized_id rel1 n1 = synthesized_id rel2 n2 → rel1 = rel2 ∧ n1 = n2.
Proof.
  unfold synthesized_id. intros H.
  apply split_at_last_hash in H as [-> H]; [|apply str_of_nat_digits..].
  split; [done|]. unfold Py.str_of_nat in H. by apply (inj pretty) in H.
Qed.

Lemma effective_id_synthesized rel b :
  has_explicit_id b = false →
  effective_id rel b = synthesized_id rel (blk_start_line b).
Proof.
  unfold has_explicit_id, effective_id, synthesized_id.
  destruct (blk_id b) as [i|]; [|done]. by intros ->.
Qed.

(** C7.  A block without an explicit [HODOR-ID] value gets the id
    [<relative path>#L<start line>], and two such blocks that differ in
    their relative path or in their start line get different ids. *)
Theorem synthesized_ids_are_injective rel1 b1 rel2 b2 :
  has_explicit_id b1 = false → has_explicit_id b2 = false →
  effective_id rel1 b1 = rel1 +:+ "#L" +:+ Py.str_of_nat (blk_start_line b1)
  ∧ ((rel1, blk_start_line b1) ≠ (rel2, blk_start_line b2) →
     effective_id rel1 b1 ≠ effective_id rel2 b2).
Proof.
  intros H1 H2. rewrite !effective_id_synthesized by done. split; [done|].
  intros Hne Heq. apply synthesized_id_inj in Heq as [-> Hn].
  apply Hne. by rewrite Hn.
Qed.

Lemma synthesized_ids_are_injective_witness :
  effective_id "src/a.go" (Examples.block_unnamed 3)
  = "src/a.go" +:+ "#L" +:+ Py.str_of_nat 3
  ∧ effective_id "src/a.go" (Examples.block_unnamed 3)
    ≠ effective_id "src/b.go" (Examples.block_unnamed 3).
Proof.
  destruct (synthesized_ids_are_injective
              "src/a.go" (Examples.block_unnamed 3)
              "src/b.go" (Examples.block_unnamed 3) eq_refl eq_refl)
    as [Hform Hinj].
  split; [exact Hform|]. apply Hinj. discriminate.
Defined.

(** ** Directive lines *)

Lemma lstrip_all_space s :
  all_chars Py.isspace s = true → Py.lstrip s = EmptyString.
Proof.
  induction s as [|c s IH]; simpl; [done|].
  intros [Hc Hs]%andb_true_iff. rewrite Hc. by apply IH.
Qed.

Lemma DIRECTIVE_RE_blank line :
  all_chars Py.isspace line = true → DIRECTIVE_RE line = None.
Proof.
  intros H. unfold DIRECTIVE_RE. rewrite (lstrip_all_space _ H). reflexivity.
Qed.

(** A [HODOR-ID:] line with nothing but white space after the colon. *)
Lemma DIRECTIVE_RE_empty_id ws :
  all_chars Py.isspace ws = true →
  DIRECTIVE_RE ("HODOR-ID:" +:+ ws) = Some ("HODOR-ID", EmptyString).
Proof.
  intros H. unfold DIRECTIVE_RE. simpl. by rewrite lstrip_all_space.
Qed.

Lemma append_nil_inv s t : s +:+ t = EmptyString → s = EmptyString.
Proof. by destruct s. Qed.

(** ** Block segmentation *)

Lemma for_enumerate_cons {A St} n (x : A) l
    (body : St → nat → A → result St) st :
  for_enumerate n (x :: l) body st
  = (body st n x ≫= for_enumerate (S n) l body).
Proof. done. Qed.

Lemma state_of_current_of s : state_of (current_of s) = s.
Proof. by destruct s. Qed.

Lemma apply_directive_start_line d v c b :
  apply_directive d v c = Some b → blk_start_line b = blk_start_line c.
Proof.
  unfold apply_directive. repeat case_match; intros [= <-]; done.
Qed.

Lemma apply_directive_is_Some d v c v' c' :
  is_Some (apply_directive d v c) → is_Some (apply_directive d v' c').
Proof. unfold apply_directive. repeat case_match; intros [? [=]]; eauto. Qed.

(** One iteration of the loop is one step of the machine. *)
Lemma parse_line_step label blocks current n line blocks' current' :
  parse_line label (blocks, current) n line = Ok (blocks', current') →
  ∃ out, seg_step (state_of current) n line (state_of current') out
         ∧ blocks' = blocks ++ out.
Proof.
  unfold parse_line. destruct (DIRECTIVE_RE line) as [[d v]|] eqn:Hre.
  - destruct current as [c|]; simpl;
      destruct (apply_directive _ _ _) as [b|] eqn:Hb; intros [= <- <-];
      exists []; rewrite app_nil_r; split; try done.
    + by eapply seg_update.
    + by eapply seg_open.
  - destruct current as [c|]; intros [= <- <-].
    + exists [c]. split; [by apply seg_close|done].
    + exists []. rewrite app_nil_r. split; [by apply seg_skip|done].
Qed.

Lemma seg_step_parse_line label s n line s' out blocks :
  seg_step s n line s' out →
  parse_line label (blocks, current_of s) n line
  = Ok (blocks ++ out, current_of s').
Proof.
  intros Hstep. unfold parse_line.
  destruct Hstep as [n line d v b Hre Hb|c n line d v b Hre Hb
                    |c n line Hre|n line Hre]; rewrite Hre; simpl.
  - by rewrite Hb, app_nil_r.
  - by rewrite Hb, app_nil_r.
  - done.
  - by rewrite app_nil_r.
Qed.

Lemma parse_loop_run label lines : ∀ n blocks current blocks' current',
  for_enumerate n lines (parse_line label) (blocks, current)
  = Ok (blocks', current') →
  ∃ out, seg_run (state_of current) n lines out
         ∧ blocks' ++ closing current' = blocks ++ out.
Proof.
  induction lines as [|line lines IH]; intros n blocks current blocks' current'.
  - simpl. intros [= <- <-]. exists (closing current). split; [|done].
    destruct current; constructor.
  - rewrite for_enumerate_cons.
    intros ([blocks1 current1] & Hline & Hrest)%bind_Ok.
    apply parse_line_step in Hline as (out & Hstep & ->).
    apply IH in Hrest as (outs & Hrun & Heq).
    exists (out ++ outs). split; [by econstructor|].
    by rewrite Heq, app_assoc.
Qed.

Lemma run_parse_loop label s n lines out :
  seg_run s n lines out →
  ∀ blocks, ∃ blocks' current',
    for_enumerate n lines (parse_line label) (blocks, current_of s)
    = Ok (blocks', current')
    ∧ blocks' ++ closing current' = blocks ++ out.
Proof.
  induction 1 as [n|c n|s n line s' out lines outs Hstep Hrun IH];
    intros blocks.
  - exists blocks, None. done.
  - exists blocks, (Some c). done.
  - rewrite for_enumerate_cons.
    rewrite (seg_step_parse_line label _ _ _ _ _ blocks Hstep). cbn.
    destruct (IH (blocks ++ out)) as (blocks' & current' & -> & Heq).
    exists blocks', current'. split; [done|]. by rewrite Heq, app_assoc.
Qed.

Lemma parse_hodor_blocks_closing lines label :
  parse_hodor_blocks lines label =
  (for_enumerate 1 lines (parse_line label) ([], None) ≫=
     λ st, Ok (st.1 ++ closing st.2)).
Proof.
  unfold parse_hodor_blocks.
  destruct (for_enumerate _ _ _ _) as [[blocks [c|]]|e]; cbn;
    by rewrite ?app_nil_r.
Qed.

Lemma parse_loop_total label lines : ∀ n st,
  Forall (λ line, known_directive_or_text line = true) lines →
  ∃ st', for_enumerate n lines (parse_line label) st = Ok st'.
Proof.
  induction lines as [|line lines IH]; intros n [blocks current] Hall.
  - simpl. eauto.
  - rewrite for_enumerate_cons. apply Forall_cons in Hall as [Hline Hall].
    assert (∃ st', parse_line label (blocks, current) n line = Ok st')
      as [st' ->]; [|cbn; by apply IH].
    unfold parse_line, known_directive_or_text in *.
    destruct (DIRECTIVE_RE line) as [[d v]|]; [|destruct current; eauto].
    apply bool_decide_eq_true in Hline.
    eapply apply_directive_is_Some in Hline as [b ->]. eauto.
Qed.

(** C6.  Block segmentation is the two-state machine: [parse_hodor_blocks]
    returns the blocks that the machine emits when started idle on line 1,
    the block still open at the end of the input included; it returns
    normally when every directive is a known one; a directive line read
    when idle opens a block whose [start_line] is that line number, a
    directive line read while collecting updates the open block and emits
    nothing, and a line that is not a directive, a blank line included,
    closes the open block without opening or joining one. *)
Theorem segmentation_is_two_state_machine lines label :
  (∀ blocks, parse_hodor_blocks lines label = Ok blocks
             ↔ seg_run Idle 1 lines blocks)
  ∧ (Forall (λ line, known_directive_or_text line = true) lines →
     ∃ blocks, parse_hodor_blocks lines label = Ok blocks)
  ∧ (∀ n line b out, seg_step Idle n line (Collecting b) out →
                     blk_start_line b = n ∧ out = [])
  ∧ (∀ c n line b out, seg_step (Collecting c) n line (Collecting b) out →
                       blk_start_line b = blk_start_line c ∧ out = [])
  ∧ (∀ c n line, DIRECTIVE_RE line = None →
                 seg_step (Collecting c) n line Idle [c]
                 ∧ seg_step Idle n line Idle [])
  ∧ (∀ line, all_chars Py.isspace line = true → DIRECTIVE_RE line = None).
Proof.
  rewrite parse_hodor_blocks_closing. split_and!.
  - intros blocks. split.
    + intros ([blocks' current'] & Hloop & [= <-])%bind_Ok.
      apply parse_loop_run in Hloop as (out & Hrun & Heq).
      simpl in *. by rewrite Heq.
    + intros Hrun.
      destruct (run_parse_loop label _ _ _ _ Hrun []) as (b' & c' & Hl & Heq).
      simpl in Hl. rewrite Hl. cbn. by rewrite Heq.
  - intros Hall.
    destruct (parse_loop_total label lines 1 ([], None) Hall) as [st' ->].
    cbn. eauto.
  - intros n line b out Hstep.
    inversion Hstep as [? ? d v ? Hre Hb| | |]; subst.
    split; [|done]. by apply apply_directive_start_line in Hb.
  - intros c n line b out Hstep.
    inversion Hstep as [|? ? ? d v ? Hre Hb| |]; subst.
    split; [|done]. by apply apply_directive_start_line in Hb.
  - intros c n line Hre. split; by constructor.
  - apply DIRECTIVE_RE_blank.
Qed.

Lemma segmentation_is_two_state_machine_witness :
  seg_run Idle 1 Examples.lines_one_block [Examples.block_T9].
Proof.
  apply (proj1 (segmentation_is_two_state_machine
                  Examples.lines_one_block "/repo/src/a.go")).
  vm_compute. reflexivity.
Defined.


(** ** References *)

Lemma rstrip_idemp s : Py.rstrip (Py.rstrip s) = Py.rstrip s.
Proof.
  induction s as [|c s IH]; simpl; [done|].
  destruct (Py.rstrip s) as [|c' r] eqn:Hr.
  - destruct (Py.isspace c) eqn:Hc; simpl; [done|]. by rewrite Hc.
  - change (Py.rstrip (String c (String c' r))) with
      (match Py.rstrip (String c' r) with
       | EmptyString =>
           if Py.isspace c then EmptyString else String c EmptyString
       | r' => String c r'
       end).
    by rewrite IH.
Qed.

Lemma strip_rstrip s : Py.strip (Py.rstrip s) = Py.strip s.
Proof. unfold Py.strip. by rewrite rstrip_idemp. Qed.

Lemma extract_refs_loop_cons line lines in_refs refs :
  extract_refs_loop (line :: lines) in_refs refs
  = if is_refs_header line then extract_refs_loop lines true refs
    else if in_refs then
      if negb (Py.truthy (Py.strip line)) then refs
      else if is_refs_entry line then
        extract_refs_loop lines in_refs (refs ++ [Py.drop 2 (Py.strip line)])
      else refs
    else extract_refs_loop lines in_refs refs.
Proof. done. Qed.

Lemma is_refs_header_rstrip line :
  is_refs_header (Py.rstrip line) = is_refs_header line.
Proof. unfold is_refs_header. by rewrite strip_rstrip. Qed.

Lemma is_refs_entry_rstrip line :
  is_refs_entry (Py.rstrip line) = is_refs_entry line.
Proof. unfold is_refs_entry. by rewrite strip_rstrip. Qed.

Lemma extract_refs_loop_rstrip lines : ∀ in_refs refs,
  extract_refs_loop (Py.rstrip <$> lines) in_refs refs
  = extract_refs_loop lines in_refs refs.
Proof.
  induction lines as [|line lines IH]; intros in_refs refs; [done|].
  rewrite fmap_cons, !extract_refs_loop_cons.
  by rewrite is_refs_header_rstrip, is_refs_entry_rstrip, strip_rstrip, !IH.
Qed.

Lemma is_refs_entry_truthy line :
  is_refs_entry line = true → Py.truthy (Py.strip line) = true.
Proof. unfold is_refs_entry. by destruct (Py.strip line). Qed.

Lemma extract_refs_loop_collecting lines : ∀ refs,
  extract_refs_loop lines true refs
  = refs ++ ((λ line, Py.drop 2 (Py.strip line))
               <$> take_while is_refs_entry
                     (List.filter (λ line, negb (is_refs_header line)) lines)).
Proof.
  induction lines as [|line lines IH]; intros refs.
  - simpl. by rewrite app_nil_r.
  - rewrite extract_refs_loop_cons. cbn [List.filter].
    destruct (is_refs_header line); cbn [negb]; [apply IH|].
    cbn [take_while]. destruct (is_refs_entry line) eqn:He.
    + rewrite (is_refs_entry_truthy _ He). cbn [negb].
      rewrite IH, fmap_cons. by rewrite <- app_assoc.
    + rewrite fmap_nil, app_nil_r. by destruct (negb _).
Qed.

Lemma extract_refs_loop_searching lines : ∀ refs,
  extract_refs_loop lines false refs
  = match drop_while (λ line, negb (is_refs_header line)) lines with
    | [] => refs
    | _ :: rest => extract_refs_loop rest true refs
    end.
Proof.
  induction lines as [|line lines IH]; intros refs; [done|].
  rewrite extract_refs_loop_cons. cbn [drop_while].
  destruct (is_refs_header line); cbn [negb]; [done|apply IH].
Qed.

Lemma extract_refs_spec text :
  extract_refs text = refs_skipping_headers (Py.splitlines text).
Proof.
  unfold extract_refs, refs_skipping_headers, after_header.
  rewrite extract_refs_loop_rstrip, extract_refs_loop_searching.
  destruct (drop_while _ _) as [|header rest]; [done|].
  by rewrite extract_refs_loop_collecting.
Qed.

Lemma for_each_inv {A St} (P : St → Prop) (l : list A)
    (body : St → A → result St) :
  (∀ st x st', P st → body st x = Ok st' → P st') →
  ∀ st st', P st → for_each l body st = Ok st' → P st'.
Proof.
  intros Hbody. induction l as [|x l IH]; intros st st' HP; simpl.
  - by intros [= <-].
  - intros (st1 & Hx & Hl)%bind_Ok. eapply IH; [|done]. by eapply Hbody.
Qed.

(** ** The loaders *)

Section Loaders.
Context (str_other : yaml → string) (utc_now : string).

Lemma loaded_ok_snoc Q items (seen : gset string) it :
  loaded_ok Q (items, seen) → it_id it ∉ seen → Q it →
  loaded_ok Q (items ++ [it], seen ∪ {[it_id it]}).
Proof.
  intros (Hnd & Hseen & HQ) Hnew Hit. unfold loaded_ok, ids in *. simpl in *.
  rewrite fmap_app. split_and!.
  - apply NoDup_app. split_and!; [done| |apply NoDup_singleton].
    intros x Hx [->|[]%elem_of_nil]%elem_of_cons. by apply Hnew, Hseen.
  - intros x [Hx|[->|[]%elem_of_nil]%elem_of_cons]%elem_of_app; set_solver.
  - apply Forall_app. split; [done|]. by constructor.
Qed.

Lemma load_item_inv st f st' :
  loaded_ok (λ t, it_refs t = None) st →
  load_item str_other st f = Ok st' →
  loaded_ok (λ t, it_refs t = None) st'.
Proof.
  destruct st as [items seen]. intros Hok. unfold load_item.
  destruct (Py.mem _ _); [by intros [= <-]|].
  intros (loaded & _ & H)%bind_Ok.
  apply bind_Ok in H as (uid_field & _ & H).
  case_bool_decide as Hseen; [discriminate|].
  apply bind_Ok in H as (text_field & _ & H).
  apply bind_Ok in H as (title_field & _ & H).
  apply bind_Ok in H as (links_field & _ & H).
  injection H as <-.
  match goal with |- loaded_ok _ (_ ++ [?it], _) =>
    apply (loaded_ok_snoc _ items seen it); done end.
Qed.

Lemma load_items_inv fs rel_dirs label items :
  load_items str_other fs rel_dirs label = Ok items →
  NoDup (ids items) ∧ Forall (λ t, it_refs t = None) items.
Proof.
  unfold load_items. intros ([items' seen] & Hloop & [= <-])%bind_Ok.
  eapply (for_each_inv (loaded_ok (λ t, it_refs t = None))) in Hloop.
  - destruct Hloop as (? & _ & ?). done.
  - intros st rel_dir st' Hst. destruct (fs rel_dir) as [|d]; [done|].
    apply for_each_inv; [|done]. intros st1 ext st1' Hst1.
    apply for_each_inv; [|done]. intros st2 f st2'. apply load_item_inv.
  - split_and!; [constructor|intros x []%elem_of_nil|constructor].
Qed.

Lemma load_block_inv rel st b st' :
  loaded_ok scanned st → load_block rel st b = Ok st' → loaded_ok scanned st'.
Proof.
  destruct st as [items seen]. intros Hok. unfold load_block.
  destruct (blk_reqs b) as [|r reqs] eqn:Hreqs; [done|]. cbn [Py.nonempty negb].
  case_bool_decide as Hseen; [discriminate|]. intros [= <-].
  match goal with |- loaded_ok _ (_ ++ [?it], _) =>
    apply (loaded_ok_snoc _ items seen it); [done..|] end.
  split; simpl; eauto.
Qed.

Lemma load_test_annotations_inv fs rel_dirs items :
  load_test_annotations fs rel_dirs = Ok items →
  NoDup (ids items) ∧ Forall scanned items.
Proof.
  unfold load_test_annotations.
  intros ([items' seen] & Hloop & [= <-])%bind_Ok.
  eapply (for_each_inv (loaded_ok scanned)) in Hloop.
  - destruct Hloop as (? & _ & ?). done.
  - intros st rel_dir st' Hst. destruct (fs rel_dir) as [|d]; [done|].
    apply for_each_inv; [|done]. intros st1 f st1' Hst1.
    unfold load_scan_file. destruct (sf_read f) as [content|];
      [|by intros [= <-]].
    intros (blocks & _ & H)%bind_Ok.
    destruct (negb _); [by injection H as <-|].
    revert H. apply for_each_inv; [|done].
    intros st2 b st2'. apply load_block_inv.
  - split_and!; [constructor|intros x []%elem_of_nil|constructor].
Qed.

Lemma load_block_missing_reqs rel st b :
  blk_reqs b = [] →
  load_block rel st b
  = Raise (ValueError ("Missing HODOR-REQS in " +:+ rel +:+ ":"
                       +:+ Py.str_of_nat (blk_start_line b))).
Proof. destruct st. unfold load_block. by intros ->. Qed.

Lemma dict_get_Ok data key v :
  dict_get data key = Ok v → ∀ key', ∃ v', dict_get data key' = Ok v'.
Proof. destruct data; try discriminate. simpl. eauto. Qed.

Lemma load_item_duplicate items (seen : gset string) f u :
  Py.mem (if_name f) SKIP_NAMES = false →
  file_uid str_other f = Ok u → u ∈ seen →
  load_item str_other (items, seen) f
  = Raise (ValueError ("Duplicate item id '" +:+ u +:+ "' in " +:+ if_str f)).
Proof.
  intros Hskip Huid Hseen. unfold load_item, file_uid in *. rewrite Hskip.
  apply bind_Ok in Huid as (loaded & -> & Huid). cbn.
  apply bind_Ok in Huid as (uid_field & -> & [= <-]). cbn.
  by rewrite bool_decide_eq_true_2.
Qed.

Lemma load_item_fresh items (seen : gset string) f u :
  Py.mem (if_name f) SKIP_NAMES = false →
  file_uid str_other f = Ok u → u ∉ seen →
  ∃ it, load_item str_other (items, seen) f
        = Ok (items ++ [it], seen ∪ {[u]}) ∧ it_id it = u.
Proof.
  intros Hskip Huid Hseen. unfold load_item, file_uid in *. rewrite Hskip.
  apply bind_Ok in Huid as (loaded & -> & Huid). cbn.
  apply bind_Ok in Huid as (uid_field & Hget & [= <-]).
  rewrite Hget. cbn. rewrite bool_decide_eq_false_2 by done.
  destruct (dict_get_Ok _ _ _ Hget "text") as [? ->].
  destruct (dict_get_Ok _ _ _ Hget "title") as [? ->].
  destruct (dict_get_Ok _ _ _ Hget "links") as [? ->]. cbn.
  eexists. split; reflexivity.
Qed.

(** Two item files that declare the same uid. *)
Lemma load_items_two_files fs rel_dir d f1 f2 u label :
  fs rel_dir = inr d →
  dir_rglob d "*.yml" = [f1; f2] →
  Py.mem (if_name f1) SKIP_NAMES = false →
  Py.mem (if_name f2) SKIP_NAMES = false →
  file_uid str_other f1 = Ok u → file_uid str_other f2 = Ok u →
  load_items str_other fs [rel_dir] label
  = Raise (ValueError ("Duplicate item id '" +:+ u +:+ "' in " +:+ if_str f2)).
Proof.
  intros Hfs Hyml Hs1 Hs2 Hu1 Hu2. unfold load_items. cbn [for_each].
  rewrite Hfs. cbn [for_each]. rewrite Hyml. cbn [for_each].
  destruct (load_item_fresh [] ∅ f1 u Hs1 Hu1) as (it & -> & _);
    [apply not_elem_of_empty|]. cbn [mbind result_bind].
  rewrite (load_item_duplicate _ _ f2 u Hs2 Hu2); [done|set_solver].
Qed.

Lemma load_item_skipped st f :
  kept f = false → load_item str_other st f = Ok st.
Proof.
  destruct st. unfold kept, load_item.
  by destruct (Py.mem _ _).
Qed.

Lemma load_items_visited fs rel_dirs label :
  forallb (exists_dir fs) rel_dirs = true →
  load_items str_other fs rel_dirs label
  = (for_each (visited_files fs rel_dirs) (load_item str_other) ([], ∅)
     ≫= λ st, Ok st.1).
Proof.
  unfold load_items, visited_files. generalize (([], ∅) : load_state).
  induction rel_dirs as [|rel_dir rel_dirs IH]; intros st Hdirs.
  - by destruct st.
  - simpl in Hdirs. apply andb_true_iff in Hdirs as [Hdir Hdirs].
    cbn [for_each mbind list_bind]. unfold exists_dir in Hdir.
    destruct (fs rel_dir) as [|d]; [done|].
    rewrite !for_each_app. cbn [for_each].
    destruct (for_each (dir_rglob d "*.yml") _ st) as [st1|e]; [|done].
    cbn [mbind result_bind].
    destruct (for_each (dir_rglob d "*.yaml") _ st1) as [st2|e]; [|done].
    cbn [mbind result_bind]. by apply IH.
Qed.

(** The first file whose uid was claimed before raises. *)
Lemma load_item_loop_duplicate files : ∀ items (seen : gset string) us,
  file_uid str_other <$> List.filter kept files = Ok <$> us →
  ¬ (NoDup us ∧ Forall (λ u, u ∉ seen) us) →
  ∃ pre f post u,
    List.filter kept files = pre ++ f :: post
    ∧ file_uid str_other f = Ok u
    ∧ (u ∈ seen ∨ ∃ f0, f0 ∈ pre ∧ file_uid str_other f0 = Ok u)
    ∧ for_each files (load_item str_other) (items, seen)
      = Raise (ValueError ("Duplicate item id '" +:+ u +:+ "' in "
                           +:+ if_str f)).
Proof.
  induction files as [|f files IH]; intros items seen us Hus Hdup.
  - destruct us; [|done]. destruct Hdup. split; constructor.
  - cbn [List.filter] in *. destruct (kept f) eqn:Hkept.
    + destruct us as [|u us]; [done|]. injection Hus as Hu Hus.
      assert (Py.mem (if_name f) SKIP_NAMES = false) as Hskip.
      { unfold kept in Hkept. by destruct (Py.mem _ _). }
      cbn [for_each]. destruct (decide (u ∈ seen)) as [Hin|Hnew].
      * exists [], f, (List.filter kept files), u.
        rewrite (load_item_duplicate _ _ f u Hskip Hu Hin). eauto.
      * destruct (load_item_fresh items seen f u Hskip Hu Hnew)
          as (it & -> & _). cbn [mbind result_bind].
        destruct (IH (items ++ [it]) (seen ∪ {[u]}) us Hus)
          as (pre & f' & post & u' & -> & Hu' & Hwhere & ->).
        { intros [Hnd Hall]. apply Hdup. split.
          - constructor; [|done]. intros Hin.
            rewrite Forall_forall in Hall. apply (Hall u Hin). set_solver.
          - constructor; [done|]. eapply Forall_impl; [done|].
            intros x Hx. set_solver. }
        exists (f :: pre), f', post, u'. split_and!; [done..| |done].
        destruct Hwhere as [[Hs| ->%elem_of_singleton]%elem_of_union
                           |(f0 & Hf0 & Hu0)].
        -- by left.
        -- right. exists f. split; [by left|done].
        -- right. exists f0. split; [by right|done].
    + cbn [for_each]. rewrite load_item_skipped by done.
      cbn [mbind result_bind]. by apply (IH items seen us).
Qed.

(** Some id claimed twice by the files of a load, all directories being
    there and every kept file having an id. *)
Lemma load_items_duplicate fs rel_dirs label us :
  forallb (exists_dir fs) rel_dirs = true →
  file_uid str_other <$> List.filter kept (visited_files fs rel_dirs)
  = Ok <$> us →
  ¬ NoDup us →
  ∃ pre f post u f0,
    List.filter kept (visited_files fs rel_dirs) = pre ++ f :: post
    ∧ file_uid str_other f = Ok u
    ∧ f0 ∈ pre ∧ file_uid str_other f0 = Ok u
    ∧ load_items str_other fs rel_dirs label
      = Raise (ValueError ("Duplicate item id '" +:+ u +:+ "' in "
                           +:+ if_str f)).
Proof.
  intros Hdirs Hus Hdup. rewrite load_items_visited by done.
  destruct (load_item_loop_duplicate _ [] ∅ us Hus)
    as (pre & f & post & u & Hsplit & Hu & [[]%elem_of_empty|(f0 & ? & ?)]
        & ->).
  { intros [Hnd _]. done. }
  exists pre, f, post, u, f0. done.
Qed.
Lemma with_refs_scanned t : scanned t → with_refs t = t.
Proof. intros [_ [refs Hrefs]]. unfold with_refs. by rewrite Hrefs. Qed.

Lemma req_ids_resolve reqs tests root p :
  resolve utc_now reqs tests root = Ok p →
  req_ids p = ids reqs
  ∧ test_ids p = ids tests
  ∧ ts_item <$> pl_tests p = with_refs <$> tests
  ∧ NoDup (ids tests).
Proof.
  intros (Hnd & r2t & t2r & ->)%resolve_Ok.
  unfold req_ids, test_ids, ids. simpl.
  rewrite <- !list_fmap_compose. split_and!; [done| |done|done].
  apply list_fmap_ext. intros i t _. simpl. apply id_with_refs.
Qed.

(** What a normal return of [build_payload] says of the three loads. *)
Lemma build_payload_Ok fs req_dirs test_item_dirs test_scan_dirs root p :
  build_payload str_other utc_now fs req_dirs test_item_dirs test_scan_dirs
    root = Ok p →
  ∃ reqs item_tests scan_tests,
    load_items str_other fs req_dirs "Requirement" = Ok reqs
    ∧ (if Py.nonempty test_item_dirs
       then load_items str_other fs test_item_dirs "Test" else Ok [])
      = Ok item_tests
    ∧ (if Py.nonempty test_scan_dirs
       then load_test_annotations fs test_scan_dirs else Ok [])
      = Ok scan_tests
    ∧ resolve utc_now reqs (item_tests ++ scan_tests) root = Ok p.
Proof.
  unfold build_payload. intros (reqs & Hreqs & H)%bind_Ok.
  apply bind_Ok in H as (item_tests & Hitems & H).
  apply bind_Ok in H as (scan_tests & Hscan & H).
  by exists reqs, item_tests, scan_tests.
Qed.

(** C10, as the script has it.  A record of the item loader has no [refs]
    key, and [build_payload] gives it the list read from its text: the
    entries (stripped lines that start with a dash and a blank, without
    these two characters) that follow the first line whose stripped
    content is [References:], further such header lines being passed over,
    up to the first other line that is not an entry, a blank line
    included; without a header line the list is empty. *)
Theorem declarative_test_references :
  (∀ fs rel_dirs label items,
     load_items str_other fs rel_dirs label = Ok items →
     Forall (λ t, it_refs t = None) items)
  ∧ (∀ reqs tests root p i t,
       resolve utc_now reqs tests root = Ok p →
       tests !! i = Some t → it_refs t = None →
       ∃ t', pl_tests p !! i = Some t'
             ∧ it_text (ts_item t') = it_text t
             ∧ it_refs (ts_item t')
               = Some (refs_skipping_headers (Py.splitlines (it_text t))))
  ∧ (∀ lines,
       Forall (λ line, is_refs_header line = false) lines →
       refs_skipping_headers lines = []).
Proof.
  split_and!.
  - intros fs rel_dirs label items H. by apply load_items_inv in H as [_ ?].
  - intros reqs tests root p i t (_ & r2t & t2r & ->)%resolve_Ok Hi Hrefs.
    simpl. rewrite !list_lookup_fmap, Hi. simpl. eexists. split; [done|].
    unfold with_refs. rewrite Hrefs. simpl. by rewrite extract_refs_spec.
  - intros lines Hall. unfold refs_skipping_headers, after_header.
    induction Hall as [|line lines Hline _ IH]; [done|].
    simpl. by rewrite Hline.
Qed.
End Loaders.

Lemma declarative_test_without_links :
  ∃ p, build_payload Examples.str_scalar "2026-01-01 00:00:00Z"
         Examples.fs_unlinked ["reqs/mon"] ["reqs/tst"] [] "." = Ok p
       ∧ (λ t, it_links (ts_item t)) <$> pl_tests p = [[]].
Proof. eexists. split; vm_compute; reflexivity. Qed.

Lemma duplicate_error_names_second_file_only :
  load_items Examples.str_scalar Examples.fs_duplicate ["reqs/mon"]
    "Requirement"
  = Raise (ValueError "Duplicate item id 'R1' in /repo/reqs/mon/b/two.yml")
  ∧ Py.contains (if_str Examples.first_file)
      "Duplicate item id 'R1' in /repo/reqs/mon/b/two.yml" = false
  ∧ Py.contains (if_str Examples.second_file)
      "Duplicate item id 'R1' in /repo/reqs/mon/b/two.yml" = true.
Proof. split_and!; vm_compute; reflexivity. Qed.

Lemma declarative_test_references_witness :
  ∃ t', pl_tests Examples.the_payload !! 0%nat = Some t'
        ∧ it_text (ts_item t') = it_text Examples.T1
        ∧ it_refs (ts_item t')
          = Some (refs_skipping_headers
                    (Py.splitlines (it_text Examples.T1))).
Proof.
  apply (proj1 (proj2 (declarative_test_references
                         Examples.str_scalar "2026-01-01 00:00:00Z"))
           Examples.reqs Examples.tests "." Examples.the_payload 0%nat
           Examples.T1);
    vm_compute; reflexivity.
Defined.

Lemma second_header_does_not_stop_collection :
  extract_refs Examples.text_two_headers = ["a"; "b"]
  ∧ refs_as_specified (Py.splitlines Examples.text_two_headers) = ["a"].
Proof. split; vm_compute; reflexivity. Qed.


(** * Further properties *)

Lemma lstrip_idemp s : Py.lstrip (Py.lstrip s) = Py.lstrip s.
Proof.
  induction s as [|c s IH]; simpl; [done|].
  destruct (Py.isspace c) eqn:Hc; [done|]. simpl. by rewrite Hc.
Qed.

Lemma rstrip_cons_fixed c s :
  Py.rstrip (String c s) = String c s → Py.rstrip s = s.
Proof.
  simpl. destruct (Py.rstrip s) as [|c' r] eqn:Hr.
  - destruct (Py.isspace c); [done|]. by intros [= <-].
  - by intros [= <-].
Qed.

Lemma rstrip_lstrip_fixed s :
  Py.rstrip s = s → Py.rstrip (Py.lstrip s) = Py.lstrip s.
Proof.
  induction s as [|c s IH]; intros Hs; [done|].
  cbn [Py.lstrip]. destruct (Py.isspace c); [|done].
  apply IH. by eapply rstrip_cons_fixed.
Qed.

Lemma strip_idemp s : Py.strip (Py.strip s) = Py.strip s.
Proof.
  unfold Py.strip.
  rewrite (rstrip_lstrip_fixed (Py.rstrip s)) by apply rstrip_idemp.
  apply lstrip_idemp.
Qed.

Lemma strip_fixed s :
  Py.strip s = s → Py.lstrip s = s ∧ Py.rstrip s = s.
Proof.
  intros Hs. split.
  - rewrite <- Hs at 1. unfold Py.strip. rewrite lstrip_idemp. exact Hs.
  - rewrite <- Hs at 1. unfold Py.strip.
    rewrite rstrip_lstrip_fixed by apply rstrip_idemp. exact Hs.
Qed.

Lemma all_chars_lstrip p s :
  all_chars p s = true → all_chars p (Py.lstrip s) = true.
Proof.
  induction s as [|c s IH]; [done|]. intros H. cbn [Py.lstrip].
  destruct (Py.isspace c); [|done]. simpl in H.
  apply andb_true_iff in H as [_ H]. by apply IH.
Qed.

Lemma all_chars_rstrip p s :
  all_chars p s = true → all_chars p (Py.rstrip s) = true.
Proof.
  induction s as [|c s IH]; [done|]. simpl. intros [Hc Hs]%andb_true_iff.
  specialize (IH Hs). destruct (Py.rstrip s) as [|c' r].
  - destruct (Py.isspace c); [done|]. simpl. by rewrite Hc.
  - simpl in *. by rewrite Hc, IH.
Qed.

Lemma all_chars_strip p s :
  all_chars p s = true → all_chars p (Py.strip s) = true.
Proof. intros H. by apply all_chars_lstrip, all_chars_rstrip. Qed.

Lemma split_cons sep c s :
  Py.split sep (String c s)
  = if Ascii.eqb c sep then EmptyString :: Py.split sep s
    else match Py.split sep s with
         | p :: ps => String c p :: ps
         | [] => [String c EmptyString]
         end.
Proof. done. Qed.

(** The pieces of a split keep what holds of every character, and hold no
    separator. *)
Lemma split_pieces p sep s :
  all_chars p s = true →
  Forall (λ piece, all_chars p piece = true
                   ∧ all_chars (λ c, negb (Ascii.eqb c sep)) piece = true)
    (Py.split sep s).
Proof.
  induction s as [|c s IH]; intros H.
  - by repeat constructor.
  - simpl in H. apply andb_true_iff in H as [Hc Hs]. specialize (IH Hs).
    rewrite split_cons. destruct (Ascii.eqb c sep) eqn:Hsep.
    + constructor; [done|exact IH].
    + destruct (Py.split sep s) as [|piece ps].
      * repeat constructor; simpl; by rewrite ?Hc, ?Hsep.
      * apply Forall_cons in IH as [[H1 H2] IH].
        constructor; [|done]. simpl. by rewrite Hc, Hsep, H1, H2.
Qed.

Lemma replace_semicolon s :
  all_chars (λ c, negb (Ascii.eqb c ";")) (Py.replace ";" "," s) = true.
Proof.
  induction s as [|c s IH]; [done|]. simpl. rewrite IH.
  by destruct (Ascii.eqb c ";") eqn:Hc; rewrite ?Hc.
Qed.

Lemma all_chars_and p q s :
  all_chars p s = true → all_chars q s = true →
  all_chars (λ c, p c && q c) s = true.
Proof.
  induction s as [|c s IH]; [done|]. simpl.
  intros [-> ?]%andb_true_iff [-> ?]%andb_true_iff. by rewrite IH.
Qed.

Lemma all_chars_ext p q s :
  (∀ c, p c = q c) → all_chars p s = all_chars q s.
Proof. intros H. induction s as [|c s IH]; simpl; [done|]. by rewrite H, IH. Qed.

Lemma split_list_Forall_entry value : Forall list_entry (split_list value).
Proof.
  unfold split_list. apply Forall_forall. intros x Hx.
  apply list_elem_of_In, filter_In in Hx as [Hx Hne].
  apply list_elem_of_In, list_elem_of_fmap in Hx as (piece & -> & Hpiece).
  pose proof (split_pieces _ "," _ (replace_semicolon value)) as Hall.
  rewrite Forall_forall in Hall. destruct (Hall _ Hpiece) as [Hsemi Hcomma].
  split_and!.
  - by destruct (Py.strip piece).
  - apply strip_idemp.
  - apply all_chars_strip.
    rewrite (all_chars_ext _
      (λ c, negb (Ascii.eqb c ",") && negb (Ascii.eqb c ";"))).
    + by apply all_chars_and.
    + intros c. unfold is_list_separator. by rewrite negb_orb.
Qed.

Lemma strip_all_space s :
  all_chars Py.isspace s = true → Py.strip s = EmptyString.
Proof.
  intros H. unfold Py.strip. apply lstrip_all_space. by apply all_chars_rstrip.
Qed.

Lemma replace_separators s :
  all_chars (λ c, Py.isspace c || is_list_separator c) s = true →
  all_chars (λ c, Py.isspace c || Ascii.eqb c ",") (Py.replace ";" "," s)
  = true.
Proof.
  induction s as [|c s IH]; [done|]. simpl. intros [Hc Hs]%andb_true_iff.
  rewrite (IH Hs), andb_true_r. unfold is_list_separator in Hc.
  destruct (Ascii.eqb c ";") eqn:Hsemi; [done|].
  by rewrite orb_false_r in Hc.
Qed.

(** X1.  Every entry that [split_list] returns is non-empty, has no white
    space around it and holds neither a comma nor a semicolon; a value made
    of white space and separators only has no entries. *)
Theorem split_list_entries value :
  Forall list_entry (split_list value)
  ∧ (all_chars (λ c, Py.isspace c || is_list_separator c) value = true →
     split_list value = []).
Proof.
  split; [apply split_list_Forall_entry|]. intros Hblank. unfold split_list.
  pose proof (split_pieces _ "," _ (replace_separators value Hblank)) as Hall.
  induction Hall as [|piece pieces [Hpiece Hcomma] _ IH]; [done|].
  rewrite fmap_cons. cbn [List.filter].
  rewrite strip_all_space; [exact IH|].
  clear IH. induction piece as [|c piece IH]; [done|]. simpl in *.
  apply andb_true_iff in Hpiece as [Hc Hpiece].
  apply andb_true_iff in Hcomma as [Hnc Hcomma].
  rewrite (IH Hpiece Hcomma), andb_true_r.
  apply negb_true_iff in Hnc. by rewrite Hnc, orb_false_r in Hc.
Qed.

Lemma split_list_entries_witness :
  Forall list_entry (split_list "R1, R2;R3") ∧ split_list " ,; , " = [].
Proof.
  split.
  - exact (proj1 (split_list_entries "R1, R2;R3")).
  - apply (proj2 (split_list_entries " ,; , ")). vm_compute. reflexivity.
Defined.

Lemma string_app_assoc (s t u : string) : (s +:+ t) +:+ u = s +:+ t +:+ u.
Proof.
  induction s as [|c s IH]; [done|].
  change (String c ((s +:+ t) +:+ u) = String c (s +:+ t +:+ u)).
  by rewrite IH.
Qed.

Lemma all_chars_app p s t :
  all_chars p (s +:+ t) = all_chars p s && all_chars p t.
Proof.
  induction s as [|c s IH]; simpl; [done|]. by rewrite IH, andb_assoc.
Qed.


Lemma replace_unchanged a b s :
  all_chars (λ c, negb (Ascii.eqb c a)) s = true → Py.replace a b s = s.
Proof.
  induction s as [|c s IH]; simpl; [done|].
  intros [Hc Hs]%andb_true_iff. apply negb_true_iff in Hc.
  by rewrite Hc, IH.
Qed.

Lemma replace_app a b s t :
  Py.replace a b (s +:+ t) = Py.replace a b s +:+ Py.replace a b t.
Proof. induction s as [|c s IH]; simpl; [done|]. by rewrite IH. Qed.

Lemma split_none sep s :
  all_chars (λ c, negb (Ascii.eqb c sep)) s = true → Py.split sep s = [s].
Proof.
  induction s as [|c s IH]; [done|]. simpl all_chars.
  intros [Hc Hs]%andb_true_iff. apply negb_true_iff in Hc.
  by rewrite split_cons, Hc, (IH Hs).
Qed.

Lemma split_app_sep sep s rest :
  all_chars (λ c, negb (Ascii.eqb c sep)) s = true →
  Py.split sep (s +:+ String sep rest) = s :: Py.split sep rest.
Proof.
  induction s as [|c s IH].
  - intros _. simpl. by rewrite Ascii.eqb_refl.
  - simpl all_chars. intros [Hc Hs]%andb_true_iff. apply negb_true_iff in Hc.
    change (String c s +:+ String sep rest)
      with (String c (s +:+ String sep rest)).
    by rewrite split_cons, Hc, (IH Hs).
Qed.

Lemma lstrip_space_app ws s :
  all_chars Py.isspace ws = true → Py.lstrip (ws +:+ s) = Py.lstrip s.
Proof.
  induction ws as [|c ws IH]; [done|]. simpl.
  intros [-> Hws]%andb_true_iff. by apply IH.
Qed.

Lemma rstrip_app_fixed ws s :
  s ≠ EmptyString → Py.rstrip s = s → Py.rstrip (ws +:+ s) = ws +:+ s.
Proof.
  intros Hne Hs. induction ws as [|c ws IH]; [done|].
  change (String c ws +:+ s) with (String c (ws +:+ s)).
  cbn [Py.rstrip]. rewrite IH.
  destruct (ws +:+ s) eqn:Happ; [|done].
  destruct ws; [|done]. simpl in Happ. by subst.
Qed.

Lemma strip_space_app ws s :
  all_chars Py.isspace ws = true → s ≠ EmptyString → Py.strip s = s →
  Py.strip (ws +:+ s) = s.
Proof.
  intros Hws Hne Hs. destruct (strip_fixed s Hs) as [Hl Hr].
  unfold Py.strip. rewrite rstrip_app_fixed, lstrip_space_app by done. done.
Qed.

Lemma isspace_not_separator c :
  Py.isspace c = true → is_list_separator c = false.
Proof. destruct c as [[] [] [] [] [] [] [] []]; done. Qed.

Lemma all_chars_impl (p q : ascii → bool) s :
  (∀ c, p c = true → q c = true) →
  all_chars p s = true → all_chars q s = true.
Proof.
  intros Hpq. induction s as [|c s IH]; simpl; [done|].
  intros [Hc Hs]%andb_true_iff. by rewrite (Hpq c Hc), IH.
Qed.

Lemma not_separator_comma c :
  negb (is_list_separator c) = true → negb (Ascii.eqb c ",") = true.
Proof. unfold is_list_separator. by destruct (Ascii.eqb c ","). Qed.

Lemma not_separator_semicolon c :
  negb (is_list_separator c) = true → negb (Ascii.eqb c ";") = true.
Proof.
  unfold is_list_separator. destruct (Ascii.eqb c ";"); [|done].
  by rewrite orb_true_r.
Qed.

(** The pieces of entries joined by a comma and white space. *)
Lemma split_join_entries ws head entries :
  all_chars (λ c, negb (Ascii.eqb c ",")) head = true →
  all_chars (λ c, negb (Ascii.eqb c ",")) ws = true →
  Forall list_entry entries →
  Py.split "," (Py.join (String "," ws) (head :: entries))
  = head :: ((λ x, ws +:+ x) <$> entries).
Proof.
  intros Hhead Hws Hall. revert head Hhead.
  induction Hall as [|x entries Hx _ IH]; intros head Hhead.
  - simpl. by apply split_none.
  - change (Py.join (String "," ws) (head :: x :: entries))
      with (head +:+ String "," ws +:+ Py.join (String "," ws) (x :: entries)).
    change (String "," ws +:+ Py.join (String "," ws) (x :: entries))
      with (String "," (ws +:+ Py.join (String "," ws) (x :: entries))).
    rewrite split_app_sep by done. f_equal.
    assert (ws +:+ Py.join (String "," ws) (x :: entries)
            = Py.join (String "," ws) ((ws +:+ x) :: entries)) as ->.
    { destruct entries; [done|]. cbn [Py.join]. by rewrite string_app_assoc. }
    rewrite IH; [done|]. rewrite all_chars_app, Hws. simpl.
    destruct Hx as (_ & _ & Hx).
    by apply (all_chars_impl _ _ _ not_separator_comma).
Qed.

(** X2.  Entries joined by a comma or a semicolon followed by white space are
    read back by [split_list] as they were. *)
Theorem split_list_join (sep : ascii) ws entries :
  is_list_separator sep = true →
  all_chars Py.isspace ws = true →
  Forall list_entry entries →
  split_list (Py.join (String sep ws) entries) = entries.
Proof.
  intros Hsep Hws Hall. unfold split_list.
  assert (all_chars (λ c, negb (is_list_separator c)) ws = true) as Hws'.
  { eapply all_chars_impl; [|done]. intros c Hc.
    by rewrite isspace_not_separator. }
  assert (Py.replace ";" "," (Py.join (String sep ws) entries)
          = Py.join (String "," ws) entries) as ->.
  { assert (Py.replace ";" "," (String sep ws) = String "," ws) as Hrep.
    { simpl. rewrite replace_unchanged
        by by apply (all_chars_impl _ _ _ not_separator_semicolon).
      unfold is_list_separator in Hsep.
      destruct (Ascii.eqb sep ";") eqn:Hs; [done|].
      rewrite orb_false_r in Hsep. by apply Ascii.eqb_eq in Hsep as ->. }
    induction Hall as [|x entries Hx Hall IH]; [done|].
    destruct Hx as (_ & _ & Hx).
    pose proof (replace_unchanged ";" "," x
      (all_chars_impl _ _ _ not_separator_semicolon Hx)) as Hxrep.
    destruct entries as [|y entries]; [done|].
    cbn [Py.join]. rewrite !replace_app, Hxrep, Hrep. f_equal. f_equal.
    apply IH. }
  destruct Hall as [|x entries Hx Hall]; [done|].
  rewrite split_join_entries; try done.
  - rewrite fmap_cons. cbn [List.filter].
    destruct Hx as (Hne & Hstrip & _). rewrite Hstrip.
    destruct x; [done|]. cbn [Py.truthy]. f_equal.
    induction Hall as [|y entries Hy Hall IH]; [done|].
    rewrite !fmap_cons. destruct Hy as (Hyne & Hystrip & _).
    rewrite strip_space_app by done. cbn [List.filter].
    destruct y; [done|]. cbn [Py.truthy]. by rewrite IH.
  - destruct Hx as (_ & _ & Hx).
    by apply (all_chars_impl _ _ _ not_separator_comma).
  - by apply (all_chars_impl _ _ _ not_separator_comma).
Qed.

Lemma split_list_join_witness :
  split_list (Py.join ", " ["R1"; "R2"; "R3"]) = ["R1"; "R2"; "R3"].
Proof.
  apply (split_list_join "," " " ["R1"; "R2"; "R3"]);
    [vm_compute; reflexivity..|].
  repeat first [apply Forall_nil_2 | apply Forall_cons_2];
    (split_and!; [discriminate|vm_compute; reflexivity..]).
Defined.

Lemma span_spec p s a b :
  Re.span p s = (a, b) → all_chars p a = true ∧ s = a +:+ b.
Proof.
  revert a b. induction s as [|c s IH]; intros a b; simpl.
  - by intros [= <- <-].
  - destruct (p c) eqn:Hc; [|by intros [= <- <-]].
    destruct (Re.span p s) as [a' b']. intros [= <- <-].
    destruct (IH a' b' eq_refl) as [Ha ->]. simpl. by rewrite Hc, Ha.
Qed.

Lemma literal_spec p s r : Re.literal p s = Some r → s = p +:+ r.
Proof.
  revert s. induction p as [|a p IH]; intros s; simpl.
  - by intros [= ->].
  - destruct s as [|b s]; [done|]. destruct (Ascii.eqb a b) eqn:Hab; [|done].
    apply Ascii.eqb_eq in Hab as ->. intros ->%IH. done.
Qed.

Lemma literal_app p r : Re.literal p (p +:+ r) = Some r.
Proof.
  induction p as [|a p IH]; [done|].
  change (String a p +:+ r) with (String a (p +:+ r)). simpl.
  by rewrite Ascii.eqb_refl.
Qed.

Lemma lstrip_no_space s :
  all_chars (λ c, negb (Py.isspace c)) s = true → Py.lstrip s = s.
Proof.
  destruct s as [|c s]; [done|]. simpl. intros [Hc _]%andb_true_iff.
  apply negb_true_iff in Hc. by rewrite Hc.
Qed.

Lemma rstrip_no_space s :
  all_chars (λ c, negb (Py.isspace c)) s = true → Py.rstrip s = s.
Proof.
  induction s as [|c s IH]; [done|]. simpl. intros [Hc Hs]%andb_true_iff.
  apply negb_true_iff in Hc. rewrite (IH Hs), Hc. by destruct s.
Qed.

Lemma upper_or_dash_no_space c :
  Re.upper_or_dash c = true → negb (Py.isspace c) = true.
Proof. destruct c as [[] [] [] [] [] [] [] []]; done. Qed.

(** X3.  When the directive pattern matches a line, the directive it
    captures is [HODOR-] followed by one or more capital letters or dashes
    and has no white space around it, and the captured value holds no line
    feed. *)
Theorem directive_match_shape line d v :
  DIRECTIVE_RE line = Some (d, v) →
  (∃ word, d = "HODOR-" +:+ word ∧ word ≠ EmptyString
           ∧ all_chars Re.upper_or_dash word = true)
  ∧ Py.strip d = d
  ∧ all_chars (λ c, negb (Ascii.eqb c Py.LF)) v = true.
Proof.
  unfold DIRECTIVE_RE.
  destruct (Re.literal _ _) as [s|]; [|done].
  destruct (Re.span Re.upper_or_dash s) as [word s'] eqn:Hspan.
  apply span_spec in Hspan as [Hword _].
  destruct word as [|c word]; [done|].
  destruct (Py.lstrip s') as [|colon s'']; [done|].
  destruct (Ascii.eqb_spec colon ":") as [->|Hne];
    [|by destruct colon as [[] [] [] [] [] [] [] []]].
  unfold Re.rest_of_line.
  destruct (Re.span _ (Py.lstrip s'')) as [value tail] eqn:Hv.
  apply span_spec in Hv as [Hvalue _].
  intros H.
  assert (d = "HODOR-" +:+ String c word ∧ v = value) as [-> ->].
  { destruct tail as [|? [|? ?]]; by inversion H. }
  split_and!; [by eexists| |done].
  assert (all_chars (λ c, negb (Py.isspace c)) ("HODOR-" +:+ String c word)
          = true) as Hns.
  { change (all_chars (λ c, negb (Py.isspace c)) (String c word) = true).
    by apply (all_chars_impl _ _ _ upper_or_dash_no_space). }
  unfold Py.strip. by rewrite rstrip_no_space, lstrip_no_space.
Qed.

Lemma directive_match_shape_witness :
  DIRECTIVE_RE "// HODOR-REQS: R2" = Some ("HODOR-REQS", "R2")
  ∧ (∃ word, "HODOR-REQS" = "HODOR-" +:+ word ∧ word ≠ EmptyString
             ∧ all_chars Re.upper_or_dash word = true)
  ∧ Py.strip "HODOR-REQS" = "HODOR-REQS"
  ∧ all_chars (λ c, negb (Ascii.eqb c Py.LF)) "R2" = true.
Proof.
  assert (DIRECTIVE_RE "// HODOR-REQS: R2" = Some ("HODOR-REQS", "R2")) as H
    by (vm_compute; reflexivity).
  split; [exact H|]. exact (directive_match_shape _ _ _ H).
Defined.

Lemma stars_not_star s : (∀ r, s ≠ String "*" r) → Re.stars s = s.
Proof.
  intros Hs. destruct s as [|c r]; [done|].
  destruct (Ascii.eqb_spec c "*") as [->|Hne]; [by destruct (Hs r)|].
  by destruct c as [[] [] [] [] [] [] [] []].
Qed.

Lemma star_run_app n s :
  star_run n +:+ s
  = String "*" (match n with 0 => s | S n' => star_run n' +:+ s end).
Proof. by destruct n. Qed.

Lemma stars_star_run n s :
  (∀ r, s ≠ String "*" r) → Re.stars (star_run n +:+ s) = s.
Proof.
  intros Hs. induction n as [|n IH]; rewrite star_run_app; simpl.
  - by apply stars_not_star.
  - exact IH.
Qed.

(** After a comment marker and white space, the directive is what is left
    for the rest of the pattern. *)
Lemma marker_then_directive m ws rest :
  comment_marker m → all_chars Py.isspace ws = true →
  Py.lstrip (Re.comment_marker (m +:+ ws +:+ "HODOR-" +:+ rest))
  = "HODOR-" +:+ rest.
Proof.
  intros Hm Hws.
  assert (∀ r, ws +:+ "HODOR-" +:+ rest ≠ String "*" r) as Hnostar.
  { intros r. destruct ws as [|c ws]; [done|]. simpl in Hws.
    apply andb_true_iff in Hws as [Hc _]. intros [= -> _]. done. }
  assert (Py.lstrip (ws +:+ "HODOR-" +:+ rest) = "HODOR-" +:+ rest) as Hl.
  { by rewrite lstrip_space_app. }
  destruct Hm as [| | | |n|n]; try exact Hl.
  - change (Re.comment_marker
              (String "/" (star_run n) +:+ ws +:+ "HODOR-" +:+ rest))
      with (Re.comment_marker
              (String "/" (star_run n +:+ ws +:+ "HODOR-" +:+ rest))).
    rewrite star_run_app. cbn [Re.comment_marker].
    change (Re.stars ?s) with (Re.stars (String "*" s)).
    rewrite <- star_run_app, stars_star_run by done. exact Hl.
  - rewrite star_run_app. cbn [Re.comment_marker].
    change (Re.stars ?s) with (Re.stars (String "*" s)).
    rewrite <- star_run_app, stars_star_run by done. exact Hl.
Qed.

Lemma comment_marker_no_space m s :
  comment_marker m → Py.lstrip (m +:+ s) = m +:+ s.
Proof. by intros [| | | |[|n]|[|n]]. Qed.

(** X4.  White space and one comment marker (a hash, two slashes, two
    dashes, a semicolon, a slash with stars, or stars) before a directive,
    with white space after the marker, do not change what the directive
    pattern captures; neither does white space alone. *)
Theorem comment_marker_is_ignored ws1 m ws2 rest :
  all_chars Py.isspace ws1 = true → all_chars Py.isspace ws2 = true →
  comment_marker m →
  DIRECTIVE_RE (ws1 +:+ m +:+ ws2 +:+ "HODOR-" +:+ rest)
  = DIRECTIVE_RE ("HODOR-" +:+ rest)
  ∧ DIRECTIVE_RE (ws1 +:+ "HODOR-" +:+ rest)
    = DIRECTIVE_RE ("HODOR-" +:+ rest).
Proof.
  intros Hws1 Hws2 Hm. unfold DIRECTIVE_RE.
  rewrite (lstrip_space_app ws1 (m +:+ ws2 +:+ "HODOR-" +:+ rest)) by done.
  rewrite (lstrip_space_app ws1 ("HODOR-" +:+ rest)) by done.
  rewrite comment_marker_no_space by done.
  rewrite marker_then_directive by done. split; reflexivity.
Qed.

Lemma comment_marker_is_ignored_witness :
  DIRECTIVE_RE ("  " +:+ "/**" +:+ " " +:+ "HODOR-" +:+ "REQS: R2")
  = DIRECTIVE_RE ("HODOR-" +:+ "REQS: R2")
  ∧ DIRECTIVE_RE ("  " +:+ "HODOR-" +:+ "REQS: R2")
    = DIRECTIVE_RE ("HODOR-" +:+ "REQS: R2").
Proof.
  apply (comment_marker_is_ignored "  " "/**" " " "REQS: R2");
    [vm_compute; reflexivity..|].
  exact (marker_block 1).
Defined.

Lemma for_enumerate_app {A St} n (l1 l2 : list A)
    (body : St → nat → A → result St) st :
  for_enumerate n (l1 ++ l2) body st
  = (for_enumerate n l1 body st ≫= for_enumerate (n + length l1) l2 body).
Proof.
  revert n st. induction l1 as [|x l1 IH]; intros n st.
  - simpl. by rewrite Nat.add_0_r.
  - rewrite <- app_comm_cons, !for_enumerate_cons.
    destruct (body st n x) as [st'|e]; [|done]. cbn [mbind result_bind].
    rewrite IH. simpl length. by rewrite Nat.add_succ_r.
Qed.

Lemma parse_line_idle_text label blocks n line :
  DIRECTIVE_RE line = None →
  parse_line label (blocks, None) n line = Ok (blocks, None).
Proof. intros H. unfold parse_line. by rewrite H. Qed.

Lemma parse_loop_no_directive label lines : ∀ n blocks,
  Forall (λ line, DIRECTIVE_RE line = None) lines →
  for_enumerate n lines (parse_line label) (blocks, None) = Ok (blocks, None).
Proof.
  induction lines as [|line lines IH]; intros n blocks Hall; [done|].
  apply Forall_cons in Hall as [Hline Hall].
  rewrite for_enumerate_cons, parse_line_idle_text by done.
  cbn [mbind result_bind]. by apply IH.
Qed.

(** X5.  A scanned file that cannot be decoded, or none of whose lines is
    a directive, leaves the records and the seen ids as they were. *)
Theorem file_without_directives_adds_nothing st f :
  match sf_read f with
  | Some content =>
      Forall (λ line, DIRECTIVE_RE line = None) (Py.splitlines content)
  | None => True
  end →
  load_scan_file st f = Ok st.
Proof.
  unfold load_scan_file. destruct (sf_read f) as [content|]; [|done].
  intros Hall. unfold parse_hodor_blocks.
  by rewrite parse_loop_no_directive.
Qed.

Lemma file_without_directives_adds_nothing_witness :
  load_scan_file ([Examples.T9], {["T9"]}) ScanExamples.b_go
  = Ok ([Examples.T9], {["T9"]}).
Proof.
  apply file_without_directives_adds_nothing.
  apply (bool_decide_unpack _). vm_compute. exact I.
Defined.





Lemma starts_run_same_start lines b c :
  blk_start_line b = blk_start_line c → starts_run lines c → starts_run lines b.
Proof. intros Heq (i & line & Hi & H). exists i, line. by rewrite Heq. Qed.

Lemma is_directive_line_Some line d v :
  DIRECTIVE_RE line = Some (d, v) → is_directive_line line = true.
Proof. unfold is_directive_line. by intros ->. Qed.

Lemma is_directive_line_None line :
  DIRECTIVE_RE line = None → is_directive_line line = false.
Proof. unfold is_directive_line. by intros ->. Qed.

Lemma run_start_lines all s n lines out :
  seg_run s n lines out →
  ∀ pre, all = pre ++ lines → n = S (length pre) → state_inv all pre s →
  Forall (starts_run all) out
  ∧ Forall (λ b, (lower_start s n ≤ blk_start_line b)%nat) out
  ∧ StronglySorted lt (blk_start_line <$> out).
Proof.
  induction 1 as [n|c n|s n line s' out lines outs Hstep Hrun IH];
    intros pre Hall Hn Hinv.
  - split_and!; constructor.
  - destruct Hinv as [Hc Hle]. split_and!; repeat constructor; done.
  - assert (all !! length pre = Some line) as Hline.
    { rewrite Hall. by rewrite lookup_app_r, Nat.sub_diag by lia. }
    assert (all = (pre ++ [line]) ++ lines) as Hall'.
    { by rewrite <- app_assoc. }
    assert (S n = S (length (pre ++ [line]))) as Hn'.
    { rewrite length_app. simpl. lia. }
    specialize (IH (pre ++ [line]) Hall' Hn').
    destruct Hstep as [n line d v b Hre Hb|c n line d v b Hre Hb
                      |c n line Hre|n line Hre]; simpl in *.
    + apply apply_directive_start_line in Hb. simpl in Hb.
      destruct IH as (H1 & H2 & H3).
      { split; [|rewrite length_app; simpl; lia].
        exists (length pre), line. split_and!; [lia|done| |].
        - by eapply is_directive_line_Some.
        - destruct Hinv as [->|(prev & Hlast & Hprev)]; [by left|].
          right. exists prev. split; [|done].
          rewrite Hall, lookup_app_l.
          + rewrite last_lookup in Hlast.
            by replace (length pre - 1) with (pred (length pre)) by lia.
          + destruct pre; [done|]. simpl. lia. }
      split_and!; [done| |done].
      eapply Forall_impl; [done|]. simpl. intros x. lia.
    + apply apply_directive_start_line in Hb.
      destruct Hinv as [Hc Hle]. destruct IH as (H1 & H2 & H3).
      { split; [by eapply starts_run_same_start|].
        rewrite length_app. simpl. lia. }
      split_and!; [done| |done].
      eapply Forall_impl; [done|]. simpl. intros x. lia.
    + destruct Hinv as [Hc Hle]. destruct IH as (H1 & H2 & H3).
      { right. exists line. rewrite last_snoc.
        split; [done|by apply is_directive_line_None]. }
      split_and!.
      * by constructor.
      * constructor; [done|]. eapply Forall_impl; [done|]. simpl.
        intros x. lia.
      * constructor; [done|]. apply Forall_fmap.
        eapply Forall_impl; [done|]. simpl. intros x. lia.
    + destruct IH as (H1 & H2 & H3).
      { right. exists line. rewrite last_snoc.
        split; [done|by apply is_directive_line_None]. }
      split_and!; [done| |done].
      eapply Forall_impl; [done|]. simpl. intros x. lia.
Qed.

Lemma parse_hodor_blocks_run lines label blocks :
  parse_hodor_blocks lines label = Ok blocks → seg_run Idle 1 lines blocks.
Proof.
  rewrite parse_hodor_blocks_closing.
  intros ([blocks' current'] & Hloop & [= <-])%bind_Ok.
  apply parse_loop_run in Hloop as (out & Hrun & Heq).
  simpl in *. by rewrite Heq.
Qed.

(** X7.  The start line of every parsed block is the number of a directive
    line that is the first line of the file or follows a line that is no
    directive, and the start lines grow strictly along the list of
    blocks. *)
Theorem block_start_lines lines label blocks :
  parse_hodor_blocks lines label = Ok blocks →
  Forall (starts_run lines) blocks
  ∧ StronglySorted lt (blk_start_line <$> blocks).
Proof.
  intros Hrun%parse_hodor_blocks_run.
  destruct (run_start_lines lines _ _ _ _ Hrun [] eq_refl eq_refl)
    as (H1 & _ & H3); [by left|done].
Qed.

Lemma block_start_lines_witness :
  Forall (starts_run Examples.lines_one_block) [Examples.block_T9]
  ∧ StronglySorted lt (blk_start_line <$> [Examples.block_T9]).
Proof.
  assert (parse_hodor_blocks Examples.lines_one_block "src/a.go"
          = Ok [Examples.block_T9]) as H by (vm_compute; reflexivity).
  exact (block_start_lines _ _ _ H).
Defined.

Lemma StronglySorted_lt_NoDup (l : list nat) : StronglySorted lt l → NoDup l.
Proof.
  induction 1 as [|x l _ IH Hall]; constructor; [|done].
  intros Hin. rewrite Forall_forall in Hall. specialize (Hall x Hin). lia.
Qed.

Lemma StronglySorted_filter_start (p : block → bool) blocks :
  StronglySorted lt (blk_start_line <$> blocks) →
  StronglySorted lt (blk_start_line <$> List.filter p blocks).
Proof.
  induction blocks as [|b blocks IH]; [done|]. rewrite fmap_cons.
  intros [Hs Hall]%StronglySorted_inv. cbn [List.filter].
  destruct (p b); [|by apply IH]. rewrite fmap_cons. constructor; [by apply IH|].
  rewrite Forall_fmap in Hall |- *.
  apply Forall_forall. intros x Hx.
  apply list_elem_of_In, filter_In in Hx as [Hx _].
  rewrite Forall_forall in Hall. apply Hall. by apply list_elem_of_In.
Qed.

(** X8.  The blocks of one file that carry no explicit id get effective
    ids that differ from each other. *)
Theorem synthesized_ids_of_a_file_differ lines label rel blocks :
  parse_hodor_blocks lines label = Ok blocks →
  NoDup (effective_id rel
           <$> List.filter (λ b, negb (has_explicit_id b)) blocks).
Proof.
  intros Hrun%parse_hodor_blocks_run.
  destruct (run_start_lines lines _ _ _ _ Hrun [] eq_refl eq_refl)
    as (_ & _ & Hsorted); [by left|].
  apply (StronglySorted_filter_start (λ b, negb (has_explicit_id b))) in Hsorted.
  apply StronglySorted_lt_NoDup in Hsorted.
  assert (effective_id rel
            <$> List.filter (λ b, negb (has_explicit_id b)) blocks
          = synthesized_id rel
              <$> (blk_start_line
                     <$> List.filter (λ b, negb (has_explicit_id b)) blocks))
    as ->.
  { rewrite <- list_fmap_compose. apply Forall_fmap_ext, Forall_forall.
    intros b Hb. apply list_elem_of_In, filter_In in Hb as [_ Hb].
    apply effective_id_synthesized. by apply negb_true_iff. }
  apply NoDup_fmap_2; [|done].
  intros n1 n2 Heq. by apply synthesized_id_inj in Heq as [_ ->].
Qed.

Lemma synthesized_ids_of_a_file_differ_witness :
  ∃ blocks,
    parse_hodor_blocks ScanExamples.lines_two_blocks "/repo/src/a.go"
    = Ok blocks
    ∧ length blocks = 2
    ∧ NoDup (effective_id "src/a.go"
               <$> List.filter (λ b, negb (has_explicit_id b)) blocks).
Proof.
  assert (parse_hodor_blocks ScanExamples.lines_two_blocks "/repo/src/a.go"
          = Ok [Examples.block_unnamed 1; Examples.block_unnamed 3]) as H
    by (vm_compute; reflexivity).
  eexists. split_and!; [exact H|reflexivity|].
  exact (synthesized_ids_of_a_file_differ _ _ "src/a.go" _ H).
Defined.

Lemma directive_values_cons names line lines :
  directive_values names (line :: lines)
  = match DIRECTIVE_RE line with
    | Some (d, v) =>
        if Py.mem (Py.strip d) names
        then Py.strip v :: directive_values names lines
        else directive_values names lines
    | None => directive_values names lines
    end.
Proof.
  unfold directive_values. cbn [omap list_omap].
  destruct (DIRECTIVE_RE line) as [[d v]|]; [|done].
  by destruct (Py.mem (Py.strip d) names).
Qed.

Lemma extend_block_nil c : extend_block c [] = c.
Proof. destruct c. unfold extend_block. simpl. by rewrite !app_nil_r. Qed.

(** One more directive line at the front of the lines that extend a block. *)
Lemma extend_block_cons c line lines d v c' :
  DIRECTIVE_RE line = Some (d, v) →
  apply_directive (Py.strip d) (Py.strip v) c = Some c' →
  extend_block c' lines = extend_block c (line :: lines).
Proof.
  intros Hre Happ. unfold extend_block. rewrite !directive_values_cons, Hre.
  unfold apply_directive in Happ. unfold Py.mem in *.
  destruct (decide (Py.strip d = "HODOR-ID")) as [Hd|Hid].
  { rewrite Hd in *. injection Happ as <-. eval_mem. cbn -[last].
    rewrite last_cons. by destruct (last _). }
  rewrite (bool_decide_eq_false_2 (Py.strip d = "HODOR-ID")) in Happ by done.
  destruct (decide (Py.strip d = "HODOR-REQS")) as [Hd|Hreqs].
  { rewrite Hd in *. injection Happ as <-. eval_mem. cbn. by rewrite app_assoc. }
  rewrite (bool_decide_eq_false_2 (Py.strip d = "HODOR-REQS")) in Happ by done.
  destruct (decide (Py.strip d = "HODOR-REF")) as [Hd|Href].
  { rewrite Hd in *. injection Happ as <-. eval_mem. cbn. by rewrite app_assoc. }
  destruct (decide (Py.strip d = "HODOR-REFS")) as [Hd|Hrefs].
  { rewrite Hd in *. injection Happ as <-. eval_mem. cbn. by rewrite app_assoc. }
  assert (Py.strip d ∉ ["HODOR-REF"; "HODOR-REFS"]) as Hnot.
  { intros [?|[?|[]%elem_of_nil]%elem_of_cons]%elem_of_cons; done. }
  rewrite (bool_decide_eq_false_2 _ Hnot) in Happ.
  destruct (decide (Py.strip d = "HODOR-TEXT")) as [Hd|Htext].
  { rewrite Hd in *. injection Happ as <-. eval_mem. cbn.
    destruct (Py.truthy (Py.strip v)); [|done]. by rewrite <- app_assoc. }
  by rewrite bool_decide_eq_false_2 in Happ.
Qed.

Lemma parse_loop_run_of_directives label lines : ∀ n blocks c,
  Forall (λ line, is_directive_line line = true
                  ∧ known_directive_or_text line = true) lines →
  for_enumerate n lines (parse_line label) (blocks, Some c)
  = Ok (blocks, Some (extend_block c lines)).
Proof.
  induction lines as [|line lines IH]; intros n blocks c Hall.
  - simpl. by rewrite extend_block_nil.
  - apply Forall_cons in Hall as [[Hdir Hknown] Hall].
    rewrite for_enumerate_cons.
    unfold is_directive_line, known_directive_or_text in Hdir, Hknown.
    destruct (DIRECTIVE_RE line) as [[d v]|] eqn:Hre; [|done].
    apply bool_decide_eq_true in Hknown.
    destruct (apply_directive_is_Some _ _ _ (Py.strip v) c Hknown)
      as [c' Hc'].
    assert (parse_line label (blocks, Some c) n line = Ok (blocks, Some c'))
      as ->.
    { unfold parse_line. rewrite Hre. simpl. by rewrite Hc'. }
    cbn [mbind result_bind]. rewrite IH by done.
    by rewrite (extend_block_cons c line lines d v c').
Qed.

(** X9.  A file made of known directive lines only is parsed into one block
    that starts at line 1: its id is the value of the last ID line, its
    requirements and references are the entries of the REQS lines and of the
    REF and REFS lines in the order of the lines, and its text lines are the
    non-empty TEXT values. *)
Theorem block_of_directive_run line lines label :
  Forall (λ line, is_directive_line line = true
                  ∧ known_directive_or_text line = true) (line :: lines) →
  parse_hodor_blocks (line :: lines) label
  = Ok [extend_block (new_block 1) (line :: lines)].
Proof.
  intros Hall. unfold parse_hodor_blocks. rewrite for_enumerate_cons.
  pose proof Hall as [[Hdir Hknown] Hrest]%Forall_cons.
  unfold is_directive_line, known_directive_or_text in Hdir, Hknown.
  destruct (DIRECTIVE_RE line) as [[d v]|] eqn:Hre; [|done].
  apply bool_decide_eq_true in Hknown.
  destruct (apply_directive_is_Some _ _ _ (Py.strip v) (new_block 1) Hknown)
    as [c' Hc'].
  assert (parse_line label ([], None) 1 line = Ok ([], Some c')) as ->.
  { unfold parse_line. rewrite Hre. simpl. by rewrite Hc'. }
  cbn [mbind result_bind]. rewrite parse_loop_run_of_directives by done.
  cbn [mbind result_bind]. simpl.
  by rewrite (extend_block_cons (new_block 1) line lines d v c').
Qed.

Lemma block_of_directive_run_witness :
  parse_hodor_blocks
    ["# HODOR-ID: T9"; "# HODOR-REQS: R2, R3"; "# HODOR-REQS: R4"] "src/a.go"
  = Ok [extend_block (new_block 1)
          ["# HODOR-ID: T9"; "# HODOR-REQS: R2, R3"; "# HODOR-REQS: R4"]].
Proof.
  apply block_of_directive_run.
  apply (bool_decide_unpack _). vm_compute. exact I.
Defined.

Lemma for_each_inv_Forall {A St} (P : St → Prop) (R : A → Prop)
    (l : list A) (body : St → A → result St) :
  (∀ st x st', P st → R x → body st x = Ok st' → P st') →
  Forall R l → ∀ st st', P st → for_each l body st = Ok st' → P st'.
Proof.
  intros Hbody Hall. induction Hall as [|x l Hx _ IH]; intros st st' HP; simpl.
  - by intros [= <-].
  - intros (st1 & Hx1 & Hl)%bind_Ok. eapply IH; [|done]. by eapply Hbody.
Qed.

Lemma for_enumerate_inv {A St} (P : St → Prop) (l : list A)
    (body : St → nat → A → result St) :
  (∀ st n x st', P st → body st n x = Ok st' → P st') →
  ∀ n st st', P st → for_enumerate n l body st = Ok st' → P st'.
Proof.
  intros Hbody. induction l as [|x l IH]; intros n st st' HP.
  - simpl. by intros [= <-].
  - rewrite for_enumerate_cons. intros (st1 & Hx & Hl)%bind_Ok.
    eapply IH; [|done]. by eapply Hbody.
Qed.

Lemma well_formed_new_block n : well_formed_block (new_block n).
Proof. split_and!; try constructor. intros i [=]. Qed.

Lemma apply_directive_well_formed d v c c' :
  stripped v → well_formed_block c →
  apply_directive d v c = Some c' → well_formed_block c'.
Proof.
  intros Hv (Hreqs & Hrefs & Htext & Hid). unfold apply_directive.
  repeat case_match; intros [= <-]; split_and!; simpl; try done.
  - by intros i [= <-].
  - apply Forall_app. split; [done|apply split_list_Forall_entry].
  - apply Forall_app. split; [done|apply split_list_Forall_entry].
  - apply Forall_app. split; [done|]. constructor; [|done].
    split; [|done]. by destruct v.
Qed.

Lemma parse_line_well_formed label st n line st' :
  Forall well_formed_block st.1 ∧ from_option well_formed_block True st.2 →
  parse_line label st n line = Ok st' →
  Forall well_formed_block st'.1 ∧ from_option well_formed_block True st'.2.
Proof.
  destruct st as [blocks current]. simpl. intros [Hblocks Hcur].
  unfold parse_line. destruct (DIRECTIVE_RE line) as [[d v]|].
  - destruct (apply_directive _ _ _) as [c'|] eqn:Happ; [|done].
    intros [= <-]. simpl. split; [done|].
    eapply apply_directive_well_formed; [apply strip_idemp| |done].
    destruct current; [done|apply well_formed_new_block].
  - destruct current as [c|]; intros [= <-]; simpl; [|done].
    split; [|done]. apply Forall_app. split; [done|]. by constructor.
Qed.

Lemma parse_hodor_blocks_well_formed lines label blocks :
  parse_hodor_blocks lines label = Ok blocks → Forall well_formed_block blocks.
Proof.
  unfold parse_hodor_blocks.
  intros ([bs cur] & Hloop & H)%bind_Ok.
  eapply (for_enumerate_inv
    (λ st, Forall well_formed_block st.1
           ∧ from_option well_formed_block True st.2)) in Hloop.
  - destruct Hloop as [Hbs Hcur]. simpl in *.
    destruct cur as [c|]; injection H as <-; [|done].
    apply Forall_app. split; [done|]. by constructor.
  - intros st n x st'. apply parse_line_well_formed.
  - by split.
Qed.

Lemma effective_id_nonempty rel b : effective_id rel b ≠ EmptyString.
Proof.
  unfold effective_id.
  destruct (blk_id b) as [[|c i]|]; simpl; try done; by destruct rel.
Qed.

Lemma load_block_well_formed rel st b st' :
  loaded_ok well_formed_scan st → well_formed_block b →
  load_block rel st b = Ok st' → loaded_ok well_formed_scan st'.
Proof.
  destruct st as [items seen]. intros Hok (Hreqs & Hrefs & _ & _).
  unfold load_block.
  destruct (blk_reqs b) as [|r reqs] eqn:Hr; [done|]. cbn [Py.nonempty negb].
  case_bool_decide as Hseen; [discriminate|]. intros [= <-].
  match goal with |- loaded_ok _ (_ ++ [?it], _) =>
    apply (loaded_ok_snoc _ items seen it); [done..|] end.
  split_and!; simpl; [apply effective_id_nonempty| |done|done|by eexists].
  destruct (Py.strip _) as [|c s]; simpl; [by destruct rel|done].
Qed.

(** X10.  The records that the scanner returns have distinct ids; each
    has a non-empty id, a non-empty text and at least one link, and its
    links and references are non-empty entries without white space around
    them and without a comma or a semicolon. *)
Theorem scanned_records_are_well_formed fs rel_dirs items :
  load_test_annotations fs rel_dirs = Ok items →
  NoDup (ids items) ∧ Forall well_formed_scan items.
Proof.
  unfold load_test_annotations.
  intros ([items' seen] & Hloop & [= <-])%bind_Ok.
  eapply (for_each_inv (loaded_ok well_formed_scan)) in Hloop.
  - destruct Hloop as (? & _ & ?). done.
  - intros st rel_dir st' Hst. destruct (fs rel_dir) as [|d]; [done|].
    apply for_each_inv; [|done]. intros st1 f st1' Hst1.
    unfold load_scan_file. destruct (sf_read f) as [content|];
      [|by intros [= <-]].
    intros (blocks & Hparse & H)%bind_Ok.
    destruct (negb _); [by injection H as <-|].
    revert H.
    apply (for_each_inv_Forall _ well_formed_block); [|by
      eapply parse_hodor_blocks_well_formed|done].
    intros st2 b st2'. apply load_block_well_formed.
  - split_and!; [constructor|intros x []%elem_of_nil|constructor].
Qed.

Lemma scanned_records_are_well_formed_witness :
  NoDup (ids Examples.scan_tests) ∧ Forall well_formed_scan Examples.scan_tests.
Proof.
  assert (load_test_annotations Examples.fs ["src"] = Ok Examples.scan_tests)
    as H by (vm_compute; reflexivity).
  exact (scanned_records_are_well_formed _ _ _ H).
Defined.

Section MoreLoaders.
Context (str_other : yaml → string) (utc_now : string).

Lemma load_item_kept items seen f items' seen' :
  kept f = true →
  load_item str_other (items, seen) f = Ok (items', seen') →
  ∃ t, items' = items ++ [t] ∧ loaded_from str_other f t.
Proof.
  unfold kept, load_item, loaded_from, file_uid.
  intros Hkept. apply negb_true_iff in Hkept. rewrite Hkept.
  intros (loaded & -> & H)%bind_Ok. cbn [mbind result_bind].
  apply bind_Ok in H as (uid_field & -> & H). cbn [mbind result_bind].
  case_bool_decide as Hseen; [discriminate|].
  apply bind_Ok in H as (text_field & _ & H).
  apply bind_Ok in H as (title_field & _ & H).
  apply bind_Ok in H as (links_field & _ & H).
  injection H as <- <-. eexists. split; [done|]. simpl.
  split_and!; [done|done|apply rstrip_idemp|done].
Qed.

(** The records that a loop over item files adds, one for each file that is
    not skipped. *)
Lemma load_item_loop_records files : ∀ items seen items' seen',
  for_each files (load_item str_other) (items, seen) = Ok (items', seen') →
  ∃ new, items' = items ++ new
         ∧ Forall2 (loaded_from str_other) (List.filter kept files) new.
Proof.
  induction files as [|f files IH]; intros items seen items' seen'.
  - simpl. intros [= <- <-]. exists []. by rewrite app_nil_r.
  - cbn [for_each]. intros ([items1 seen1] & Hf & Hrest)%bind_Ok.
    apply IH in Hrest as (new & -> & Hnew). cbn [List.filter].
    destruct (kept f) eqn:Hkept.
    + apply load_item_kept in Hf as (t & -> & Ht); [|done].
      exists (t :: new). rewrite <- app_assoc. split; [done|by constructor].
    + rewrite load_item_skipped in Hf by done. injection Hf as <- <-. eauto.
Qed.

Lemma directory_loop_exists {St} fs rel_dirs
    (body : St → directory → result St) (raise : string → exn) st st' :
  for_each rel_dirs (λ st rel_dir,
    match fs rel_dir with
    | inl dir_path => Raise (raise dir_path)
    | inr dir_path => body st dir_path
    end) st = Ok st' →
  forallb (exists_dir fs) rel_dirs = true.
Proof.
  revert st. induction rel_dirs as [|d rel_dirs IH]; intros st; [done|].
  cbn [for_each forallb]. intros (st1 & Hd & Hrest)%bind_Ok.
  unfold exists_dir at 1. destruct (fs d); [done|]. simpl. by eapply IH.
Qed.

Lemma load_items_exists fs rel_dirs label items :
  load_items str_other fs rel_dirs label = Ok items →
  forallb (exists_dir fs) rel_dirs = true.
Proof.
  unfold load_items. intros ([items' seen] & Hloop & _)%bind_Ok.
  by eapply directory_loop_exists in Hloop.
Qed.

Lemma load_items_records fs rel_dirs label items :
  load_items str_other fs rel_dirs label = Ok items →
  Forall2 (loaded_from str_other)
    (List.filter kept (visited_files fs rel_dirs)) items.
Proof.
  intros H. pose proof (load_items_exists _ _ _ _ H) as Hdirs.
  rewrite load_items_visited in H by done.
  apply bind_Ok in H as ([items' seen] & Hloop & [= <-]).
  by apply load_item_loop_records in Hloop as (new & -> & Hnew).
Qed.

(** X11.  When [load_items] returns, every directory exists and the
    records are, in order, those of the visited files whose name is not a
    Doorstop control file: each has the uid of its file, the path of the file
    relative to the root, a text without trailing white space and no [refs]
    field; the ids are distinct. *)
Theorem loaded_records_follow_the_files fs rel_dirs label items :
  load_items str_other fs rel_dirs label = Ok items →
  forallb (exists_dir fs) rel_dirs = true
  ∧ Forall2 (loaded_from str_other)
      (List.filter kept (visited_files fs rel_dirs)) items
  ∧ NoDup (ids items).
Proof.
  intros H. split_and!.
  - by eapply load_items_exists.
  - by eapply load_items_records.
  - by apply load_items_inv in H as [? _].
Qed.

(** X12.  After directories that load, a directory that does not exist
    aborts [load_items] with the [FileNotFoundError] of its label and
    [load_test_annotations] with that of the scan directories, each naming
    the resolved path; the directories behind it are not visited. *)
Theorem missing_directory_error fs pre rel_dir post dir_path :
  fs rel_dir = inl dir_path →
  (∀ label items,
     load_items str_other fs pre label = Ok items →
     load_items str_other fs (pre ++ rel_dir :: post) label
     = Raise (FileNotFoundError
                (label +:+ " directory not found: " +:+ dir_path)))
  ∧ (∀ items,
       load_test_annotations fs pre = Ok items →
       load_test_annotations fs (pre ++ rel_dir :: post)
       = Raise (FileNotFoundError
                  ("Test scan directory not found: " +:+ dir_path))).
Proof.
  intros Hfs. split.
  - intros label items. unfold load_items.
    intros ([items' seen] & Hloop & _)%bind_Ok.
    rewrite for_each_app, Hloop. cbn [mbind result_bind for_each].
    by rewrite Hfs.
  - intros items. unfold load_test_annotations.
    intros ([items' seen] & Hloop & _)%bind_Ok.
    rewrite for_each_app, Hloop. cbn [mbind result_bind for_each].
    by rewrite Hfs.
Qed.

(** X13.  The requirements of a built payload are, in order, the records
    of the kept files of the requirement directories, and
    [requirements_total] is the number of these files. *)
Theorem payload_requirements_follow_the_files fs req_dirs test_item_dirs
    test_scan_dirs root p :
  build_payload str_other utc_now fs req_dirs test_item_dirs test_scan_dirs
    root = Ok p →
  Forall2 (loaded_from str_other)
    (List.filter kept (visited_files fs req_dirs))
    (rq_item <$> pl_requirements p)
  ∧ requirements_total (pl_summary p)
    = length (List.filter kept (visited_files fs req_dirs)).
Proof.
  intros (reqs & item_tests & scan_tests & Hreqs & _ & _ & Hres)
    %build_payload_Ok.
  apply load_items_records in Hreqs.
  apply resolve_Ok in Hres as (_ & r2t & t2r & ->). simpl.
  rewrite <- list_fmap_compose, length_fmap.
  assert (rq_item ∘ resolve_req r2t <$> reqs = reqs) as ->.
  { rewrite <- (list_fmap_id reqs) at 2. by apply list_fmap_ext. }
  split; [done|]. by apply Forall2_length in Hreqs.
Qed.
End MoreLoaders.

Lemma loaded_records_follow_the_files_witness :
  forallb (exists_dir Examples.fs) ["reqs/mon"] = true
  ∧ Forall2 (loaded_from Examples.str_scalar)
      (List.filter kept (visited_files Examples.fs ["reqs/mon"])) Examples.reqs
  ∧ NoDup (ids Examples.reqs).
Proof.
  assert (load_items Examples.str_scalar Examples.fs ["reqs/mon"] "Requirement"
          = Ok Examples.reqs) as H by (vm_compute; reflexivity).
  exact (loaded_records_follow_the_files _ _ _ _ _ H).
Defined.

Lemma missing_directory_error_witness :
  load_items Examples.str_scalar Examples.fs (["reqs/mon"] ++ ["nowhere"; "src"])
    "Requirement"
  = Raise (FileNotFoundError
             "Requirement directory not found: /repo/nowhere").
Proof.
  apply (proj1 (missing_directory_error Examples.str_scalar Examples.fs
                  ["reqs/mon"] "nowhere" ["src"] "/repo/nowhere" eq_refl)
           "Requirement" Examples.reqs).
  vm_compute. reflexivity.
Defined.

Lemma payload_requirements_follow_the_files_witness :
  Forall2 (loaded_from Examples.str_scalar)
    (List.filter kept (visited_files Examples.fs ["reqs/mon"]))
    (rq_item <$> pl_requirements Examples.the_payload)
  ∧ requirements_total (pl_summary Examples.the_payload)
    = length (List.filter kept (visited_files Examples.fs ["reqs/mon"])).
Proof.
  assert (build_payload Examples.str_scalar "2026-01-01 00:00:00Z" Examples.fs
            ["reqs/mon"] ["reqs/tst"] ["src"] "." = Ok Examples.the_payload)
    as H by (vm_compute; reflexivity).
  exact (payload_requirements_follow_the_files _ _ _ _ _ _ _ _ H).
Defined.

Section MoreResolve.
Context (utc_now : string).

Lemma append_at_Ok (m : gmap string (list string)) key x m' :
  append_at m key x = Ok m' →
  ∃ l, m !! key = Some l ∧ m' = <[key := l ++ [x]]> m.
Proof.
  unfold append_at. destruct (m !! key) as [l|]; [|done].
  intros [= <-]. eauto.
Qed.

(** What the two dictionaries hold after the loop over the links: under each
    key, what was there, then the ids linked to the key, in the order of the
    links. *)
Lemma index_loop_lookup links : ∀ (m1 m2 r2t t2r : gmap string (list string)),
  for_each links (λ '(req_to_tests, test_to_reqs) '(req_id, test_id),
    req_to_tests ← append_at req_to_tests req_id test_id;
    test_to_reqs ← append_at test_to_reqs test_id req_id;
    Ok (req_to_tests, test_to_reqs)) (m1, m2) = Ok (r2t, t2r) →
  (∀ a, r2t !! a
        = (λ l, l ++ (snd <$> filter (λ x, x.1 = a) links)) <$> m1 !! a)
  ∧ (∀ b, t2r !! b
          = (λ l, l ++ (fst <$> filter (λ x, x.2 = b) links)) <$> m2 !! b).
Proof.
  induction links as [|[a0 b0] links IH]; intros m1 m2 r2t t2r.
  - simpl. intros [= <- <-]. split; intros k.
    + destruct (m1 !! k); simpl; by rewrite ?app_nil_r.
    + destruct (m2 !! k); simpl; by rewrite ?app_nil_r.
  - cbn [for_each]. intros ([m1' m2'] & Hstep & Hrest)%bind_Ok.
    apply bind_Ok in Hstep as (m1'' & H1 & Hstep).
    apply bind_Ok in Hstep as (m2'' & H2 & [= <- <-]).
    apply append_at_Ok in H1 as (l1 & Hl1 & ->).
    apply append_at_Ok in H2 as (l2 & Hl2 & ->).
    apply IH in Hrest as [Hr Ht]. split.
    + intros a. rewrite Hr, filter_cons. simpl.
      destruct (decide (a0 = a)) as [->|Hne].
      * rewrite lookup_insert_eq, Hl1. simpl. by rewrite <- app_assoc.
      * by rewrite lookup_insert_ne.
    + intros b. rewrite Ht, filter_cons. simpl.
      destruct (decide (b0 = b)) as [->|Hne].
      * rewrite lookup_insert_eq, Hl2. simpl. by rewrite <- app_assoc.
      * by rewrite lookup_insert_ne.
Qed.

Lemma index_links_lookup (rm tm : gmap string item) links r2t t2r :
  index_links rm tm links = Ok (r2t, t2r) →
  (∀ a, has_key rm a = true →
        r2t !! a = Some (snd <$> filter (λ x, x.1 = a) links))
  ∧ (∀ b, has_key tm b = true →
          t2r !! b = Some (fst <$> filter (λ x, x.2 = b) links)).
Proof.
  unfold index_links. intros [Hr Ht]%index_loop_lookup. split.
  - intros a [x Hx]%bool_decide_eq_true. by rewrite Hr, lookup_fmap, Hx.
  - intros b [x Hx]%bool_decide_eq_true. by rewrite Ht, lookup_fmap, Hx.
Qed.

Lemma elem_of_sorted_strings l x : x ∈ sorted_strings l ↔ x ∈ l.
Proof. unfold sorted_strings. by rewrite merge_sort_Permutation. Qed.

Lemma elem_of_linked_tests (links : list (string * string)) a t :
  t ∈ snd <$> filter (λ x, x.1 = a) links ↔ (a, t) ∈ links.
Proof.
  rewrite list_elem_of_fmap. split.
  - intros ([a' t'] & -> & [Ha Hin]%list_elem_of_filter). simpl in *.
    by subst.
  - intros Hin. exists (a, t). split; [done|].
    by apply list_elem_of_filter.
Qed.

Lemma elem_of_linked_reqs (links : list (string * string)) b r :
  r ∈ fst <$> filter (λ x, x.2 = b) links ↔ (r, b) ∈ links.
Proof.
  rewrite list_elem_of_fmap. split.
  - intros ([r' b'] & -> & [Hb Hin]%list_elem_of_filter). simpl in *.
    by subst.
  - intros Hin. exists (r, b). split; [done|].
    by apply list_elem_of_filter.
Qed.

Lemma NoDup_linked_tests (links : list (string * string)) a :
  NoDup links → NoDup (snd <$> filter (λ x, x.1 = a) links).
Proof.
  intros Hnd. apply NoDup_fmap_2_strong; [|by apply NoDup_filter].
  intros [a1 t1] [a2 t2] [Ha1 _]%list_elem_of_filter
    [Ha2 _]%list_elem_of_filter. simpl in *. congruence.
Qed.

Lemma NoDup_linked_reqs (links : list (string * string)) b :
  NoDup links → NoDup (fst <$> filter (λ x, x.2 = b) links).
Proof.
  intros Hnd. apply NoDup_fmap_2_strong; [|by apply NoDup_filter].
  intros [r1 b1] [r2 b2] [Hb1 _]%list_elem_of_filter
    [Hb2 _]%list_elem_of_filter. simpl in *. congruence.
Qed.

Lemma NoDup_sorted_strings l : NoDup l → NoDup (sorted_strings l).
Proof. unfold sorted_strings. by rewrite merge_sort_Permutation. Qed.

(** What [resolve] returns, with the two dictionaries looked up. *)
Lemma resolve_records reqs tests root p :
  resolve utc_now reqs tests root = Ok p →
  let links := sorted_links (link_set_of reqs tests) in
  pl_links p = links
  ∧ pl_requirements p
    = (λ R, let l := sorted_strings
                       (snd <$> filter (λ x, x.1 = it_id R) links) in
            {| rq_item := R; rq_tests := l; rq_status := status_of l |})
        <$> reqs
  ∧ pl_tests p
    = (λ T, let l := sorted_strings
                       (fst <$> filter (λ x, x.2 = it_id T) links) in
            {| ts_item := with_refs T; ts_reqs := l;
               ts_status := status_of l |})
        <$> tests.
Proof.
  unfold resolve. intros H.
  apply bind_Ok in H as ([seen visited] & Hchk & H).
  apply check_tests_Ok in Hchk as (-> & _ & _). simpl in H.
  apply bind_Ok in H as ([r2t t2r] & Hidx & [= <-]).
  apply index_links_lookup in Hidx as [Hr Ht]. simpl. split_and!; [done| |].
  - apply list_fmap_ext. intros i R Hi. unfold resolve_req.
    rewrite Hr; [done|]. apply has_key_id_map, list_elem_of_fmap.
    exists R. split; [done|]. by eapply list_elem_of_lookup_2.
  - rewrite <- list_fmap_compose. apply list_fmap_ext. intros i T Hi.
    simpl. unfold resolve_test. rewrite id_with_refs.
    rewrite Ht; [done|]. apply has_key_id_map, list_elem_of_fmap.
    exists T. split; [done|]. by eapply list_elem_of_lookup_2.
Qed.

(** X14.  In a resolved payload the [tests] list of a requirement holds
    exactly the tests that the link list pairs with it, and the [reqs] list
    of a test the requirements that the link list pairs with it; both lists
    are sorted and free of duplicates. *)
Theorem back_references_match_links reqs tests root p :
  resolve utc_now reqs tests root = Ok p →
  Forall (λ r, (∀ t, t ∈ rq_tests r ↔ (it_id (rq_item r), t) ∈ pl_links p)
               ∧ NoDup (rq_tests r) ∧ Sorted String.le (rq_tests r))
    (pl_requirements p)
  ∧ Forall (λ t, (∀ r, r ∈ ts_reqs t ↔ (r, it_id (ts_item t)) ∈ pl_links p)
                 ∧ NoDup (ts_reqs t) ∧ Sorted String.le (ts_reqs t))
      (pl_tests p).
Proof.
  intros (-> & -> & ->)%resolve_records. split.
  - apply Forall_fmap, Forall_forall. intros R _. simpl. split_and!.
    + intros t. by rewrite elem_of_sorted_strings, elem_of_linked_tests.
    + apply NoDup_sorted_strings, NoDup_linked_tests, NoDup_sorted_links.
    + apply Sorted_merge_sort, _.
  - apply Forall_fmap, Forall_forall. intros T _. simpl. split_and!.
    + intros r. rewrite id_with_refs.
      by rewrite elem_of_sorted_strings, elem_of_linked_reqs.
    + apply NoDup_sorted_strings, NoDup_linked_reqs, NoDup_sorted_links.
    + apply Sorted_merge_sort, _.
Qed.

Lemma status_of_linked l : status_of l = "linked" ↔ l ≠ [].
Proof. by destruct l. Qed.

Lemma status_of_unlinked l : status_of l = "unlinked" ↔ l = [].
Proof. by destruct l. Qed.

Lemma nonempty_elem_of {A} (l : list A) : l ≠ [] ↔ ∃ x, x ∈ l.
Proof.
  destruct l as [|x l]; split; try done.
  - by intros [x Hx%elem_of_nil].
  - intros _. exists x. by left.
Qed.

Lemma same_id_same_record (l : list item) x y :
  NoDup (ids l) → x ∈ l → y ∈ l → it_id x = it_id y → x = y.
Proof.
  unfold ids. induction l as [|z l IH]; [by intros _ ?%elem_of_nil|].
  rewrite fmap_cons. intros [Hz Hnd]%NoDup_cons.
  intros [->|Hx]%elem_of_cons [->|Hy]%elem_of_cons Heq; try done.
  - destruct Hz. rewrite Heq. apply list_elem_of_fmap. eauto.
  - destruct Hz. rewrite <- Heq. apply list_elem_of_fmap. eauto.
  - by apply IH.
Qed.

Lemma elem_of_ids (l : list item) x : x ∈ l → it_id x ∈ ids l.
Proof. intros Hx. unfold ids. apply list_elem_of_fmap. eauto. Qed.

Lemma elem_of_ids_inv (l : list item) i : i ∈ ids l → ∃ x, x ∈ l ∧ it_id x = i.
Proof. unfold ids. intros (x & -> & Hx)%list_elem_of_fmap. eauto. Qed.

(** The links of a requirement and of a test in terms of what the records
    declare. *)
Lemma linked_requirement reqs tests R :
  NoDup (ids reqs) → R ∈ reqs →
  (∃ t, (it_id R, t) ∈ sorted_links (link_set_of reqs tests))
  ↔ ∃ T, T ∈ tests ∧ (it_id R ∈ it_links T ∨ it_id T ∈ it_links R).
Proof.
  intros Hnd HR. setoid_rewrite elem_of_sorted_links.
  setoid_rewrite elem_of_link_set_of. split.
  - intros (t & _ & Ht & [(T & HT & <- & Hl)|(R' & HR' & Hid & Hl)]).
    + exists T. auto.
    + apply elem_of_ids_inv in Ht as (T & HT & <-). exists T.
      split; [done|]. right.
      by rewrite <- (same_id_same_record reqs R' R Hnd HR' HR Hid).
  - intros (T & HT & Hdecl). exists (it_id T).
    split_and!; [by apply elem_of_ids..|].
    destruct Hdecl; [left|right]; eauto.
Qed.

Lemma linked_test reqs tests T :
  NoDup (ids tests) → T ∈ tests →
  (∃ r, (r, it_id T) ∈ sorted_links (link_set_of reqs tests))
  ↔ ∃ R, R ∈ reqs ∧ (it_id R ∈ it_links T ∨ it_id T ∈ it_links R).
Proof.
  intros Hnd HT. setoid_rewrite elem_of_sorted_links.
  setoid_rewrite elem_of_link_set_of. split.
  - intros (r & Hr & _ & [(T' & HT' & Hid & Hl)|(R & HR & <- & Hl)]).
    + apply elem_of_ids_inv in Hr as (R & HR & <-). exists R.
      split; [done|]. left.
      by rewrite <- (same_id_same_record tests T' T Hnd HT' HT Hid).
    + exists R. auto.
  - intros (R & HR & Hdecl). exists (it_id R).
    split_and!; [by apply elem_of_ids..|].
    destruct Hdecl; [left|right]; eauto.
Qed.

(** X15.  With distinct requirement ids, the requirements of a resolved
    payload are the loaded records in their order, and a requirement is
    [linked] exactly when some test record declares it or is declared by it,
    and [unlinked] exactly when its [tests] list is empty; likewise for the
    tests and the requirement records. *)
Theorem status_follows_declared_links reqs tests root p :
  NoDup (ids reqs) →
  resolve utc_now reqs tests root = Ok p →
  Forall2 (λ R r,
      rq_item r = R
      ∧ (rq_status r = "linked" ↔
         ∃ T, T ∈ tests ∧ (it_id R ∈ it_links T ∨ it_id T ∈ it_links R))
      ∧ (rq_status r = "unlinked" ↔ rq_tests r = []))
    reqs (pl_requirements p)
  ∧ Forall2 (λ T t,
        ts_item t = with_refs T
        ∧ (ts_status t = "linked" ↔
           ∃ R, R ∈ reqs ∧ (it_id R ∈ it_links T ∨ it_id T ∈ it_links R))
        ∧ (ts_status t = "unlinked" ↔ ts_reqs t = []))
      tests (pl_tests p).
Proof.
  intros Hreqs H. pose proof (resolve_Ok _ _ _ _ _ H) as [Htests _].
  apply resolve_records in H as (_ & -> & ->). split.
  - apply Forall2_fmap_r, Forall_Forall2_diag, Forall_forall.
    intros R HR. simpl. split_and!; [done| |apply status_of_unlinked].
    rewrite status_of_linked, <- (linked_requirement reqs tests R Hreqs HR).
    rewrite nonempty_elem_of. setoid_rewrite elem_of_sorted_strings.
    by setoid_rewrite elem_of_linked_tests.
  - apply Forall2_fmap_r, Forall_Forall2_diag, Forall_forall.
    intros T HT. simpl. split_and!; [done| |apply status_of_unlinked].
    rewrite status_of_linked, <- (linked_test reqs tests T Htests HT).
    rewrite nonempty_elem_of. setoid_rewrite elem_of_sorted_strings.
    by setoid_rewrite elem_of_linked_reqs.
Qed.

Lemma ltb_or_gtb a b :
  String.eqb a b = false → String.ltb a b = true ∨ String.ltb b a = true.
Proof.
  intros Hne. apply String.eqb_neq in Hne. unfold String.ltb.
  rewrite (String.compare_antisym b a).
  destruct (String.compare a b) eqn:Hc; simpl; auto.
  by apply String.compare_eq_iff in Hc.
Qed.

#[local] Instance link_le_total : Total link_le.
Proof.
  intros [a1 b1] [a2 b2]. unfold link_le, link_leb. simpl.
  rewrite (String.eqb_sym a2 a1).
  destruct (String.eqb a1 a2) eqn:Ha.
  - destruct (String.leb_total b1 b2) as [->| ->]; auto.
  - destruct (ltb_or_gtb a1 a2 Ha) as [->| ->]; auto.
Qed.

(** X16.  The link list of a resolved payload is sorted by requirement id
    and then by test id, and [links_total] is its length. *)
Theorem links_are_sorted_and_counted reqs tests root p :
  resolve utc_now reqs tests root = Ok p →
  Sorted link_le (pl_links p)
  ∧ links_total (pl_summary p) = length (pl_links p).
Proof.
  intros (_ & r2t & t2r & ->)%resolve_Ok. simpl. split.
  - apply (Sorted_merge_sort link_le).
  - unfold sorted_links. by rewrite merge_sort_Permutation.
Qed.
End MoreResolve.

Lemma back_references_match_links_witness :
  Forall (λ r, (∀ t, t ∈ rq_tests r
                     ↔ (it_id (rq_item r), t) ∈ pl_links Examples.the_payload)
               ∧ NoDup (rq_tests r) ∧ Sorted String.le (rq_tests r))
    (pl_requirements Examples.the_payload)
  ∧ Forall (λ t, (∀ r, r ∈ ts_reqs t
                       ↔ (r, it_id (ts_item t)) ∈ pl_links Examples.the_payload)
                 ∧ NoDup (ts_reqs t) ∧ Sorted String.le (ts_reqs t))
      (pl_tests Examples.the_payload).
Proof.
  assert (resolve "2026-01-01 00:00:00Z" Examples.reqs Examples.tests "."
          = Ok Examples.the_payload) as H by (vm_compute; reflexivity).
  exact (back_references_match_links _ _ _ _ _ H).
Defined.

Lemma status_follows_declared_links_witness :
  rq_status <$> pl_requirements Examples.the_payload = ["linked"; "linked"]
  ∧ Forall2 (λ R r,
        rq_item r = R
        ∧ (rq_status r = "linked" ↔
           ∃ T, T ∈ Examples.tests
                ∧ (it_id R ∈ it_links T ∨ it_id T ∈ it_links R))
        ∧ (rq_status r = "unlinked" ↔ rq_tests r = []))
      Examples.reqs (pl_requirements Examples.the_payload).
Proof.
  assert (resolve "2026-01-01 00:00:00Z" Examples.reqs Examples.tests "."
          = Ok Examples.the_payload) as H by (vm_compute; reflexivity).
  assert (NoDup (ids Examples.reqs)) as Hreqs.
  { apply (bool_decide_unpack _). vm_compute. exact I. }
  split; [reflexivity|].
  exact (proj1 (status_follows_declared_links _ _ _ _ _ Hreqs H)).
Defined.

Lemma links_are_sorted_and_counted_witness :
  Sorted link_le (pl_links Examples.the_payload)
  ∧ links_total (pl_summary Examples.the_payload)
    = length (pl_links Examples.the_payload).
Proof.
  assert (resolve "2026-01-01 00:00:00Z" Examples.reqs Examples.tests "."
          = Ok Examples.the_payload) as H by (vm_compute; reflexivity).
  exact (links_are_sorted_and_counted _ _ _ _ _ H).
Defined.

Lemma elem_of_sorted_dirs {A} (dirs : list (string * A)) d :
  d ∈ sorted_dirs dirs ↔ d ∈ dirs.
Proof. unfold sorted_dirs. by rewrite merge_sort_Permutation. Qed.

Lemma elem_of_kept {A} (dirs : list (string * A)) d :
  d ∈ List.filter kept_dir dirs ↔ d ∈ dirs ∧ d.1 ∉ SCAN_SKIP_DIRS.
Proof.
  rewrite !list_elem_of_In, filter_In, <- !list_elem_of_In.
  unfold kept_dir, Py.mem. rewrite negb_true_iff, bool_decide_eq_false.
  by rewrite !list_elem_of_In.
Qed.

Lemma elem_of_concat {A} (x : A) (ls : list (list A)) :
  x ∈ concat ls ↔ ∃ l, x ∈ l ∧ l ∈ ls.
Proof.
  rewrite list_elem_of_In, in_concat. setoid_rewrite list_elem_of_In.
  split; intros (l & ? & ?); eauto.
Qed.

Lemma iter_scan_files_Dir root names dirs p :
  p ∈ iter_scan_files root (Dir names dirs) ↔
  (∃ name, name ∈ names ∧ p = root ++ [name])
  ∨ (∃ d sub, (d, sub) ∈ dirs ∧ (d ∉ SCAN_SKIP_DIRS)
              ∧ p ∈ iter_scan_files (root ++ [d]) sub).
Proof.
  cbn [iter_scan_files]. rewrite elem_of_app. apply Morphisms_Prop.or_iff_morphism.
  - rewrite list_elem_of_fmap. setoid_rewrite elem_of_sorted_strings.
    split; intros (name & ? & ?); eauto.
  - rewrite elem_of_concat. split.
    + intros (l & Hp & Hl). apply list_elem_of_fmap in Hl as ([d l'] & -> & Hd).
      apply elem_of_sorted_dirs, elem_of_kept in Hd as [Hd Hkeep].
      apply list_elem_of_In, in_map_iff in Hd as ([d' sub] & [= <- <-] & Hd).
      apply list_elem_of_In in Hd. exists d', sub. eauto.
    + intros (d & sub & Hd & Hkeep & Hp).
      exists (iter_scan_files (root ++ [d]) sub). split; [done|].
      apply list_elem_of_fmap.
      exists (d, iter_scan_files (root ++ [d]) sub). split; [done|].
      apply elem_of_sorted_dirs, elem_of_kept. split; [|done].
      apply list_elem_of_In, in_map_iff. exists (d, sub).
      split; [done|]. by apply list_elem_of_In.
Qed.

(** X17.  The walk of a scan directory returns exactly the files below it
    that are reached through directories none of which has a skipped name
    ([.git], [node_modules], [build] and the like): a file in a skipped
    directory, or anywhere below one, is never scanned. *)
Theorem iter_scan_files_lists_the_kept_files root t p :
  p ∈ iter_scan_files root t ↔
  ∃ ds name, p = root ++ ds ++ [name] ∧ file_at t ds name
             ∧ Forall (λ d, d ∉ SCAN_SKIP_DIRS) ds.
Proof.
  revert root p. induction t as [names dirs IH] using tree_ind'.
  intros root p. rewrite iter_scan_files_Dir. split.
  - intros [(name & Hname & ->)|(d & sub & Hd & Hkeep & Hp)].
    + exists [], name. split_and!; [done|by constructor|constructor].
    + rewrite Forall_forall in IH. apply (IH _ Hd) in Hp
        as (ds & name & -> & Hfile & Hds).
      exists (d :: ds), name. split_and!.
      * by rewrite <- app_assoc.
      * by econstructor.
      * by constructor.
  - intros (ds & name & -> & Hfile & Hds).
    inversion Hfile as [? ? ? Hname|? ? d sub ds' ? Hd Hsub]; subst.
    + left. eauto.
    + right. apply Forall_cons in Hds as [Hkeep Hds].
      exists d, sub. split_and!; [done..|].
      rewrite Forall_forall in IH. apply (IH _ Hd).
      exists ds', name. split_and!; [|done..].
      by rewrite <- app_assoc.
Qed.

Lemma iter_scan_files_lists_the_kept_files_witness :
  ["src"; "pkg"; "t.py"] ∈ iter_scan_files ["src"] MoreExamples.scan_tree.
Proof.
  apply (iter_scan_files_lists_the_kept_files ["src"] MoreExamples.scan_tree).
  exists ["pkg"], "t.py". split_and!.
  - reflexivity.
  - eapply file_below; [|apply file_here]; repeat constructor.
  - repeat constructor. apply (bool_decide_unpack _). vm_compute. exact I.
Defined.

Lemma replace_go_skip old new c s k :
  PyStr.replace_go old new (String c s) (S k) = PyStr.replace_go old new s k.
Proof. done. Qed.

Lemma escape_lt_solidus r :
  escape_data_json (String "<" (String "/" r))
  = String "<" (String "\" (String "/" (escape_data_json r))).
Proof. done. Qed.

Lemma escape_other c r :
  Py.startswith "</" (String c r) = false →
  escape_data_json (String c r) = String c (escape_data_json r).
Proof.
  intros H. unfold escape_data_json, PyStr.replace_str.
  cbn [PyStr.replace_go]. by rewrite H.
Qed.

(** Induction over a text along the steps of the replacement of [</]. *)
Lemma escape_ind (P : string → Prop) :
  P EmptyString →
  (∀ r, P r → P (String "<" (String "/" r))) →
  (∀ c r, Py.startswith "</" (String c r) = false → P r → P (String c r)) →
  ∀ s, P s.
Proof.
  intros Hnil Hhit Hmiss s.
  cut (P s ∧ ∀ c, P (String c s)); [by intros []|].
  induction s as [|c' s [IH1 IH2]].
  - split; [done|]. intros c. apply Hmiss; [|done].
    cbn [Py.startswith]. apply andb_false_r.
  - split; [apply IH2|]. intros c.
    destruct (Py.startswith "</" (String c (String c' s))) eqn:Hp.
    + cbn [Py.startswith] in Hp.
      destruct (Ascii.eqb_spec "<"%char c) as [?|]; [subst c|done].
      destruct (Ascii.eqb_spec "/"%char c') as [?|]; [subst c'|done].
      by apply Hhit.
    + apply Hmiss; [done|apply IH2].
Qed.

Lemma escape_head_solidus s r :
  escape_data_json s = String "/" r → ∃ r', s = String "/" r'.
Proof.
  destruct s as [|c s]; [done|].
  destruct (Py.startswith "</" (String c s)) eqn:Hp.
  - cbn [Py.startswith] in Hp.
    destruct (Ascii.eqb_spec "<"%char c) as [?|]; [subst c|done].
    destruct s as [|c' s]; [done|].
    destruct (Ascii.eqb_spec "/"%char c') as [?|]; [subst c'|done].
    by rewrite escape_lt_solidus.
  - rewrite escape_other by done. intros [= -> _]. eauto.
Qed.

Lemma contains_cons sub c s :
  Py.contains sub (String c s)
  = Py.startswith sub (String c s) || Py.contains sub s.
Proof. by destruct sub. Qed.

Lemma prefix_lt_solidus c s :
  Py.startswith "</" (String c s) = true ↔ ∃ r, c = "<"%char ∧ s = String "/" r.
Proof.
  cbn [Py.startswith]. split.
  - destruct (Ascii.eqb_spec "<"%char c) as [?|]; [subst c|done].
    destruct s as [|c' s]; [done|].
    destruct (Ascii.eqb_spec "/"%char c') as [?|]; [subst c'|done]. eauto.
  - by intros (r & -> & ->).
Qed.

(** X18.  The text that [main] puts in place of the data of the page holds
    no [</], whatever [json.dumps] returned, so that it cannot close the
    script element it is written into; a dumped text without [</] is put
    there as it is. *)
Theorem escaped_data_cannot_close_the_script dumped :
  Py.contains "</" (escape_data_json dumped) = false
  ∧ (Py.contains "</" dumped = false → escape_data_json dumped = dumped).
Proof.
  split_and!.
  - induction dumped as [|r IH|c r Hp IH] using escape_ind; [done| |].
    + rewrite escape_lt_solidus, !contains_cons. by rewrite IH.
    + rewrite escape_other by done. rewrite contains_cons, IH, orb_false_r.
      apply not_true_iff_false. intros (r' & -> & Hr)%prefix_lt_solidus.
      apply escape_head_solidus in Hr as [r'' ->]. done.
  - induction dumped as [|r IH|c r Hp IH] using escape_ind; [done| |].
    + by rewrite contains_cons.
    + rewrite escape_other by done. rewrite contains_cons.
      intros [_ Hr]%orb_false_elim. by rewrite IH.
Qed.

Lemma escaped_data_cannot_close_the_script_witness :
  Py.contains "</" (escape_data_json "{<</script>}") = false
  ∧ escape_data_json "{<a>}" = "{<a>}".
Proof.
  split.
  - exact (proj1 (escaped_data_cannot_close_the_script "{<</script>}")).
  - apply (proj2 (escaped_data_cannot_close_the_script "{<a>}")).
    vm_compute. reflexivity.
Defined.

(** ** The scan as one loop over its blocks *)

Lemma bind_ext {A B} (m : result A) (k1 k2 : A → result B) :
  (∀ a, k1 a = k2 a) → (m ≫= k1) = (m ≫= k2).
Proof. intros H. destruct m; cbn; [apply H|done]. Qed.

Lemma for_each_fmap {A B St} (f : A → B) (l : list A)
    (body : St → B → result St) st :
  for_each (f <$> l) body st = for_each l (λ st x, body st (f x)) st.
Proof.
  revert st. induction l as [|x l IH]; intros st; [done|].
  rewrite fmap_cons. cbn [for_each]. by apply bind_ext.
Qed.

Lemma load_scan_file_blocks st f bs :
  file_blocks f = Ok bs → load_scan_file st f = for_each bs load_scanned st.
Proof.
  unfold file_blocks, load_scan_file.
  destruct (sf_read f) as [content|]; [|by intros [= <-]].
  intros (blocks & -> & [= <-])%bind_Ok. cbn [mbind result_bind].
  rewrite for_each_fmap. by destruct blocks.
Qed.

Lemma load_scan_file_parses st f st' :
  load_scan_file st f = Ok st' → ∃ bs, file_blocks f = Ok bs.
Proof.
  unfold file_blocks, load_scan_file.
  destruct (sf_read f) as [content|]; [|eauto].
  intros (blocks & -> & _)%bind_Ok. cbn. eauto.
Qed.

Lemma collect_file_Ok acc f bs :
  file_blocks f = Ok bs → collect_file acc f = Ok (acc ++ bs).
Proof. intros H. unfold collect_file. by rewrite H. Qed.

Lemma scan_files_flat files : ∀ acc acc',
  for_each files collect_file acc = Ok acc' →
  ∃ bs, acc' = acc ++ bs
        ∧ ∀ st, for_each files load_scan_file st = for_each bs load_scanned st.
Proof.
  induction files as [|f files IH]; intros acc acc'.
  - intros [= <-]. exists []. by rewrite app_nil_r.
  - cbn [for_each]. intros (acc1 & Hf & Hrest)%bind_Ok.
    apply bind_Ok in Hf as (bs1 & Hbs1 & [= <-]).
    apply IH in Hrest as (bs2 & -> & Hflat).
    exists (bs1 ++ bs2). split; [by rewrite app_assoc|]. intros st.
    rewrite for_each_app, (load_scan_file_blocks _ _ _ Hbs1).
    by apply bind_ext.
Qed.

Lemma scan_files_parse files : ∀ st st' acc,
  for_each files load_scan_file st = Ok st' →
  ∃ acc', for_each files collect_file acc = Ok acc'.
Proof.
  induction files as [|f files IH]; intros st st' acc.
  - intros _. cbn. eauto.
  - cbn [for_each]. intros (st1 & Hf & Hrest)%bind_Ok.
    apply load_scan_file_parses in Hf as [bs Hbs].
    destruct (IH _ _ (acc ++ bs) Hrest) as [acc' Hacc'].
    exists acc'. by rewrite (collect_file_Ok acc f bs Hbs).
Qed.

(** The two loops of the scanner are one loop over the blocks of the
    scan. *)
Lemma load_test_annotations_flat fs rel_dirs bs :
  scanned_blocks fs rel_dirs = Ok bs →
  load_test_annotations fs rel_dirs
  = (for_each bs load_scanned ([], ∅) ≫= λ st, Ok st.1).
Proof.
  unfold scanned_blocks, load_test_annotations.
  generalize (([], ∅) : load_state).
  assert (∀ acc acc' st,
    for_each rel_dirs (λ acc rel_dir,
      match fs rel_dir with
      | inl dir_path =>
          Raise (FileNotFoundError
                   ("Test scan directory not found: " +:+ dir_path))
      | inr dir_path => for_each (dir_scan dir_path) collect_file acc
      end) acc = Ok acc' →
    ∃ bs, acc' = acc ++ bs
      ∧ for_each rel_dirs (λ st rel_dir,
          match fs rel_dir with
          | inl dir_path =>
              Raise (FileNotFoundError
                       ("Test scan directory not found: " +:+ dir_path))
          | inr dir_path => for_each (dir_scan dir_path) load_scan_file st
          end) st = for_each bs load_scanned st) as Hdirs.
  { induction rel_dirs as [|rel_dir rel_dirs IH]; intros acc acc' st.
    - intros [= <-]. exists []. by rewrite app_nil_r.
    - cbn [for_each]. intros (acc1 & Hd & Hrest)%bind_Ok.
      destruct (fs rel_dir) as [|d]; [done|].
      apply scan_files_flat in Hd as (bs1 & -> & Hflat).
      rewrite Hflat.
      destruct (for_each bs1 load_scanned st) as [st1|e] eqn:H1.
      + cbn [mbind result_bind].
        destruct (IH _ _ st1 Hrest) as (bs2 & -> & ->).
        exists (bs1 ++ bs2). split; [by rewrite app_assoc|].
        by rewrite for_each_app, H1.
      + destruct (IH _ _ ([], ∅) Hrest) as (bs2 & -> & _).
        exists (bs1 ++ bs2). split; [by rewrite app_assoc|].
        by rewrite for_each_app, H1. }
  intros st H. destruct (Hdirs _ _ st H) as (bs' & -> & ->).
  rewrite app_nil_l.
  destruct (for_each bs' load_scanned st) as [[items seen]|e]; done.
Qed.

Lemma load_test_annotations_parses fs rel_dirs items :
  load_test_annotations fs rel_dirs = Ok items →
  ∃ bs, scanned_blocks fs rel_dirs = Ok bs.
Proof.
  unfold scanned_blocks, load_test_annotations.
  intros ([items' seen] & Hloop & _)%bind_Ok. revert Hloop.
  generalize (([], ∅) : load_state). generalize ([] : list (string * block)).
  induction rel_dirs as [|rel_dir rel_dirs IH]; intros acc st.
  - intros _. cbn. eauto.
  - cbn [for_each]. intros (st1 & Hd & Hrest)%bind_Ok.
    destruct (fs rel_dir) as [|d]; [done|].
    destruct (scan_files_parse _ _ _ acc Hd) as [acc1 ->].
    cbn [mbind result_bind]. by eapply IH.
Qed.

Lemma load_scanned_Ok items seen rb st' :
  load_scanned (items, seen) rb = Ok st' →
  scanned_reqs rb ≠ [] ∧ (scanned_id rb ∉ seen)
  ∧ ∃ t, st' = (items ++ [t], seen ∪ {[scanned_id rb]})
         ∧ it_id t = scanned_id rb ∧ it_links t = scanned_reqs rb
         ∧ it_path t = rb.1.
Proof.
  unfold load_scanned, load_block, scanned_reqs, scanned_id.
  destruct (blk_reqs rb.2) as [|r reqs] eqn:Hreqs; [done|].
  cbn [Py.nonempty negb]. case_bool_decide as Hseen; [done|].
  intros [= <-]. split_and!; [done..|]. by eexists.
Qed.

Lemma load_scanned_fresh items seen rb :
  scanned_reqs rb ≠ [] → scanned_id rb ∉ seen →
  ∃ t, load_scanned (items, seen) rb
       = Ok (items ++ [t], seen ∪ {[scanned_id rb]})
       ∧ it_id t = scanned_id rb ∧ it_links t = scanned_reqs rb
       ∧ it_path t = rb.1.
Proof.
  unfold load_scanned, load_block, scanned_reqs, scanned_id.
  intros Hreqs Hseen.
  destruct (blk_reqs rb.2) as [|r reqs] eqn:Heq; [done|].
  cbn [Py.nonempty negb]. rewrite bool_decide_eq_false_2 by done.
  by eexists.
Qed.

Lemma load_scanned_missing st rb :
  scanned_reqs rb = [] →
  load_scanned st rb
  = Raise (ValueError ("Missing HODOR-REQS in " +:+ rb.1 +:+ ":"
                       +:+ Py.str_of_nat (blk_start_line rb.2))).
Proof. intros H. by apply load_block_missing_reqs. Qed.

Lemma load_scanned_duplicate items seen rb :
  scanned_reqs rb ≠ [] → scanned_id rb ∈ seen →
  load_scanned (items, seen) rb
  = Raise (ValueError ("Duplicate test id '" +:+ scanned_id rb +:+ "' in "
                       +:+ rb.1)).
Proof.
  unfold load_scanned, load_block, scanned_reqs, scanned_id.
  intros Hreqs Hseen. destruct (blk_reqs rb.2) as [|r reqs]; [done|].
  cbn [Py.nonempty negb]. by rewrite bool_decide_eq_true_2.
Qed.

Lemma seen_ids_snoc items (seen : gset string) t :
  seen_ids (items, seen) → seen_ids (items ++ [t], seen ∪ {[it_id t]}).
Proof.
  unfold seen_ids, ids. cbn [fst snd]. intros H x.
  rewrite fmap_app, elem_of_app, elem_of_union, H, elem_of_singleton.
  cbn. by rewrite list_elem_of_singleton.
Qed.

(** A loop over blocks that returns: every block has requirements, the ids
    claimed are new, and one record per block is appended. *)
Lemma scan_loop_Ok bs : ∀ st st',
  seen_ids st → for_each bs load_scanned st = Ok st' →
  seen_ids st'
  ∧ Forall (λ rb, scanned_reqs rb ≠ []) bs
  ∧ (NoDup (ids st.1) → NoDup (ids st.1 ++ (scanned_id <$> bs)))
  ∧ ∃ new, st'.1 = st.1 ++ new
           ∧ ids new = scanned_id <$> bs
           ∧ it_links <$> new = scanned_reqs <$> bs.
Proof.
  induction bs as [|rb bs IH]; intros [items seen] st' Hseen.
  - intros [= <-]. cbn [fst snd]. rewrite fmap_nil, app_nil_r.
    split_and!; [done|constructor|done|]. exists []. by rewrite app_nil_r.
  - cbn [for_each]. intros (st1 & Hrb & Hrest)%bind_Ok.
    apply load_scanned_Ok in Hrb as (Hreqs & Hnew & t & -> & Hid & Hlinks & _).
    apply IH in Hrest as (Hseen' & Hall & Hnd & new & Hst' & Hids & Hl);
      [|rewrite <- Hid; by apply seen_ids_snoc].
    cbn [fst snd] in *. split_and!; [done|by constructor| |].
    + intros Hitems. rewrite fmap_cons, <- Hid.
      unfold ids in Hnd. rewrite fmap_app, <- app_assoc in Hnd. apply Hnd.
      apply NoDup_app. split_and!; [done| |apply NoDup_singleton].
      intros x Hx ->%list_elem_of_singleton. apply Hnew.
      rewrite <- Hid. by apply Hseen.
    + exists (t :: new). rewrite Hst', <- app_assoc. split; [done|].
      unfold ids in *. by rewrite !fmap_cons, Hids, Hl, Hlinks, Hid.
Qed.

(** A loop over blocks with requirements and new ids returns. *)
Lemma scan_loop_total bs : ∀ st,
  seen_ids st → Forall (λ rb, scanned_reqs rb ≠ []) bs →
  NoDup (ids st.1 ++ (scanned_id <$> bs)) →
  ∃ st', for_each bs load_scanned st = Ok st' ∧ seen_ids st'
         ∧ ids st'.1 = ids st.1 ++ (scanned_id <$> bs).
Proof.
  induction bs as [|rb bs IH]; intros [items seen] Hseen Hall Hnd.
  - exists (items, seen). cbn. by rewrite app_nil_r.
  - apply Forall_cons in Hall as [Hreqs Hall]. cbn [fst snd] in *.
    rewrite fmap_cons in Hnd.
    assert (scanned_id rb ∉ seen) as Hnew.
    { intros Hin%Hseen. cbn [fst] in Hin.
      apply NoDup_app in Hnd as (_ & Hdisj & _). apply (Hdisj _ Hin). by left. }
    destruct (load_scanned_fresh items seen rb Hreqs Hnew)
      as (t & Hrb & Hid & _).
    destruct (IH (items ++ [t], seen ∪ {[scanned_id rb]})) as (st' & Hst' & Hs & Hids).
    + rewrite <- Hid. by apply seen_ids_snoc.
    + done.
    + cbn [fst]. unfold ids. rewrite fmap_app, <- app_assoc. cbn.
      by rewrite Hid.
    + exists st'. cbn [for_each]. rewrite Hrb. cbn [mbind result_bind].
      split_and!; [done..|]. rewrite Hids. cbn [fst]. unfold ids.
      rewrite fmap_app, <- app_assoc. cbn. by rewrite Hid.
Qed.

Lemma seen_ids_empty : seen_ids ([], ∅).
Proof. intros x. cbn. by rewrite elem_of_empty, elem_of_nil. Qed.

(** The first block without requirements, and the first block whose id
    was claimed before. *)
Lemma scan_loop_missing pre rb post :
  Forall (λ rb, scanned_reqs rb ≠ []) pre → NoDup (scanned_id <$> pre) →
  scanned_reqs rb = [] →
  for_each (pre ++ rb :: post) load_scanned ([], ∅)
  = Raise (ValueError ("Missing HODOR-REQS in " +:+ rb.1 +:+ ":"
                       +:+ Py.str_of_nat (blk_start_line rb.2))).
Proof.
  intros Hall Hnd Hreqs.
  destruct (scan_loop_total pre ([], ∅) seen_ids_empty Hall Hnd)
    as (st' & Hpre & _).
  rewrite for_each_app, Hpre. cbn [mbind result_bind for_each].
  by rewrite load_scanned_missing.
Qed.

Lemma scan_loop_duplicate pre rb post :
  Forall (λ rb, scanned_reqs rb ≠ []) (pre ++ [rb]) →
  NoDup (scanned_id <$> pre) →
  scanned_id rb ∈ scanned_id <$> pre →
  for_each (pre ++ rb :: post) load_scanned ([], ∅)
  = Raise (ValueError ("Duplicate test id '" +:+ scanned_id rb +:+ "' in "
                       +:+ rb.1)).
Proof.
  intros [Hall [Hreqs _]%Forall_cons]%Forall_app Hnd Hin.
  destruct (scan_loop_total pre ([], ∅) seen_ids_empty Hall Hnd)
    as ([items seen] & Hpre & Hseen & Hids).
  rewrite for_each_app, Hpre. cbn [mbind result_bind for_each].
  rewrite load_scanned_duplicate; [done..|].
  apply Hseen. cbn [fst] in *. by rewrite Hids.
Qed.

(** ** Whole runs *)

Section Runs.
Context (str_other : yaml → string) (utc_now : string).

Lemma load_test_annotations_Ok fs rel_dirs items :
  load_test_annotations fs rel_dirs = Ok items →
  ∃ bs, scanned_blocks fs rel_dirs = Ok bs
        ∧ Forall (λ rb, scanned_reqs rb ≠ []) bs
        ∧ NoDup (scanned_id <$> bs)
        ∧ ids items = scanned_id <$> bs
        ∧ it_links <$> items = scanned_reqs <$> bs.
Proof.
  intros H. destruct (load_test_annotations_parses _ _ _ H) as [bs Hbs].
  rewrite (load_test_annotations_flat _ _ _ Hbs) in H.
  apply bind_Ok in H as (st' & Hloop & [= <-]).
  apply scan_loop_Ok in Hloop
    as (_ & Hall & Hnd & new & -> & Hids & Hlinks); [|apply seen_ids_empty].
  exists bs. split_and!; [done..| |done|done].
  by apply (Hnd (NoDup_nil_2)).
Qed.

Lemma scan_tests_Ok fs test_scan_dirs scan_tests :
  (if Py.nonempty test_scan_dirs
   then load_test_annotations fs test_scan_dirs else Ok []) = Ok scan_tests →
  ∃ bs, scanned_blocks fs test_scan_dirs = Ok bs
        ∧ Forall (λ rb, scanned_reqs rb ≠ []) bs
        ∧ NoDup (scanned_id <$> bs)
        ∧ ids scan_tests = scanned_id <$> bs
        ∧ it_links <$> scan_tests = scanned_reqs <$> bs.
Proof.
  destruct test_scan_dirs as [|d ds]; [|apply load_test_annotations_Ok].
  intros [= <-]. exists []. split_and!; [done|constructor|constructor|done..].
Qed.

Lemma scan_tests_flat fs test_scan_dirs b bs :
  scanned_blocks fs test_scan_dirs = Ok (b :: bs) →
  (if Py.nonempty test_scan_dirs
   then load_test_annotations fs test_scan_dirs else Ok [])
  = (for_each (b :: bs) load_scanned ([], ∅) ≫= λ st, Ok st.1).
Proof.
  destruct test_scan_dirs as [|d ds]; [done|]. apply load_test_annotations_flat.
Qed.

Lemma uids_of_records files items :
  Forall2 (loaded_from str_other) files items →
  file_uid str_other <$> files = Ok <$> ids items.
Proof.
  induction 1 as [|f t files items (Hf & _) _ IH]; [done|].
  unfold ids in *. by rewrite !fmap_cons, Hf, IH.
Qed.

Lemma item_tests_Ok fs test_item_dirs item_tests :
  (if Py.nonempty test_item_dirs
   then load_items str_other fs test_item_dirs "Test" else Ok [])
  = Ok item_tests →
  file_uid str_other <$> List.filter kept (visited_files fs test_item_dirs)
  = Ok <$> ids item_tests.
Proof.
  destruct test_item_dirs as [|d ds]; [by intros [= <-]|].
  intros H%load_items_records. by apply uids_of_records.
Qed.

Lemma check_tests_seen tests : ∀ seen visited seen' visited',
  for_each tests check_test (seen, visited) = Ok (seen', visited') →
  ∀ x, x ∈ ids tests → x ∈ seen'.
Proof.
  induction tests as [|t tests IH]; intros seen visited seen' visited' H x.
  - by intros ?%elem_of_nil.
  - cbn [for_each] in H. apply bind_Ok in H as ([seen1 visited1] & Ht & H).
    unfold check_test in Ht. case_bool_decide; [done|].
    injection Ht as <- <-. unfold ids. rewrite fmap_cons.
    intros [->|Hx]%elem_of_cons; [|by eapply IH].
    assert (∀ tests seen visited seen' visited',
              for_each tests check_test (seen, visited) = Ok (seen', visited')
              → seen ⊆ seen') as Hmono.
    { clear. induction tests as [|t tests IH]; intros seen visited seen' visited'.
      - by intros [= <- <-].
      - cbn [for_each]. intros ([seen1 visited1] & Ht & H)%bind_Ok.
        unfold check_test in Ht. case_bool_decide; [done|].
        injection Ht as <- <-. apply IH in H. set_solver. }
    apply (Hmono _ _ _ _ _ H). set_solver.
Qed.

Lemma check_test_repeated (seen : gset string) visited t :
  it_id t ∈ seen →
  check_test (seen, visited) t
  = Raise (ValueError ("Duplicate test id '" +:+ it_id t +:+ "'")).
Proof. intros H. unfold check_test. by rewrite bool_decide_eq_true_2. Qed.

(** The first test record whose id was met before stops the resolver. *)
Lemma resolve_first_duplicate reqs pre t post root :
  NoDup (ids pre) → it_id t ∈ ids pre →
  resolve utc_now reqs (pre ++ t :: post) root
  = Raise (ValueError ("Duplicate test id '" +:+ it_id t +:+ "'")).
Proof.
  intros Hnd Hin. unfold resolve. rewrite for_each_app.
  destruct (check_tests_total pre ∅ [] Hnd) as [seen' Hpre].
  { intros x _. apply not_elem_of_empty. }
  rewrite Hpre. cbn [mbind result_bind for_each].
  rewrite check_test_repeated; [done|]. by eapply check_tests_seen.
Qed.

Lemma build_payload_scan fs req_dirs test_item_dirs test_scan_dirs root
    reqs item_tests :
  load_items str_other fs req_dirs "Requirement" = Ok reqs →
  (if Py.nonempty test_item_dirs
   then load_items str_other fs test_item_dirs "Test" else Ok [])
  = Ok item_tests →
  build_payload str_other utc_now fs req_dirs test_item_dirs test_scan_dirs
    root
  = ((if Py.nonempty test_scan_dirs
      then load_test_annotations fs test_scan_dirs else Ok [])
     ≫= λ scan_tests, resolve utc_now reqs (item_tests ++ scan_tests) root).
Proof. intros Hreqs Hitems. unfold build_payload. by rewrite Hreqs, Hitems. Qed.

(** C2, as the script has it.  Every test record that the annotation
    scanner produces has at least one declared link.  After a normal return
    of [build_payload] every block of every scanned file has requirement
    references, and the tests of the payload are the declarative ones
    followed by one record for each block, with the references of the block
    as its links.  When the requirements and the declarative tests load, the
    first block of the scan without requirement references, after blocks
    that have some and whose ids differ, aborts the run with the error that
    names the file and the line.  (A declarative test record may have no
    links.) *)
Theorem scanned_tests_have_links :
  (∀ fs req_dirs test_item_dirs test_scan_dirs root p,
     build_payload str_other utc_now fs req_dirs test_item_dirs
       test_scan_dirs root = Ok p →
     ∃ item_tests scan_tests bs,
       (if Py.nonempty test_item_dirs
        then load_items str_other fs test_item_dirs "Test" else Ok [])
       = Ok item_tests
       ∧ scanned_blocks fs test_scan_dirs = Ok bs
       ∧ Forall (λ rb, scanned_reqs rb ≠ []) bs
       ∧ ids scan_tests = scanned_id <$> bs
       ∧ it_links <$> scan_tests = scanned_reqs <$> bs
       ∧ ts_item <$> pl_tests p = (with_refs <$> item_tests) ++ scan_tests
       ∧ Forall (λ t, it_links t ≠ []) scan_tests)
  ∧ (∀ fs req_dirs test_item_dirs test_scan_dirs root reqs item_tests
       pre rel b post,
       load_items str_other fs req_dirs "Requirement" = Ok reqs →
       (if Py.nonempty test_item_dirs
        then load_items str_other fs test_item_dirs "Test" else Ok [])
       = Ok item_tests →
       scanned_blocks fs test_scan_dirs = Ok (pre ++ (rel, b) :: post) →
       Forall (λ rb, scanned_reqs rb ≠ []) pre →
       NoDup (scanned_id <$> pre) →
       blk_reqs b = [] →
       build_payload str_other utc_now fs req_dirs test_item_dirs
         test_scan_dirs root
       = Raise (ValueError ("Missing HODOR-REQS in " +:+ rel +:+ ":"
                            +:+ Py.str_of_nat (blk_start_line b)))).
Proof.
  split.
  - intros fs req_dirs test_item_dirs test_scan_dirs root p
      (reqs & item_tests & scan_tests & _ & Hitems & Hscan & Hres)
      %build_payload_Ok.
    assert (Forall scanned scan_tests) as Hscanned.
    { destruct (Py.nonempty test_scan_dirs).
      - by apply load_test_annotations_inv in Hscan as [_ ?].
      - injection Hscan as <-. constructor. }
    apply scan_tests_Ok in Hscan as (bs & Hbs & Hall & _ & Hids & Hlinks).
    apply (req_ids_resolve utc_now) in Hres as (_ & _ & -> & _).
    exists item_tests, scan_tests, bs. split_and!; [done..| |].
    + rewrite fmap_app. f_equal.
      clear -Hscanned. induction Hscanned as [|t l Ht _ IH]; [done|].
      by rewrite fmap_cons, IH, with_refs_scanned.
    + eapply Forall_impl; [done|]. by intros t [? _].
  - intros fs req_dirs test_item_dirs test_scan_dirs root reqs item_tests
      pre rel b post Hreqs Hitems Hbs Hall Hnd Hmissing.
    rewrite (build_payload_scan _ _ _ _ _ _ _ Hreqs Hitems).
    assert (∃ b0 bs0, pre ++ (rel, b) :: post = b0 :: bs0) as (b0 & bs0 & Heq).
    { destruct pre; simpl; eauto. }
    rewrite Heq in Hbs. rewrite (scan_tests_flat _ _ _ _ Hbs), <- Heq.
    by rewrite (scan_loop_missing pre (rel, b) post Hall Hnd Hmissing).
Qed.

(** C5, as the script has it.  A normal return of [build_payload] has no
    id twice among the requirements and none twice among the tests, and
    these ids are all the ids claimed: the uids of the requirement files,
    and the uids of the test item files followed by the ids of the blocks of
    the scan; so a repeated id aborts the run.  When the directories of a
    load exist and its files have uids, a uid declared by two item files,
    requirement files or test item files, raises the duplicate-id error
    that names the uid and the path of the later of the two files, the first
    file to repeat a uid.  The first block of the scan whose id was claimed
    by a block before it raises the duplicate-id error that names the id and
    the relative path of its file.  The first test record, declarative ones
    before scanned ones, whose id was met before raises the duplicate-id
    error that names the id only. *)
Theorem duplicate_ids_abort :
  (∀ fs req_dirs test_item_dirs test_scan_dirs root p,
     build_payload str_other utc_now fs req_dirs test_item_dirs
       test_scan_dirs root = Ok p →
     NoDup (req_ids p) ∧ NoDup (test_ids p)
     ∧ ∃ test_uids bs,
         file_uid str_other <$> List.filter kept (visited_files fs req_dirs)
         = Ok <$> req_ids p
         ∧ file_uid str_other
             <$> List.filter kept (visited_files fs test_item_dirs)
           = Ok <$> test_uids
         ∧ scanned_blocks fs test_scan_dirs = Ok bs
         ∧ test_ids p = test_uids ++ (scanned_id <$> bs))
  ∧ (∀ fs req_dirs test_item_dirs test_scan_dirs root us,
       forallb (exists_dir fs) req_dirs = true →
       file_uid str_other <$> List.filter kept (visited_files fs req_dirs)
       = Ok <$> us →
       ¬ NoDup us →
       ∃ pre f post u f0,
         List.filter kept (visited_files fs req_dirs) = pre ++ f :: post
         ∧ file_uid str_other f = Ok u
         ∧ f0 ∈ pre ∧ file_uid str_other f0 = Ok u
         ∧ build_payload str_other utc_now fs req_dirs test_item_dirs
             test_scan_dirs root
           = Raise (ValueError ("Duplicate item id '" +:+ u +:+ "' in "
                                +:+ if_str f)))
  ∧ (∀ fs req_dirs test_item_dirs test_scan_dirs root reqs us,
       load_items str_other fs req_dirs "Requirement" = Ok reqs →
       forallb (exists_dir fs) test_item_dirs = true →
       file_uid str_other
         <$> List.filter kept (visited_files fs test_item_dirs)
       = Ok <$> us →
       ¬ NoDup us →
       ∃ pre f post u f0,
         List.filter kept (visited_files fs test_item_dirs)
         = pre ++ f :: post
         ∧ file_uid str_other f = Ok u
         ∧ f0 ∈ pre ∧ file_uid str_other f0 = Ok u
         ∧ build_payload str_other utc_now fs req_dirs test_item_dirs
             test_scan_dirs root
           = Raise (ValueError ("Duplicate item id '" +:+ u +:+ "' in "
                                +:+ if_str f)))
  ∧ (∀ fs req_dirs test_item_dirs test_scan_dirs root reqs item_tests
       pre rel b post,
       load_items str_other fs req_dirs "Requirement" = Ok reqs →
       (if Py.nonempty test_item_dirs
        then load_items str_other fs test_item_dirs "Test" else Ok [])
       = Ok item_tests →
       scanned_blocks fs test_scan_dirs = Ok (pre ++ (rel, b) :: post) →
       Forall (λ rb, scanned_reqs rb ≠ []) (pre ++ [(rel, b)]) →
       NoDup (scanned_id <$> pre) →
       effective_id rel b ∈ scanned_id <$> pre →
       build_payload str_other utc_now fs req_dirs test_item_dirs
         test_scan_dirs root
       = Raise (ValueError ("Duplicate test id '" +:+ effective_id rel b
                            +:+ "' in " +:+ rel)))
  ∧ (∀ fs req_dirs test_item_dirs test_scan_dirs root reqs item_tests
       scan_tests pre t post,
       load_items str_other fs req_dirs "Requirement" = Ok reqs →
       (if Py.nonempty test_item_dirs
        then load_items str_other fs test_item_dirs "Test" else Ok [])
       = Ok item_tests →
       (if Py.nonempty test_scan_dirs
        then load_test_annotations fs test_scan_dirs else Ok [])
       = Ok scan_tests →
       item_tests ++ scan_tests = pre ++ t :: post →
       NoDup (ids pre) → it_id t ∈ ids pre →
       build_payload str_other utc_now fs req_dirs test_item_dirs
         test_scan_dirs root
       = Raise (ValueError ("Duplicate test id '" +:+ it_id t +:+ "'"))).
Proof.
  split_and!.
  - intros fs req_dirs test_item_dirs test_scan_dirs root p
      (reqs & item_tests & scan_tests & Hreqs & Hitems & Hscan & Hres)
      %build_payload_Ok.
    apply (req_ids_resolve utc_now) in Hres as (-> & -> & _ & Hnd).
    split_and!; [by apply load_items_inv in Hreqs as [? _]|done|].
    apply scan_tests_Ok in Hscan as (bs & Hbs & _ & _ & Hids & _).
    exists (ids item_tests), bs. split_and!; [| |done|].
    + by apply load_items_records, uids_of_records in Hreqs.
    + by apply item_tests_Ok.
    + unfold ids in *. by rewrite fmap_app, Hids.
  - intros fs req_dirs test_item_dirs test_scan_dirs root us Hdirs Hus Hdup.
    destruct (load_items_duplicate str_other fs req_dirs "Requirement" us
                Hdirs Hus Hdup)
      as (pre & f & post & u & f0 & ? & ? & ? & ? & Hraise).
    exists pre, f, post, u, f0. split_and!; [done..|].
    unfold build_payload. by rewrite Hraise.
  - intros fs req_dirs test_item_dirs test_scan_dirs root reqs us
      Hreqs Hdirs Hus Hdup.
    destruct (load_items_duplicate str_other fs test_item_dirs "Test" us
                Hdirs Hus Hdup)
      as (pre & f & post & u & f0 & ? & ? & ? & ? & Hraise).
    exists pre, f, post, u, f0. split_and!; [done..|].
    unfold build_payload. rewrite Hreqs. cbn [mbind result_bind].
    destruct test_item_dirs as [|d ds].
    + destruct us; [destruct Hdup; constructor|done].
    + cbn [Py.nonempty]. by rewrite Hraise.
  - intros fs req_dirs test_item_dirs test_scan_dirs root reqs item_tests
      pre rel b post Hreqs Hitems Hbs Hall Hnd Hin.
    rewrite (build_payload_scan _ _ _ _ _ _ _ Hreqs Hitems).
    assert (∃ b0 bs0, pre ++ (rel, b) :: post = b0 :: bs0) as (b0 & bs0 & Heq).
    { destruct pre; simpl; eauto. }
    rewrite Heq in Hbs. rewrite (scan_tests_flat _ _ _ _ Hbs), <- Heq.
    by rewrite (scan_loop_duplicate pre (rel, b) post Hall Hnd Hin).
  - intros fs req_dirs test_item_dirs test_scan_dirs root reqs item_tests
      scan_tests pre t post Hreqs Hitems Hscan Heq Hnd Hin.
    rewrite (build_payload_scan _ _ _ _ _ _ _ Hreqs Hitems), Hscan.
    cbn [mbind result_bind]. rewrite Heq.
    by apply resolve_first_duplicate.
Qed.
End Runs.

Lemma scanned_tests_have_links_witness :
  (∃ item_tests scan_tests bs,
     load_items Examples.str_scalar Examples.fs ["reqs/tst"] "Test"
     = Ok item_tests
     ∧ scanned_blocks Examples.fs ["src"] = Ok bs
     ∧ Forall (λ rb, scanned_reqs rb ≠ []) bs
     ∧ ids scan_tests = scanned_id <$> bs
     ∧ it_links <$> scan_tests = scanned_reqs <$> bs
     ∧ ts_item <$> pl_tests Examples.the_payload
       = (with_refs <$> item_tests) ++ scan_tests
     ∧ Forall (λ t, it_links t ≠ []) scan_tests)
  ∧ build_payload Examples.str_scalar "2026-01-01 00:00:00Z"
      (RunExamples.fs_with_src [Examples.a_go; RunExamples.c_go])
      ["reqs/mon"] ["reqs/tst"] ["src"] "."
    = Raise (ValueError "Missing HODOR-REQS in src/c.go:1").
Proof.
  split.
  - apply (proj1 (scanned_tests_have_links Examples.str_scalar
                    "2026-01-01 00:00:00Z")
             Examples.fs ["reqs/mon"] ["reqs/tst"] ["src"] "."
             Examples.the_payload).
    vm_compute. reflexivity.
  - apply (proj2 (scanned_tests_have_links Examples.str_scalar
                    "2026-01-01 00:00:00Z")
             (RunExamples.fs_with_src [Examples.a_go; RunExamples.c_go])
             ["reqs/mon"] ["reqs/tst"] ["src"] "."
             Examples.reqs Examples.item_tests
             [("src/a.go", Examples.block_T9)] "src/c.go"
             RunExamples.block_T5 []).
    + vm_compute. reflexivity.
    + vm_compute. reflexivity.
    + vm_compute. reflexivity.
    + repeat constructor. discriminate.
    + apply (bool_decide_unpack _). vm_compute. exact I.
    + reflexivity.
Defined.

Lemma duplicate_ids_abort_witness :
  (∃ pre f post u f0,
     List.filter kept (visited_files Examples.fs_duplicate ["reqs/mon"])
     = pre ++ f :: post
     ∧ file_uid Examples.str_scalar f = Ok u
     ∧ f0 ∈ pre ∧ file_uid Examples.str_scalar f0 = Ok u
     ∧ build_payload Examples.str_scalar "2026-01-01 00:00:00Z"
         Examples.fs_duplicate ["reqs/mon"] [] [] "."
       = Raise (ValueError ("Duplicate item id '" +:+ u +:+ "' in "
                            +:+ if_str f)))
  ∧ build_payload Examples.str_scalar "2026-01-01 00:00:00Z"
      (RunExamples.fs_with_src [Examples.a_go; RunExamples.d_go])
      ["reqs/mon"] ["reqs/tst"] ["src"] "."
    = Raise (ValueError "Duplicate test id 'T9' in src/d.go").
Proof.
  split.
  - apply (proj1 (proj2 (duplicate_ids_abort Examples.str_scalar
                           "2026-01-01 00:00:00Z"))
             Examples.fs_duplicate ["reqs/mon"] [] [] "." ["R1"; "R1"]).
    + vm_compute. reflexivity.
    + vm_compute. reflexivity.
    + apply (bool_decide_unpack _). vm_compute. exact I.
  - apply (proj1 (proj2 (proj2 (proj2
             (duplicate_ids_abort Examples.str_scalar
                "2026-01-01 00:00:00Z"))))
             (RunExamples.fs_with_src [Examples.a_go; RunExamples.d_go])
             ["reqs/mon"] ["reqs/tst"] ["src"] "."
             Examples.reqs Examples.item_tests
             [("src/a.go", Examples.block_T9)] "src/d.go"
             RunExamples.block_T9_again []).
    + vm_compute. reflexivity.
    + vm_compute. reflexivity.
    + vm_compute. reflexivity.
    + repeat constructor; discriminate.
    + apply (bool_decide_unpack _). vm_compute. exact I.
    + apply (bool_decide_unpack _). vm_compute. exact I.
Defined.

(** ** A block whose id directive has no value *)

Lemma parse_line_closes label blocks c n line :
  is_directive_line line = false →
  parse_line label (blocks, Some c) n line = Ok (blocks ++ [c], None).
Proof.
  unfold is_directive_line, parse_line.
  by destruct (DIRECTIVE_RE line) as [[d v]|].
Qed.

Lemma parse_line_rests label blocks current n line :
  is_directive_line line = false →
  ∃ blocks', parse_line label (blocks, current) n line = Ok (blocks', None).
Proof.
  unfold is_directive_line, parse_line.
  destruct (DIRECTIVE_RE line) as [[d v]|]; [done|].
  destruct current; eauto.
Qed.

(** The loop only appends to the closed blocks. *)
Lemma parse_loop_grows label lines : ∀ n blocks current blocks' current',
  for_enumerate n lines (parse_line label) (blocks, current)
  = Ok (blocks', current') →
  ∃ more, blocks' = blocks ++ more.
Proof.
  induction lines as [|line lines IH]; intros n blocks current blocks' current'.
  - intros [= <- <-]. exists []. by rewrite app_nil_r.
  - rewrite for_enumerate_cons.
    intros ([blocks1 current1] & Hline & Hrest)%bind_Ok.
    apply IH in Hrest as (more & ->).
    unfold parse_line in Hline.
    destruct (DIRECTIVE_RE line) as [[d v]|].
    + destruct (apply_directive _ _ _); [|done]. injection Hline as <- <-.
      eauto.
    + destruct current; injection Hline as <- <-; [|eauto].
      exists ([b] ++ more). by rewrite app_assoc.
Qed.

(** Lines that parse and do not end in a directive leave no block open. *)
Lemma parse_loop_closed_prefix label pre n :
  Forall (λ l, known_directive_or_text l = true) pre →
  pre = [] ∨ (∃ l, last pre = Some l ∧ is_directive_line l = false) →
  ∃ blocks, for_enumerate n pre (parse_line label) ([], None)
            = Ok (blocks, None).
Proof.
  intros Hknown [->|(l & Hlast & Hl)]; [by exists []|].
  apply last_Some in Hlast as [pre' ->].
  apply Forall_app in Hknown as [Hknown _].
  rewrite for_enumerate_app.
  destruct (parse_loop_total label pre' n ([], None) Hknown)
    as [[blocks current] ->].
  cbn [mbind result_bind]. rewrite for_enumerate_cons.
  destruct (parse_line_rests label blocks current (n + length pre') l Hl)
    as [blocks' ->].
  by exists blocks'.
Qed.

(** A run of known directive lines read when no block is open. *)
Lemma parse_loop_opening_run label line lines n blocks :
  Forall (λ line, is_directive_line line = true
                  ∧ known_directive_or_text line = true) (line :: lines) →
  for_enumerate n (line :: lines) (parse_line label) (blocks, None)
  = Ok (blocks, Some (extend_block (new_block n) (line :: lines))).
Proof.
  intros [[Hdir Hknown] Hrest]%Forall_cons. rewrite for_enumerate_cons.
  unfold is_directive_line, known_directive_or_text in Hdir, Hknown.
  destruct (DIRECTIVE_RE line) as [[d v]|] eqn:Hre; [|done].
  apply bool_decide_eq_true in Hknown.
  destruct (apply_directive_is_Some _ _ _ (Py.strip v) (new_block n) Hknown)
    as [c' Hc'].
  assert (parse_line label (blocks, None) n line = Ok (blocks, Some c')) as ->.
  { unfold parse_line. rewrite Hre. simpl. by rewrite Hc'. }
  cbn [mbind result_bind]. rewrite parse_loop_run_of_directives by done.
  by rewrite (extend_block_cons (new_block n) line lines d v c').
Qed.

(** The block of a run of directive lines between lines that are no
    directives. *)
Lemma parse_hodor_blocks_run_between label pre line lines post :
  Forall (λ l, known_directive_or_text l = true) (pre ++ post) →
  pre = [] ∨ (∃ l, last pre = Some l ∧ is_directive_line l = false) →
  Forall (λ line, is_directive_line line = true
                  ∧ known_directive_or_text line = true) (line :: lines) →
  post = [] ∨ (∃ l, head post = Some l ∧ is_directive_line l = false) →
  ∃ before after,
    parse_hodor_blocks (pre ++ (line :: lines) ++ post) label
    = Ok (before
          ++ extend_block (new_block (S (length pre))) (line :: lines)
             :: after).
Proof.
  intros [Hpre Hpost]%Forall_app Hclosed Hrun Hend.
  unfold parse_hodor_blocks. rewrite for_enumerate_app.
  destruct (parse_loop_closed_prefix label pre 1 Hpre Hclosed) as [before ->].
  cbn [mbind result_bind]. rewrite for_enumerate_app.
  rewrite parse_loop_opening_run by done.
  cbn [mbind result_bind].
  change (1 + length pre) with (S (length pre)).
  set (b := extend_block (new_block (S (length pre))) (line :: lines)).
  destruct Hend as [->|(l & Hhead & Hl)].
  - exists before, []. done.
  - destruct post as [|l' post]; [done|]. injection Hhead as ->.
    apply Forall_cons in Hpost as [_ Hpost].
    rewrite for_enumerate_cons, parse_line_closes by done.
    cbn [mbind result_bind].
    destruct (parse_loop_total label post
                (S (S (length pre) + length (line :: lines)))
                (before ++ [b], None) Hpost) as [[blocks current] Hrest].
    rewrite Hrest. cbn [mbind result_bind].
    apply parse_loop_grows in Hrest as [more ->].
    destruct current as [c|].
    + exists before, (more ++ [c]). by rewrite <- !app_assoc.
    + exists before, more. by rewrite <- !app_assoc.
Qed.

(** The records of a file only grow along its blocks. *)
Lemma load_blocks_grow rel blocks : ∀ st st',
  for_each blocks (load_block rel) st = Ok st' →
  ∃ more, st'.1 = st.1 ++ more.
Proof.
  induction blocks as [|b blocks IH]; intros [items seen] st'.
  - intros [= <-]. exists []. by rewrite app_nil_r.
  - cbn [for_each]. intros (st1 & Hb & Hrest)%bind_Ok.
    apply (load_scanned_Ok items seen (rel, b)) in Hb as (_ & _ & t & -> & _).
    apply IH in Hrest as (more & ->). exists ([t] ++ more).
    cbn [fst]. by rewrite app_assoc.
Qed.

(** C9.  A block whose [HODOR-ID] directive carries an empty value has no
    explicit id.  For a run of directive lines of a scanned file, between
    lines that are no directives, whose last [HODOR-ID] line has an empty
    value: the parser returns the block of the run with the empty string
    stored as its id; the effective test id of the block is the synthesized
    [<relative path>#L<start line>], with the number of the first line of the
    run, and not the empty string; and whenever the scanner returns from the
    file, its records hold one for the block under that id. *)
Theorem empty_hodor_id_is_synthesized f content pre line lines post :
  sf_read f = Some content →
  Py.splitlines content = pre ++ (line :: lines) ++ post →
  Forall (λ l, known_directive_or_text l = true) (pre ++ post) →
  pre = [] ∨ (∃ l, last pre = Some l ∧ is_directive_line l = false) →
  Forall (λ line, is_directive_line line = true
                  ∧ known_directive_or_text line = true) (line :: lines) →
  post = [] ∨ (∃ l, head post = Some l ∧ is_directive_line l = false) →
  last (directive_values ["HODOR-ID"] (line :: lines)) = Some EmptyString →
  let synthesized :=
    sf_rel f +:+ "#L" +:+ Py.str_of_nat (S (length pre)) in
  ∃ before b after,
    parse_hodor_blocks (Py.splitlines content) (sf_str f)
    = Ok (before ++ b :: after)
    ∧ blk_id b = Some EmptyString
    ∧ blk_start_line b = S (length pre)
    ∧ blk_reqs b
      = concat (split_list
                  <$> directive_values ["HODOR-REQS"] (line :: lines))
    ∧ effective_id (sf_rel f) b = synthesized
    ∧ synthesized ≠ EmptyString
    ∧ ∀ st st',
        load_scan_file st f = Ok st' →
        ∃ t, t ∈ st'.1 ∧ it_id t = synthesized
             ∧ it_links t = blk_reqs b ∧ it_path t = sf_rel f.
Proof.
  intros Hread Hlines Hknown Hclosed Hrun Hend Hid synthesized.
  destruct (parse_hodor_blocks_run_between (sf_str f) pre line lines post
              Hknown Hclosed Hrun Hend) as (before & after & Hparse).
  rewrite <- Hlines in Hparse.
  set (b := extend_block (new_block (S (length pre))) (line :: lines)) in *.
  assert (blk_id b = Some EmptyString) as Hb.
  { unfold b, extend_block. cbn [blk_id]. by rewrite Hid. }
  assert (effective_id (sf_rel f) b = synthesized) as Heff.
  { unfold effective_id. by rewrite Hb. }
  exists before, b, after. split_and!; [done..| |].
  - rewrite <- Heff. apply effective_id_nonempty.
  - intros [items seen] st'. unfold load_scan_file.
    rewrite Hread, Hparse. cbn [mbind result_bind].
    replace (Py.nonempty (before ++ b :: after)) with true
      by by destruct before.
    cbn [negb]. rewrite for_each_app.
    intros ([items1 seen1] & _ & Hrest)%bind_Ok. cbn [for_each] in Hrest.
    apply bind_Ok in Hrest as (st2 & Hblock & Hrest).
    apply (load_scanned_Ok items1 seen1 (sf_rel f, b)) in Hblock
      as (_ & _ & t & -> & Ht & Hlinks & Hpath).
    apply load_blocks_grow in Hrest as (more & ->). cbn [fst snd] in *.
    exists t. split_and!; [|by rewrite Ht|done..].
    rewrite !elem_of_app, list_elem_of_singleton. auto.
Qed.

Lemma empty_hodor_id_is_synthesized_witness :
  ∃ st', load_scan_file ([], ∅) RunExamples.e_go = Ok st'
         ∧ ∃ t, t ∈ st'.1 ∧ it_id t = "src/e.go#L2"
                ∧ it_links t = ["R1"] ∧ it_path t = "src/e.go".
Proof.
  destruct (empty_hodor_id_is_synthesized RunExamples.e_go
              ("package e" +:+ Examples.nl +:+
               "// HODOR-ID:" +:+ Examples.nl +:+
               "// HODOR-REQS: R1" +:+ Examples.nl +:+
               "func TestE() {}" +:+ Examples.nl)
              ["package e"] "// HODOR-ID:" ["// HODOR-REQS: R1"]
              ["func TestE() {}"])
    as (before & b & after & _ & _ & _ & Hreqs & _ & _ & Hscan).
  - reflexivity.
  - vm_compute. reflexivity.
  - repeat constructor.
  - right. exists "package e". split; vm_compute; reflexivity.
  - apply (bool_decide_unpack _). vm_compute. exact I.
  - right. exists "func TestE() {}". split; vm_compute; reflexivity.
  - vm_compute. reflexivity.
  - assert (∃ st', load_scan_file ([], ∅) RunExamples.e_go = Ok st')
      as [st' Hst'] by (vm_compute; eexists; reflexivity).
    exists st'. split; [exact Hst'|].
    destruct (Hscan _ _ Hst') as (t & Hin & Hid & Hlinks & Hpath).
    exists t. rewrite Hreqs in Hlinks.
    split_and!; [exact Hin|exact Hid| |exact Hpath].
    rewrite Hlinks. vm_compute. reflexivity.
Defined.
